(** * Threejs_animation: the character model, the pointer proxy and their clips

    A shallow embedding of the two components of the page,
    [ModelDisplayer] (the scene host, modelLoader.js) and [CursorObject]
    (the pointer proxy, cursorObject.js), and of the handlers of home.js
    that drive them.

    JavaScript numbers are IEEE 754 binary64 values: they are modelled by
    Rocq's primitive floats, so [===] and [<=] on numbers are
    [PrimFloat.eqb] and [PrimFloat.leb].  Methods are computations in a
    state-and-exception monad over a world that holds the component, the
    animation actions it can reach and the console.  Objects that only
    serve rendering (scene, camera, renderer, lights, clock) are left out.
    The development is about what the methods decide and start, not about
    how three.js advances a clip in time: of a frame of the loop only what
    it cannot do is kept (see [animate]). *)

From Stdlib Require Import Floats.
From stdpp Require Import base option list gmap strings.

Set Default Proof Using "Type".

(* ================================================================== *)
(** * JavaScript values and control *)
(* ================================================================== *)

Module JS.

(** What a [throw] carries.  [TypeError] is raised by a member access on
    [null] or [undefined] and by a call of something that is not a function;
    [LoadError] is the value a failed asset load hands to [onError].
    [DanglingReference] has no JavaScript counterpart: it is the answer of
    the model when an action reference points outside the heap, which no
    well-formed world does. *)
Inductive Error : Type :=
| TypeError (message : string)
| LoadError (message : string)
| DanglingReference.

(** How the evaluation of a call ends. *)
Inductive Completion (A : Type) : Type :=
| Normal (value : A)
| Throw (error : Error).
Arguments Normal {A} value.
Arguments Throw {A} error.

(** How a promise ends. *)
Inductive Settlement (A : Type) : Type :=
| Resolved (value : A)
| Rejected (reason : Error).
Arguments Resolved {A} value.
Arguments Rejected {A} reason.

(** Strict equality [===], on numbers and on strings. *)
Class StrictEq (A : Type) := strict_eq : A -> A -> bool.
#[export] Instance number_strict_eq : StrictEq float := PrimFloat.eqb.
#[export] Instance string_strict_eq : StrictEq string := String.eqb.

(** [Map]: the entries in insertion order.  [set] on a key that is present
    replaces its value in place, on a new key it appends the entry;
    [new Map(iterable)] sets the pairs of the iterable one after the other. *)
Record Map (K V : Type) : Type := mkMap { entries : list (K * V) }.
Arguments mkMap {K V} entries.
Arguments entries {K V} _.

Fixpoint set_entry {V : Type} (key : string) (value : V)
    (l : list (string * V)) : list (string * V) :=
  match l with
  | [] => [(key, value)]
  | (k, v) :: rest =>
      if String.eqb k key then (k, value) :: rest
      else (k, v) :: set_entry key value rest
  end.

Definition Map_set {V : Type} (key : string) (value : V)
    (m : Map string V) : Map string V :=
  mkMap (set_entry key value (entries m)).

Definition Map_new {V : Type} (iterable : list (string * V)) : Map string V :=
  fold_left (fun m kv => Map_set (fst kv) (snd kv) m) iterable (mkMap []).

End JS.

Export JS.
Notation "x === y" := (strict_eq x y) (at level 70, no associativity).

(* ================================================================== *)
(** * The part of three.js the components use *)
(* ================================================================== *)

(** Modelled from the spec: libs/three.module.js is not among the sources.
    The spec speaks of the "Euclidean distance" of two points, of clips ("a
    named, time-bounded animation sequence"), of a current action with
    "playing/paused, elapsed time, direction", and of the mixer as "the
    per-model component that advances and blends active clips each frame".
    The definitions below give these the fields and the methods the two
    components call on them, named as the calls in the sources name them. *)
Module THREE.

Record Vector3 : Type := mkVector3 { x : float; y : float; z : float }.

(** [a.distanceToSquared(b)] and [a.distanceTo(b)]. *)
Definition distanceToSquared (a b : Vector3) : float :=
  let dx := (x a - x b)%float in
  let dy := (y a - y b)%float in
  let dz := (z a - z b)%float in
  (dx * dx + dy * dy + dz * dz)%float.

Definition distanceTo (a b : Vector3) : float :=
  PrimFloat.sqrt (distanceToSquared a b).

(** [v.multiplyScalar(s)]. *)
Definition multiplyScalar (s : float) (v : Vector3) : Vector3 :=
  mkVector3 (x v * s) (y v * s) (z v * s).

(** An object of the scene graph; only its position is kept. *)
Record Object3D : Type := mkObject3D { position : Vector3 }.

Record AnimationClip : Type := mkClip { name : string; duration : float }.

(** [THREE.AnimationClip.findByName(clips, name)]: the first clip of that
    name, or [null]. *)
Fixpoint findByName (clips : list AnimationClip) (clipName : string)
    : option AnimationClip :=
  match clips with
  | [] => None
  | clip :: rest =>
      if name clip === clipName then Some clip else findByName rest clipName
  end.

Inductive LoopMode : Type := LoopOnce | LoopRepeat | LoopPingPong.

(** An animation action.  [scheduled] says that the action is among the
    active actions of its mixer, which is what [play()] asks for. *)
Record AnimationAction : Type := mkAction {
  _clip : AnimationClip;
  loop : LoopMode;
  time : float;
  timeScale : float;
  paused : bool;
  enabled : bool;
  clampWhenFinished : bool;
  scheduled : bool
}.

(** The action [mixer.clipAction(clip)] creates for a clip it has not seen. *)
Definition newAction (clip : AnimationClip) : AnimationAction :=
  {| _clip := clip; loop := LoopRepeat; time := 0; timeScale := 1;
     paused := false; enabled := true; clampWhenFinished := false;
     scheduled := false |}.

Definition setLoop (mode : LoopMode) (a : AnimationAction) : AnimationAction :=
  {| _clip := _clip a; loop := mode; time := time a; timeScale := timeScale a;
     paused := paused a; enabled := enabled a;
     clampWhenFinished := clampWhenFinished a; scheduled := scheduled a |}.

Definition set_timeScale (v : float) (a : AnimationAction) : AnimationAction :=
  {| _clip := _clip a; loop := loop a; time := time a; timeScale := v;
     paused := paused a; enabled := enabled a;
     clampWhenFinished := clampWhenFinished a; scheduled := scheduled a |}.

Definition set_paused (v : bool) (a : AnimationAction) : AnimationAction :=
  {| _clip := _clip a; loop := loop a; time := time a; timeScale := timeScale a;
     paused := v; enabled := enabled a;
     clampWhenFinished := clampWhenFinished a; scheduled := scheduled a |}.

Definition set_enabled (v : bool) (a : AnimationAction) : AnimationAction :=
  {| _clip := _clip a; loop := loop a; time := time a; timeScale := timeScale a;
     paused := paused a; enabled := v;
     clampWhenFinished := clampWhenFinished a; scheduled := scheduled a |}.

Definition set_clampWhenFinished (v : bool) (a : AnimationAction)
    : AnimationAction :=
  {| _clip := _clip a; loop := loop a; time := time a; timeScale := timeScale a;
     paused := paused a; enabled := enabled a;
     clampWhenFinished := v; scheduled := scheduled a |}.

(** [action.play()]: the mixer activates the action. *)
Definition play (a : AnimationAction) : AnimationAction :=
  {| _clip := _clip a; loop := loop a; time := time a; timeScale := timeScale a;
     paused := paused a; enabled := enabled a;
     clampWhenFinished := clampWhenFinished a; scheduled := true |}.

(** [action.reset()]: unpaused, enabled, back at time 0. *)
Definition reset (a : AnimationAction) : AnimationAction :=
  {| _clip := _clip a; loop := loop a; time := 0; timeScale := timeScale a;
     paused := false; enabled := true;
     clampWhenFinished := clampWhenFinished a; scheduled := scheduled a |}.

(** [action.isRunning()]: the action is advancing on its mixer.  (No action
    of the page is given a start time, which three.js would test too.) *)
Definition isRunning (a : AnimationAction) : bool :=
  enabled a && negb (paused a) && negb (timeScale a === 0%float) && scheduled a.

(** A reference to an action object: its place in the heap of the world. *)
Definition ActionRef : Type := nat.

(** The mixer remembers the action it made for each clip; a clip is known
    by its name, [findByName] giving one clip per name. *)
Record AnimationMixer : Type := mkMixer {
  _actionsByClip : gmap string ActionRef
}.

(** [new THREE.AnimationMixer(root)]. *)
Definition newMixer : AnimationMixer := {| _actionsByClip := ∅ |}.

(** What a loaded asset holds. *)
Record GLTF : Type := mkGLTF {
  scene : Object3D;
  animations : list AnimationClip
}.

(** How [loader.load(url, onLoad, onProgress, onError)] ends: it calls
    [onLoad] with the asset, or [onError] with an error.  [boxCentre] is the
    centre of the bounding box of the asset's scene, which the [onLoad]
    callbacks ask three.js for. *)
Inductive LoaderOutcome : Type :=
| Loaded (gltf : GLTF) (boxCentre : Vector3)
| Failed (error : JS.Error).

End THREE.

Export THREE.

(* ================================================================== *)
(** * Worlds and computations *)
(* ================================================================== *)

(** A line of the console: what [console.error(e)] and what
    [console.log(position)] write. *)
Inductive ConsoleLine : Type :=
| error_line (e : JS.Error)
| log_line (position : option Vector3).

(** The part of the page a method of a component of type [T] can read and
    write: the component itself ([this]), the animation actions (objects
    shared between the component and its mixer, found by reference), and
    what has been written to the console. *)
Record World (T : Type) : Type := mkWorld {
  this : T;
  heap : list AnimationAction;
  console : list ConsoleLine
}.
Arguments mkWorld {T} this heap console.
Arguments this {T} _.
Arguments heap {T} _.
Arguments console {T} _.

(** A method body: it ends normally with a value or throws, and either way
    leaves the world as it was at that point. *)
Definition M (T A : Type) : Type := World T -> Completion A * World T.

Definition ret {T A : Type} (a : A) : M T A := fun w => (Normal a, w).

Definition throw {T A : Type} (e : JS.Error) : M T A := fun w => (Throw e, w).

Definition bind {T A B : Type} (m : M T A) (k : A -> M T B) : M T B :=
  fun w =>
    match m w with
    | (Normal a, w') => k a w'
    | (Throw e, w') => (Throw e, w')
    end.

Notation "'let*' x ':=' m 'in' k" := (bind m (fun x => k))
  (at level 10, x name, m at level 100, k at level 200).
Notation "m ';;' k" := (bind m (fun _ => k))
  (at level 100, k at level 200, right associativity, only parsing).

Definition get_this {T : Type} : M T T := fun w => (Normal (this w), w).

Definition put_this {T : Type} (t : T) : M T unit :=
  fun w => (Normal tt, mkWorld t (heap w) (console w)).

(** [console.error(e)]. *)
Definition console_error {T : Type} (e : JS.Error) : M T unit :=
  fun w => (Normal tt, mkWorld (this w) (heap w) (console w ++ [error_line e])).

(** [console.log(position)]. *)
Definition console_log {T : Type} (position : option Vector3) : M T unit :=
  fun w => (Normal tt, mkWorld (this w) (heap w) (console w ++ [log_line position])).

(** Reading the object behind a reference. *)
Definition read {T : Type} (r : ActionRef) : M T AnimationAction :=
  fun w =>
    match heap w !! r with
    | Some a => (Normal a, w)
    | None => (Throw DanglingReference, w)
    end.

(** Calling a method, or assigning a field, of the object behind a reference. *)
Definition update {T : Type} (r : ActionRef)
    (f : AnimationAction -> AnimationAction) : M T unit :=
  fun w =>
    match heap w !! r with
    | Some a => (Normal tt, mkWorld (this w) (<[r := f a]> (heap w)) (console w))
    | None => (Throw DanglingReference, w)
    end.

(** A new action object. *)
Definition alloc {T : Type} (a : AnimationAction) : M T ActionRef :=
  fun w => (Normal (length (heap w)), mkWorld (this w) (heap w ++ [a]) (console w)).

(** A member access [o.f] or a call [o.f(...)] where [o] may be [null] or
    [undefined]. *)
Definition member {T A : Type} (o : option A) (what : string) : M T A :=
  match o with
  | Some a => ret a
  | None => throw (TypeError what)
  end.

(** [map.forEach(callback)], for a callback that assigns locals of the
    enclosing function: [locals] is their value before the entry, the
    result of the callback their value after it. *)
Fixpoint Map_forEach {T V L : Type} (l : list (string * V))
    (callback : L -> V -> string -> M T L) (locals : L) : M T L :=
  match l with
  | [] => ret locals
  | (key, value) :: rest =>
      let* locals' := callback locals value key in
      Map_forEach rest callback locals'
  end.

(** [mixer.clipAction(clip)]: [null] for no clip; the action the mixer
    already has for the clip; or else a new action, which it remembers. *)
Definition clipAction {T : Type} (mixer : AnimationMixer)
    (clip : option AnimationClip) : M T (option ActionRef * AnimationMixer) :=
  match clip with
  | None => ret (None, mixer)
  | Some c =>
      match _actionsByClip mixer !! name c with
      | Some r => ret (Some r, mixer)
      | None =>
          let* r := alloc (newAction c) in
          ret (Some r, mkMixer (<[name c := r]> (_actionsByClip mixer)))
      end
  end.

(** [THREE.AnimationClip.findByName(clips, name)] where [clips] may be
    [undefined]: three.js then reads a property of [undefined]. *)
Definition findClip {T : Type} (clips : option (list AnimationClip))
    (clipName : string) : M T (option AnimationClip) :=
  let* l := member clips "findByName: the clips are undefined" in
  ret (findByName l clipName).

(** The actions of a mixer that are running. *)
Definition running (mixer : AnimationMixer) (h : list AnimationAction)
    : list (string * ActionRef) :=
  filter (fun kr => default false (isRunning <$> h !! kr.2) = true)
         (map_to_list (_actionsByClip mixer)).

(** The current action, when there is one, is an object of the heap. *)
Definition current_ok (current : option ActionRef) (h : list AnimationAction)
    : Prop :=
  forall r, current = Some r -> is_Some (h !! r).

(** Each action the mixer remembers is an object of the heap, made for the
    clip that its name finds among the clips of the asset. *)
Definition mixer_ok (mixer : option AnimationMixer)
    (clips : option (list AnimationClip)) (h : list AnimationAction) : Prop :=
  forall m k r,
    mixer = Some m -> _actionsByClip m !! k = Some r ->
    exists a l, h !! r = Some a /\ clips = Some l /\ findByName l k = Some (_clip a).

(* ================================================================== *)
(** * ModelDisplayer: the scene host *)
(* ================================================================== *)

Module ModelDisplayer.

(** The fields of the class that playback and loading touch.  [_mixer],
    [_model] and [_center] start as the empty object [{}], which has none of
    the properties the methods ask for: it is [None] here. *)
Record t : Type := mk {
  _mixer : option AnimationMixer;
  _model : option GLTF;
  _center : option Vector3;
  _currentAction : option ActionRef;
  _isAnimationPlayable : bool
}.

Definition constructor : t :=
  {| _mixer := None; _model := None; _center := None;
     _currentAction := None; _isAnimationPlayable := true |}.

Definition set_mixer (v : option AnimationMixer) (o : t) : t :=
  {| _mixer := v; _model := _model o; _center := _center o;
     _currentAction := _currentAction o;
     _isAnimationPlayable := _isAnimationPlayable o |}.

Definition set_model (v : option GLTF) (o : t) : t :=
  {| _mixer := _mixer o; _model := v; _center := _center o;
     _currentAction := _currentAction o;
     _isAnimationPlayable := _isAnimationPlayable o |}.

Definition set_center (v : option Vector3) (o : t) : t :=
  {| _mixer := _mixer o; _model := _model o; _center := v;
     _currentAction := _currentAction o;
     _isAnimationPlayable := _isAnimationPlayable o |}.

Definition set_currentAction (v : option ActionRef) (o : t) : t :=
  {| _mixer := _mixer o; _model := _model o; _center := _center o;
     _currentAction := v;
     _isAnimationPlayable := _isAnimationPlayable o |}.

(** [this._currentAction.f(...)] and [this._currentAction.f = v]. *)
Definition on_currentAction (f : AnimationAction -> AnimationAction) : M t unit :=
  let* self := get_this in
  let* r := member (_currentAction self) "this._currentAction is null" in
  update r f.

Definition _isActionPlayable : M t bool :=
  let* self := get_this in
  match _currentAction self with
  | None => ret true
  | Some r =>
      let* a := read r in
      if paused a || (time a === 0%float) then ret true else ret false
  end.

Definition playAnimation (clipName : string) : M t unit :=
  let* playable := _isActionPlayable in
  if playable then
    let* self := get_this in
    let* isClipAtStartingPoint :=
      match _currentAction self with
      | None => ret true
      | Some r =>
          let* a := read r in
          if time a === 0%float then ret true else ret false
      end in
    if isClipAtStartingPoint then
      let* clip := findClip (animations <$> _model self) clipName in
      let* mixer := member (_mixer self) "this._mixer.clipAction is not a function" in
      let* made := clipAction mixer clip in
      put_this (set_currentAction made.1 (set_mixer (Some made.2) self)) ;;
      on_currentAction (setLoop LoopOnce) ;;
      on_currentAction (set_clampWhenFinished true) ;;
      on_currentAction (set_paused false) ;;
      on_currentAction (set_enabled true) ;;
      on_currentAction (set_timeScale 1) ;;
      on_currentAction play
    else ret tt
  else ret tt.

Definition revertToOriginalPosition : M t unit :=
  let* playable := _isActionPlayable in
  if playable then
    let* self := get_this in
    let* isClipAtEndPoint :=
      match _currentAction self with
      | None => ret false
      | Some r =>
          let* a := read r in
          if time a === 0%float then ret false else ret true
      end in
    if isClipAtEndPoint then
      on_currentAction (set_timeScale (-1)) ;;
      on_currentAction (set_clampWhenFinished false) ;;
      on_currentAction (set_paused false) ;;
      on_currentAction (setLoop LoopOnce) ;;
      on_currentAction play
    else ret tt
  else ret tt.

(** The promise of [_loadModelOntoScene]: on load the model is moved by its
    distance to the centre of its bounding box (and 80 down), the centre is
    kept, and the promise resolves with the asset; on error the error is
    logged and the promise is rejected with it. *)
Definition _loadModelOntoScene (filename : string) (outcome : LoaderOutcome)
    : M t (Settlement GLTF) :=
  match outcome with
  | Loaded gltf boxCentre =>
      let* self := get_this in
      put_this (set_center (Some boxCentre) self) ;;
      let p := position (scene gltf) in
      let model :=
        mkObject3D (mkVector3 (x p + (x p - x boxCentre))
                              (y p + ((y p - y boxCentre) - 80))
                              (z p + (z p - z boxCentre))) in
      ret (Resolved (mkGLTF model (animations gltf)))
  | Failed error =>
      console_error error ;;
      ret (Rejected error)
  end.

Definition displayModelOnWebpage (filename : string) (outcome : LoaderOutcome)
    : M t (Settlement GLTF) :=
  let* loaded := _loadModelOntoScene filename outcome in
  match loaded with
  | Resolved model =>
      let* self := get_this in
      put_this (set_mixer (Some newMixer) (set_model (Some model) self)) ;;
      ret (Resolved model)
  | Rejected err =>
      console_error err ;;
      ret (Rejected err)
  end.

(** The current action, when there is one. *)
Definition currentAction (w : World t) : option AnimationAction :=
  r ← _currentAction (this w); heap w !! r.

(** The worlds the methods keep to: the current action, when there is one,
    is an action of the heap, and each action the mixer remembers is an
    action of the heap, made for the clip its name finds in the asset. *)
Definition wf (w : World t) : Prop :=
  current_ok (_currentAction (this w)) (heap w) /\
  mixer_ok (_mixer (this w)) (animations <$> _model (this w)) (heap w).

(** The asset has been loaded. *)
Definition loaded (w : World t) : Prop :=
  is_Some (_model (this w)) /\ is_Some (_mixer (this w)).

End ModelDisplayer.

(* ================================================================== *)
(** * The names of the animations *)
(* ================================================================== *)

(** animationConstants.js is not among the sources: the names are taken as
    a table of strings, one per key the sources use. *)
Record AnimationNameConstants : Type := mkNames {
  NONE : string;
  TOUCH : string;
  SHOES : string;
  HEAD : string;
  LA : string;
  SCROLL : string;
  CLICK : string;
  INDEX_FINGER : string
}.

(** The names that select a trigger point are four different names. *)
Definition trigger_names_distinct (K : AnimationNameConstants) : Prop :=
  NoDup [TOUCH K; SHOES K; HEAD K; LA K].

(* ================================================================== *)
(** * CursorObject: the pointer proxy *)
(* ================================================================== *)

Module CursorObject.

Definition TRIGGER_REGION_RADIUS : float := 5.

Record t : Type := mk {
  _model : option Object3D;
  _mixer : option AnimationMixer;
  _currentAction : option ActionRef;
  _currentClipDuration : float;
  _trigger_centres : JS.Map string Vector3;
  _center : option Vector3;
  _animations : option (list AnimationClip)
}.

Definition set_model (v : option Object3D) (o : t) : t :=
  {| _model := v; _mixer := _mixer o; _currentAction := _currentAction o;
     _currentClipDuration := _currentClipDuration o;
     _trigger_centres := _trigger_centres o; _center := _center o;
     _animations := _animations o |}.

Definition set_mixer (v : option AnimationMixer) (o : t) : t :=
  {| _model := _model o; _mixer := v; _currentAction := _currentAction o;
     _currentClipDuration := _currentClipDuration o;
     _trigger_centres := _trigger_centres o; _center := _center o;
     _animations := _animations o |}.

Definition set_currentAction (v : option ActionRef) (o : t) : t :=
  {| _model := _model o; _mixer := _mixer o; _currentAction := v;
     _currentClipDuration := _currentClipDuration o;
     _trigger_centres := _trigger_centres o; _center := _center o;
     _animations := _animations o |}.

Definition set_currentClipDuration (v : float) (o : t) : t :=
  {| _model := _model o; _mixer := _mixer o; _currentAction := _currentAction o;
     _currentClipDuration := v;
     _trigger_centres := _trigger_centres o; _center := _center o;
     _animations := _animations o |}.

Definition set_center (v : option Vector3) (o : t) : t :=
  {| _model := _model o; _mixer := _mixer o; _currentAction := _currentAction o;
     _currentClipDuration := _currentClipDuration o;
     _trigger_centres := _trigger_centres o; _center := v;
     _animations := _animations o |}.

Definition set_animations (v : option (list AnimationClip)) (o : t) : t :=
  {| _model := _model o; _mixer := _mixer o; _currentAction := _currentAction o;
     _currentClipDuration := _currentClipDuration o;
     _trigger_centres := _trigger_centres o; _center := _center o;
     _animations := v |}.

(** [this._currentAction.f(...)] and [this._currentAction.f = v]. *)
Definition on_currentAction (f : AnimationAction -> AnimationAction) : M t unit :=
  let* self := get_this in
  let* r := member (_currentAction self) "this._currentAction is null" in
  update r f.

Section WithNames.

Variable K : AnimationNameConstants.

Definition constructor : t :=
  {| _model := None; _mixer := None; _currentAction := None;
     _currentClipDuration := 0;
     _trigger_centres :=
       Map_new [ (TOUCH K, mkVector3 70 60 65);
                 (SHOES K, mkVector3 85 55 55);
                 (HEAD K, mkVector3 75 65 60);
                 (LA K, mkVector3 65 60 75) ];
     _center := None; _animations := None |}.

Definition getPostion : M t (option Vector3) :=
  let* self := get_this in
  ret (position <$> _model self).

(** The promise of [loadCursorObjectToScene]. *)
Definition loadCursorObjectToScene (filename : string) (outcome : LoaderOutcome)
    : M t (Settlement GLTF) :=
  match outcome with
  | Loaded gltf boxCentre =>
      let* self := get_this in
      let p := position (scene gltf) in
      let model :=
        mkObject3D (mkVector3 (x p + (x p - x boxCentre))
                              (y p + (y p - y boxCentre))
                              (z p + (z p - z boxCentre))) in
      put_this (set_animations (Some (animations gltf))
                 (set_mixer (Some newMixer)
                   (set_model (Some model)
                     (set_center (Some boxCentre) self)))) ;;
      ret (Resolved (mkGLTF model (animations gltf)))
  | Failed error =>
      console_error error ;;
      ret (Rejected error)
  end.

(** [setCursorPosition(mousePos, camera, renderer)], from its last line on:
    [intersectPoint] is the point in which three.js finds the ray through
    the pointer to meet the plane. *)
Definition setCursorPosition (intersectPoint : Vector3) : M t unit :=
  let* self := get_this in
  let* model := member (_model self) "this._model.position is undefined" in
  put_this (set_model (Some (mkObject3D (multiplyScalar 2 intersectPoint))) self).

Definition _isActionPlayable : M t bool :=
  let* self := get_this in
  match _currentAction self with
  | None => ret true
  | Some r =>
      let* a := read r in
      if time a === _currentClipDuration self then
        update r reset ;;
        ret true
      else ret false
  end.

Definition playAnimation (clipName : string) : M t unit :=
  let* go :=
    if (clipName === LA K) || (clipName === SCROLL K) ||
       (clipName === CLICK K) || (clipName === TOUCH K)
    then _isActionPlayable else ret false in
  if go then
    let clipName := if clipName === TOUCH K then INDEX_FINGER K else clipName in
    let* self := get_this in
    let* found := findClip (_animations self) clipName in
    let* clip := member found "clip is null" in
    put_this (set_currentClipDuration (duration clip) self) ;;
    let* self := get_this in
    let* mixer := member (_mixer self) "this._mixer.clipAction is not a function" in
    let* made := clipAction mixer (Some clip) in
    let* self := get_this in
    put_this (set_currentAction made.1 (set_mixer (Some made.2) self)) ;;
    on_currentAction (setLoop LoopOnce) ;;
    on_currentAction (set_timeScale 1) ;;
    on_currentAction play
  else ret tt.

Definition getModelAnimation : M t string :=
  let* self := get_this in
  Map_forEach (entries (_trigger_centres self))
    (fun animation value key =>
       let* self := get_this in
       let* pos := member (position <$> _model self)
                     "this._model.position is undefined" in
       if (distanceTo pos value <=? TRIGGER_REGION_RADIUS)%float
       then ret key else ret animation)
    (NONE K).

End WithNames.

(** The current action, when there is one. *)
Definition currentAction (w : World t) : option AnimationAction :=
  r ← _currentAction (this w); heap w !! r.

(** The worlds the methods keep to: the current action, when there is one,
    is an action of the heap, and each action the mixer remembers is an
    action of the heap, made for the clip its name finds in the asset;
    [_currentClipDuration] is the duration of the clip of the current
    action; and the mixer is there when the clips are. *)
Definition wf (w : World t) : Prop :=
  current_ok (_currentAction (this w)) (heap w) /\
  mixer_ok (_mixer (this w)) (_animations (this w)) (heap w) /\
  (forall a, currentAction w = Some a ->
             _currentClipDuration (this w) = duration (_clip a)) /\
  (is_Some (_animations (this w)) -> is_Some (_mixer (this w))).

(** The asset has been loaded. *)
Definition loaded (w : World t) : Prop :=
  is_Some (_model (this w)) /\ is_Some (_mixer (this w)) /\
  is_Some (_animations (this w)).

End CursorObject.

(* ================================================================== *)
(** * home.js: the page and its handlers *)
(* ================================================================== *)

Module Home.

(** The two objects of the page. *)
Record Page : Type := mkPage {
  modelDisplayer : ModelDisplayer.t;
  cursorObject : CursorObject.t
}.

Definition modelFileName : string := "char_2.glb".
Definition cursorFileName : string := "hand.glb".

(** What a method of [modelDisplayer], and of [cursorObject], sees of the
    page: its object, and the actions and the console of the page. *)
Definition model_world (w : World Page) : World ModelDisplayer.t :=
  mkWorld (modelDisplayer (this w)) (heap w) (console w).

Definition cursor_world (w : World Page) : World CursorObject.t :=
  mkWorld (cursorObject (this w)) (heap w) (console w).

(** A call [modelDisplayer.m(...)], and a call [cursorObject.m(...)]. *)
Definition on_modelDisplayer {A : Type} (m : M ModelDisplayer.t A) : M Page A :=
  fun w =>
    let r := m (model_world w) in
    (r.1, mkWorld (mkPage (this r.2) (cursorObject (this w)))
                  (heap r.2) (console r.2)).

Definition on_cursorObject {A : Type} (m : M CursorObject.t A) : M Page A :=
  fun w =>
    let r := m (cursor_world w) in
    (r.1, mkWorld (mkPage (modelDisplayer (this w)) (this r.2))
                  (heap r.2) (console r.2)).

Section WithNames.

Variable K : AnimationNameConstants.

(** [new ModelDisplayer(...)] and [new CursorObject(...)]. *)
Definition page : Page :=
  mkPage ModelDisplayer.constructor (CursorObject.constructor K).

(** The function given to [$(document).ready]: it awaits the load of the
    character and then of the pointer proxy, and only then binds the
    handlers and starts the loop.  An [await] on a rejected promise ends
    the function there, its own promise rejected. *)
Definition ready (character hand : LoaderOutcome) : M Page (Settlement unit) :=
  let* first :=
    on_modelDisplayer (ModelDisplayer.displayModelOnWebpage modelFileName character) in
  match first with
  | Rejected e => ret (Rejected e)
  | Resolved _ =>
      let* second :=
        on_cursorObject (CursorObject.loadCursorObjectToScene cursorFileName hand) in
      match second with
      | Rejected e => ret (Rejected e)
      | Resolved _ => ret (Resolved tt)
      end
  end.

(** The handler of [mousemove], for the point in which three.js finds the
    ray through the pointer to meet the plane.  The trigger and activation
    regions the handler also asks for are not used. *)
Definition mousemove (intersectPoint : Vector3) : M Page unit :=
  on_cursorObject (CursorObject.setCursorPosition intersectPoint) ;;
  let* animationToBePlayed := on_cursorObject (CursorObject.getModelAnimation K) in
  if animationToBePlayed === NONE K then
    on_modelDisplayer ModelDisplayer.revertToOriginalPosition
  else
    on_modelDisplayer (ModelDisplayer.playAnimation animationToBePlayed) ;;
    on_cursorObject (CursorObject.playAnimation K animationToBePlayed).

(** The handlers of [click] and of [scroll]. *)
Definition click : M Page unit :=
  on_cursorObject (CursorObject.playAnimation K (CLICK K)) ;;
  let* position := on_cursorObject CursorObject.getPostion in
  console_log position.

Definition scroll : M Page unit :=
  on_cursorObject (CursorObject.playAnimation K (SCROLL K)).

End WithNames.

End Home.

(* ================================================================== *)
(** * The selector as the specification words it *)
(* ================================================================== *)

(** The pointer is within the trigger radius of a point. *)
Definition within (pos centre : Vector3) : bool :=
  (distanceTo pos centre <=? CursorObject.TRIGGER_REGION_RADIUS)%float.

(** "returning the first match found (iteration order = insertion order of
    trigger definitions) or none". *)
Definition first_match_selector (K : AnimationNameConstants)
    (centres : JS.Map string Vector3) (pos : Vector3) : string :=
  match List.find (fun kv => within pos kv.2) (entries centres) with
  | Some kv => kv.1
  | None => NONE K
  end.

(* ================================================================== *)
(** * A page to run the components on *)
(* ================================================================== *)

(** Modelled from the spec: the values of animationConstants.js, which is
    not among the sources.  The spec writes the names "HEAD", "CLICK" and
    "SCROLL" and the answer "none"; the other names are written as their
    keys.  The theorems below hold for every table of names; this one serves
    where a run needs the strings themselves. *)
Definition names : AnimationNameConstants :=
  {| NONE := "none"; TOUCH := "TOUCH"; SHOES := "SHOES"; HEAD := "HEAD";
     LA := "LA"; SCROLL := "SCROLL"; CLICK := "CLICK";
     INDEX_FINGER := "INDEX_FINGER" |}.

(** An asset for the pointer proxy, with a clip for each name its
    [playAnimation] looks for, and one for the character. *)
Definition hand_glb : GLTF :=
  {| scene := mkObject3D (mkVector3 0 0 0);
     animations := [ mkClip "LA" 2; mkClip "SCROLL" 1; mkClip "CLICK" 1;
                     mkClip "INDEX_FINGER" 3; mkClip "TOUCH" 4 ] |}.

Definition char_2_glb : GLTF :=
  {| scene := mkObject3D (mkVector3 0 0 0);
     animations := [ mkClip "TOUCH" 2; mkClip "SHOES" 2; mkClip "HEAD" 2;
                     mkClip "LA" 2 ] |}.

(** The world of a component after [new]. *)
Definition fresh {T : Type} (o : T) : World T := mkWorld o [] [].

(** The world a computation leaves, and how it ends. *)
Definition after {T A : Type} (m : M T A) (w : World T) : World T := (m w).2.
Definition outcome {T A : Type} (m : M T A) (w : World T) : Completion A := (m w).1.

(** The pointer proxy once its asset is loaded. *)
Definition cursor_loaded : World CursorObject.t :=
  after (CursorObject.loadCursorObjectToScene "hand.glb"
           (Loaded hand_glb (mkVector3 0 0 0)))
        (fresh (CursorObject.constructor names)).

(** The pointer proxy moved to twice the given point of the plane. *)
Definition cursor_at (intersectPoint : Vector3) : World CursorObject.t :=
  after (CursorObject.setCursorPosition intersectPoint) cursor_loaded.

(** The character once its asset is loaded. *)
Definition model_loaded : World ModelDisplayer.t :=
  after (ModelDisplayer.displayModelOnWebpage "char_2.glb"
           (Loaded char_2_glb (mkVector3 0 0 0)))
        (fresh ModelDisplayer.constructor).

(** The character with the clip "LA" half played: its action is at time
    0.5 of 2, running. *)
Definition model_mid_clip : World ModelDisplayer.t :=
  let w := after (ModelDisplayer.playAnimation "LA") model_loaded in
  mkWorld (this w)
          [ {| _clip := mkClip "LA" 2; loop := LoopOnce; time := 0.5;
               timeScale := 1; paused := false; enabled := true;
               clampWhenFinished := true; scheduled := true |} ]
          (console w).

(** The pointer proxy with the clip "LA" half played. *)
Definition cursor_mid_clip : World CursorObject.t :=
  let w := after (CursorObject.playAnimation names "LA") cursor_loaded in
  mkWorld (this w)
          [ {| _clip := mkClip "LA" 2; loop := LoopOnce; time := 0.5;
               timeScale := 1; paused := false; enabled := true;
               clampWhenFinished := false; scheduled := true |} ]
          (console w).

(** The pointer proxy with the clip "LA" played to its end: its action is
    at time 2, the duration of the clip. *)
Definition cursor_clip_finished : World CursorObject.t :=
  let w := after (CursorObject.playAnimation names "LA") cursor_loaded in
  mkWorld (this w)
          [ {| _clip := mkClip "LA" 2; loop := LoopOnce; time := 2;
               timeScale := 1; paused := false; enabled := true;
               clampWhenFinished := false; scheduled := true |} ]
          (console w).

(** The character right after two requests, for "HEAD" and then for
    "TOUCH", with no frame in between. *)
Definition model_two_requests : World ModelDisplayer.t :=
  after (ModelDisplayer.playAnimation "TOUCH")
        (after (ModelDisplayer.playAnimation "HEAD") model_loaded).

(** The character and the pointer proxy right after a request for "LA",
    before the next frame. *)
Definition model_just_started : World ModelDisplayer.t :=
  after (ModelDisplayer.playAnimation "LA") model_loaded.

Definition cursor_just_started : World CursorObject.t :=
  after (CursorObject.playAnimation names "LA") cursor_loaded.

(** The pointer proxy between the trigger points of TOUCH and of HEAD, at
    (73, 63, 64): on the plane of the pointer and within the radius of
    both. *)
Definition cursor_between_touch_and_head : World CursorObject.t :=
  cursor_at (mkVector3 36.5 31.5 32).

(** The pointer proxy at the trigger point of HEAD, (75, 65, 60), and far
    from every trigger point, at (100, 100, 100). *)
Definition cursor_at_head : World CursorObject.t :=
  cursor_at (mkVector3 37.5 32.5 30).

Definition cursor_far_away : World CursorObject.t :=
  cursor_at (mkVector3 50 50 50).

(** What the callback of [getModelAnimation] leaves in [animation] after
    an entry, for a pointer at [pos]. *)
Definition select_step (pos : Vector3) (animation : string)
    (entry : string * Vector3) : string :=
  if within pos entry.2 then entry.1 else animation.

(** Evaluates the tests of the selector on given points. *)
Ltac decide_within :=
  repeat match goal with
         | |- context [within ?p ?c] =>
             let b := eval vm_compute in (within p c) in
             change (within p c) with b
         end.

(** The current action as [ModelDisplayer.playAnimation] leaves it, as
    [ModelDisplayer.revertToOriginalPosition] leaves it, and as
    [CursorObject.playAnimation] leaves it. *)
Definition model_started (a : AnimationAction) : AnimationAction :=
  play (set_timeScale 1 (set_enabled true (set_paused false
    (set_clampWhenFinished true (setLoop LoopOnce a))))).

Definition model_reverted (a : AnimationAction) : AnimationAction :=
  play (setLoop LoopOnce (set_paused false
    (set_clampWhenFinished false (set_timeScale (-1) a)))).

Definition cursor_started (a : AnimationAction) : AnimationAction :=
  play (set_timeScale 1 (setLoop LoopOnce a)).

(** The current action is at the boundary where the component starts a
    clip, or there is none. *)
Definition model_at_start (w : World ModelDisplayer.t) : Prop :=
  ModelDisplayer._currentAction (this w) = None \/
  exists a, ModelDisplayer.currentAction w = Some a /\ (time a === 0%float) = true.

Definition cursor_at_end (w : World CursorObject.t) : Prop :=
  CursorObject._currentAction (this w) = None \/
  exists a, CursorObject.currentAction w = Some a /\
            (time a === CursorObject._currentClipDuration (this w)) = true.

(** The block of [ModelDisplayer.playAnimation] that starts the clip, run
    when the guards have passed. *)
Definition model_start_clip (clipName : string) : M ModelDisplayer.t unit :=
  let* self := get_this in
  let* clip := findClip (animations <$> ModelDisplayer._model self) clipName in
  let* mixer := member (ModelDisplayer._mixer self)
                  "this._mixer.clipAction is not a function" in
  let* made := clipAction mixer clip in
  put_this (ModelDisplayer.set_currentAction made.1
              (ModelDisplayer.set_mixer (Some made.2) self)) ;;
  ModelDisplayer.on_currentAction (setLoop LoopOnce) ;;
  ModelDisplayer.on_currentAction (set_clampWhenFinished true) ;;
  ModelDisplayer.on_currentAction (set_paused false) ;;
  ModelDisplayer.on_currentAction (set_enabled true) ;;
  ModelDisplayer.on_currentAction (set_timeScale 1) ;;
  ModelDisplayer.on_currentAction play.

(** The block of [CursorObject.playAnimation] that starts the clip. *)
Definition cursor_start_clip (K : AnimationNameConstants) (clipName : string)
    : M CursorObject.t unit :=
  let clipName := if clipName === TOUCH K then INDEX_FINGER K else clipName in
  let* self := get_this in
  let* found := findClip (CursorObject._animations self) clipName in
  let* clip := member found "clip is null" in
  put_this (CursorObject.set_currentClipDuration (duration clip) self) ;;
  let* self := get_this in
  let* mixer := member (CursorObject._mixer self)
                  "this._mixer.clipAction is not a function" in
  let* made := clipAction mixer (Some clip) in
  let* self := get_this in
  put_this (CursorObject.set_currentAction made.1
              (CursorObject.set_mixer (Some made.2) self)) ;;
  CursorObject.on_currentAction (setLoop LoopOnce) ;;
  CursorObject.on_currentAction (set_timeScale 1) ;;
  CursorObject.on_currentAction play.

(** The names [CursorObject.playAnimation] lets through. *)
Definition cursor_starts (K : AnimationNameConstants) (clipName : string) : bool :=
  (clipName === LA K) || (clipName === SCROLL K) ||
  (clipName === CLICK K) || (clipName === TOUCH K).

(** The pointer proxy right after a click, before the next frame. *)
Definition cursor_clicked : World CursorObject.t :=
  after (CursorObject.playAnimation names "CLICK") cursor_loaded.

(** The page once both assets are loaded and the handlers are bound. *)
Definition page_ready : World Home.Page :=
  after (Home.ready (Loaded char_2_glb (mkVector3 0 0 0))
                    (Loaded hand_glb (mkVector3 0 0 0)))
        (fresh (Home.page names)).

(** The page after the pointer has moved onto the trigger point of HEAD,
    onto that of LA, and far from all of them. *)
Definition page_on_head : World Home.Page :=
  after (Home.mousemove names (mkVector3 37.5 32.5 30)) page_ready.

Definition page_on_la : World Home.Page :=
  after (Home.mousemove names (mkVector3 32.5 30 37.5)) page_ready.

Definition page_far_away : World Home.Page :=
  after (Home.mousemove names (mkVector3 50 50 50)) page_ready.

(** The pointer proxy moved to a point whose first coordinate is not a
    number. *)
Definition cursor_nowhere : World CursorObject.t :=
  cursor_at (mkVector3 PrimFloat.nan 0 0).

(** The character with the clip "LA" played to its end, as three.js leaves
    an action that is clamped when finished: at time 2, paused. *)
Definition model_clip_finished : World ModelDisplayer.t :=
  let w := after (ModelDisplayer.playAnimation "LA") model_loaded in
  mkWorld (this w)
          [ {| _clip := mkClip "LA" 2; loop := LoopOnce; time := 2;
               timeScale := 1; paused := true; enabled := true;
               clampWhenFinished := true; scheduled := true |} ]
          (console w).

(* ================================================================== *)
(** * The actions of each component *)
(* ================================================================== *)

(** The actions a component holds a reference to: its current action and
    the actions its mixer remembers. *)
Definition model_owns (o : ModelDisplayer.t) (r : ActionRef) : Prop :=
  ModelDisplayer._currentAction o = Some r \/
  exists m k, ModelDisplayer._mixer o = Some m /\ _actionsByClip m !! k = Some r.

Definition cursor_owns (o : CursorObject.t) (r : ActionRef) : Prop :=
  CursorObject._currentAction o = Some r \/
  exists m k, CursorObject._mixer o = Some m /\ _actionsByClip m !! k = Some r.

(** [h'] has every action of [h], each for the clip it was made for. *)
Definition heap_extends (h h' : list AnimationAction) : Prop :=
  forall r a, h !! r = Some a -> exists a', h' !! r = Some a' /\ _clip a' = _clip a.

(** A call that took the actions from [h] to [h'] kept to the actions of
    its component: it wrote no action but those the component held before
    the call ([owns]), and the actions the component holds after it
    ([owns']) are among those and the ones the call has made. *)
Definition keeps_to (owns owns' : ActionRef -> Prop)
    (h h' : list AnimationAction) : Prop :=
  heap_extends h h' /\
  (forall r, r < length h -> ~ owns r -> h' !! r = h !! r) /\
  (forall r, owns' r -> owns r \/ length h <= r).

(** An action as three.js leaves it when it has run once to the end of its
    clip without being clamped: at the duration of the clip, disabled. *)
Definition finished (a : AnimationAction) : AnimationAction :=
  {| _clip := _clip a; loop := loop a; time := duration (_clip a);
     timeScale := timeScale a; paused := paused a; enabled := false;
     clampWhenFinished := clampWhenFinished a; scheduled := scheduled a |}.

(** The pointer proxy after a click and then a scroll, each clip played to
    its end. *)
Definition cursor_after_click_and_scroll : World CursorObject.t :=
  let w1 := after (CursorObject.playAnimation names "CLICK") cursor_loaded in
  let w2 := after (CursorObject.playAnimation names "SCROLL")
                  (mkWorld (this w1) (finished <$> heap w1) (console w1)) in
  mkWorld (this w2) (finished <$> heap w2) (console w2).

(** An asset of the pointer proxy that has no clip for a click. *)
Definition hand_without_click : GLTF :=
  {| scene := mkObject3D (mkVector3 0 0 0);
     animations := [ mkClip "LA" 2; mkClip "SCROLL" 1 ] |}.

(** The pointer proxy of that asset after a scroll, the clip played to its
    end. *)
Definition cursor_scrolled_without_click : World CursorObject.t :=
  let w0 := after (CursorObject.loadCursorObjectToScene "hand.glb"
                     (Loaded hand_without_click (mkVector3 0 0 0)))
                  (fresh (CursorObject.constructor names)) in
  let w1 := after (CursorObject.playAnimation names "SCROLL") w0 in
  mkWorld (this w1) (finished <$> heap w1) (console w1).

(* ================================================================== *)
(** * home.js: the events of the page *)
(* ================================================================== *)

(** The events home.js binds a handler to, once both assets are loaded. *)
Inductive Event : Type :=
| Mousemove (intersectPoint : Vector3)
| Click
| Scroll.

Definition handler (K : AnimationNameConstants) (e : Event) : M Home.Page unit :=
  match e with
  | Mousemove intersectPoint => Home.mousemove K intersectPoint
  | Click => Home.click K
  | Scroll => Home.scroll K
  end.

(** Modelled from the spec: a frame of [animate], which has each mixer
    "advance and blend active clips"; three.js is not among the sources.
    All that is taken of [mixer.update] is that it leaves the two
    components, the console, the number of the actions and the clip of
    each action as they are: the time and the flags of every action may
    change in any way. *)
Definition animate (w w' : World Home.Page) : Prop :=
  this w' = this w /\ console w' = console w /\
  length (heap w') = length (heap w) /\ heap_extends (heap w) (heap w').

(** The worlds of the page from the moment the handlers are bound: the
    world [ready] leaves when both loads succeed, and from there on any
    event and any frame, in any order. *)
Inductive reachable (K : AnimationNameConstants) (character hand : LoaderOutcome)
    : World Home.Page -> Prop :=
| reachable_ready :
    outcome (Home.ready character hand) (fresh (Home.page K)) = Normal (Resolved tt) ->
    reachable K character hand (after (Home.ready character hand) (fresh (Home.page K)))
| reachable_event (w : World Home.Page) (e : Event) :
    reachable K character hand w ->
    reachable K character hand (after (handler K e) w)
| reachable_animate (w w' : World Home.Page) :
    reachable K character hand w -> animate w w' ->
    reachable K character hand w'.

(** The worlds the page keeps to: each component is well formed, and no
    action belongs to both. *)
Definition page_wf (w : World Home.Page) : Prop :=
  ModelDisplayer.wf (Home.model_world w) /\
  CursorObject.wf (Home.cursor_world w) /\
  forall r, model_owns (Home.modelDisplayer (this w)) r ->
            cursor_owns (Home.cursorObject (this w)) r -> False.

(** Both assets are loaded: the two components have their model, their
    mixer and the clips of their asset, and the pointer proxy the trigger
    points it was made with. *)
Definition page_loaded (K : AnimationNameConstants)
    (characterClips handClips : list AnimationClip) (w : World Home.Page) : Prop :=
  animations <$> ModelDisplayer._model (Home.modelDisplayer (this w))
    = Some characterClips /\
  is_Some (ModelDisplayer._mixer (Home.modelDisplayer (this w))) /\
  is_Some (CursorObject._model (Home.cursorObject (this w))) /\
  is_Some (CursorObject._mixer (Home.cursorObject (this w))) /\
  CursorObject._animations (Home.cursorObject (this w)) = Some handClips /\
  CursorObject._trigger_centres (Home.cursorObject (this w)) =
    CursorObject._trigger_centres (CursorObject.constructor K).

(** The assets have a clip for every name the handlers may ask them for:
    the character for the names of the trigger points, the pointer proxy
    for LA, SCROLL, CLICK and INDEX_FINGER. *)
Definition assets_complete (K : AnimationNameConstants)
    (characterClips handClips : list AnimationClip) : Prop :=
  (forall clipName, clipName ∈ [TOUCH K; SHOES K; HEAD K; LA K] ->
                    is_Some (findByName characterClips clipName)) /\
  (forall clipName, clipName ∈ [LA K; SCROLL K; CLICK K; INDEX_FINGER K] ->
                    is_Some (findByName handClips clipName)).

(** An asset of the character that has no clip for the trigger point of
    HEAD, and the page of that asset once the handlers are bound. *)
Definition char_without_head : GLTF :=
  {| scene := mkObject3D (mkVector3 0 0 0);
     animations := [ mkClip "TOUCH" 2; mkClip "SHOES" 2; mkClip "LA" 2 ] |}.

Definition page_without_head : World Home.Page :=
  after (Home.ready (Loaded char_without_head (mkVector3 0 0 0))
                    (Loaded hand_glb (mkVector3 0 0 0)))
        (fresh (Home.page names)).

(* ================================================================== *)
(** * home.js: the test on the regions of the page *)
(* ================================================================== *)

(** A point of the page, [{ x, y }], and the key points of a circular
    region, [{ center, top }]. *)
Record Point : Type := mkPoint { px : float; py : float }.

Record RegionKeyPoints : Type := mkRegion { center : Point; top : Point }.

Section WithMath.

(** [Math.pow], whose results ECMAScript leaves to the implementation. *)
Variable Math_pow : float -> float -> float.

Definition euclidianDistance (p1 p2 : Point) : float :=
  PrimFloat.sqrt (Math_pow (px p1 - px p2) 2 + Math_pow (py p1 - py p2) 2).

Definition isWithinTriggerRegion (mousePosition : Point)
    (triggerRegionKeyPoints : RegionKeyPoints) : bool :=
  let radius := euclidianDistance (center triggerRegionKeyPoints)
                                  (top triggerRegionKeyPoints) in
  let distanceFromMouseToCentre :=
    euclidianDistance (center triggerRegionKeyPoints) mousePosition in
  (distanceFromMouseToCentre <=? radius)%float.

End WithMath.

(* ================================================================== *)
(** * Facts about numbers, maps and computations *)
(* ================================================================== *)

Section Numbers.

(** Comparing the other way round gives the opposite answer. *)
Lemma SFcompare_swap (a b : spec_float) :
  SFcompare b a = option_map CompOpp (SFcompare a b).
Proof.
  destruct a as [sa|sa| |sa ma ea], b as [sb|sb| |sb mb eb]; simpl;
    try reflexivity;
    try (destruct sa; reflexivity); try (destruct sb; reflexivity);
    try (destruct sa, sb; reflexivity).
  destruct sa, sb; simpl; try reflexivity;
    rewrite (Z.compare_antisym ea eb); destruct (ea ?= eb)%Z; simpl;
    try reflexivity;
    rewrite (Pos.compare_cont_antisym _ _ Eq); simpl; try reflexivity.
  f_equal. destruct (Pos.compare_cont Eq ma mb); reflexivity.
Qed.

(** [a < b] excludes [b <= a]. *)
Lemma ltb_leb_false (a b : float) :
  (a <? b)%float = true -> (b <=? a)%float = false.
Proof.
  rewrite FloatAxioms.ltb_spec, FloatAxioms.leb_spec. unfold SFltb, SFleb.
  rewrite (SFcompare_swap (Prim2SF a) (Prim2SF b)).
  destruct (SFcompare (Prim2SF a) (Prim2SF b)) as [[]|]; simpl; congruence.
Qed.

(** [a < b] excludes [a === b] and [b === a]. *)
Lemma ltb_strict_eq_false (a b : float) :
  (a <? b)%float = true -> (a === b) = false /\ (b === a) = false.
Proof.
  unfold strict_eq, number_strict_eq.
  rewrite FloatAxioms.ltb_spec, !FloatAxioms.eqb_spec. unfold SFltb, SFeqb.
  rewrite (SFcompare_swap (Prim2SF a) (Prim2SF b)).
  destruct (SFcompare (Prim2SF a) (Prim2SF b)) as [[]|]; simpl;
    intros; split; congruence.
Qed.

End Numbers.

Section Computations.

Context {T : Type}.

Lemma bind_Normal {A B : Type} (m : M T A) (k : A -> M T B) (w w' : World T) (a : A) :
  m w = (Normal a, w') -> bind m k w = k a w'.
Proof. unfold bind. intros ->. reflexivity. Qed.

Lemma bind_Throw {A B : Type} (m : M T A) (k : A -> M T B) (w w' : World T) (e : JS.Error) :
  m w = (Throw e, w') -> bind m k w = (Throw e, w').
Proof. unfold bind. intros ->. reflexivity. Qed.

Lemma read_Some (r : ActionRef) (a : AnimationAction) (w : World T) :
  heap w !! r = Some a -> read r w = (Normal a, w).
Proof. unfold read. intros ->. reflexivity. Qed.

End Computations.

(** The current action of a component is behind its reference. *)
Lemma model_currentAction_Some (w : World ModelDisplayer.t) (a : AnimationAction) :
  ModelDisplayer.currentAction w = Some a ->
  exists r, ModelDisplayer._currentAction (this w) = Some r /\ heap w !! r = Some a.
Proof.
  unfold ModelDisplayer.currentAction.
  destruct (ModelDisplayer._currentAction (this w)) as [r|]; simpl; [eauto | discriminate].
Qed.

Lemma cursor_currentAction_Some (w : World CursorObject.t) (a : AnimationAction) :
  CursorObject.currentAction w = Some a ->
  exists r, CursorObject._currentAction (this w) = Some r /\ heap w !! r = Some a.
Proof.
  unfold CursorObject.currentAction.
  destruct (CursorObject._currentAction (this w)) as [r|]; simpl; [eauto | discriminate].
Qed.

(* ================================================================== *)
(** * Playback: when a clip may start *)
(* ================================================================== *)

(** What [ModelDisplayer._isActionPlayable] answers. *)
Lemma model_isActionPlayable_null (w : World ModelDisplayer.t) :
  ModelDisplayer._currentAction (this w) = None ->
  ModelDisplayer._isActionPlayable w = (Normal true, w).
Proof.
  intros H. unfold ModelDisplayer._isActionPlayable, bind, get_this. simpl.
  rewrite H. reflexivity.
Qed.

Lemma model_isActionPlayable_action (w : World ModelDisplayer.t) (a : AnimationAction) :
  ModelDisplayer.currentAction w = Some a ->
  ModelDisplayer._isActionPlayable w = (Normal (paused a || (time a === 0%float)), w).
Proof.
  intros (r & Hr & Ha)%model_currentAction_Some.
  unfold ModelDisplayer._isActionPlayable, bind, get_this. simpl.
  rewrite Hr. simpl. rewrite (read_Some r a w Ha).
  destruct (paused a || (time a === 0%float)); reflexivity.
Qed.

(** What [CursorObject._isActionPlayable] answers, and what it does. *)
Lemma cursor_isActionPlayable_null (w : World CursorObject.t) :
  CursorObject._currentAction (this w) = None ->
  CursorObject._isActionPlayable w = (Normal true, w).
Proof.
  intros H. unfold CursorObject._isActionPlayable, bind, get_this. simpl.
  rewrite H. reflexivity.
Qed.

Lemma cursor_isActionPlayable_not_at_end (w : World CursorObject.t) (a : AnimationAction) :
  CursorObject.currentAction w = Some a ->
  (time a === CursorObject._currentClipDuration (this w)) = false ->
  CursorObject._isActionPlayable w = (Normal false, w).
Proof.
  intros (r & Hr & Ha)%cursor_currentAction_Some Ht.
  unfold CursorObject._isActionPlayable, bind, get_this. simpl.
  rewrite Hr. simpl. rewrite (read_Some r a w Ha), Ht. reflexivity.
Qed.

Lemma cursor_isActionPlayable_at_end (w : World CursorObject.t) (r : ActionRef)
    (a : AnimationAction) :
  CursorObject._currentAction (this w) = Some r ->
  heap w !! r = Some a ->
  (time a === CursorObject._currentClipDuration (this w)) = true ->
  CursorObject._isActionPlayable w =
    (Normal true, mkWorld (this w) (<[r := reset a]> (heap w)) (console w)).
Proof.
  intros Hr Ha Ht.
  unfold CursorObject._isActionPlayable, bind, get_this. simpl.
  rewrite Hr. simpl. rewrite (read_Some r a w Ha), Ht.
  unfold update. rewrite Ha. reflexivity.
Qed.

(** [ModelDisplayer.playAnimation] does nothing while the current action is
    away from time 0. *)
Lemma model_playAnimation_away_from_start (w : World ModelDisplayer.t)
    (a : AnimationAction) (clipName : string) :
  ModelDisplayer.currentAction w = Some a ->
  (time a === 0%float) = false ->
  ModelDisplayer.playAnimation clipName w = (Normal tt, w).
Proof.
  intros Hcur Ht. unfold ModelDisplayer.playAnimation.
  rewrite (bind_Normal _ _ _ _ _ (model_isActionPlayable_action w a Hcur)).
  destruct (model_currentAction_Some w a Hcur) as (r & Hr & Ha).
  rewrite Ht, orb_false_r. destruct (paused a); [|reflexivity].
  unfold bind at 1, get_this. simpl. rewrite Hr.
  unfold bind at 1. unfold bind at 1. rewrite (read_Some r a w Ha), Ht.
  reflexivity.
Qed.

(** [ModelDisplayer.revertToOriginalPosition] does nothing when there is no
    current action, when the current action is at time 0, and when it is
    not paused. *)
Lemma model_revert_null (w : World ModelDisplayer.t) :
  ModelDisplayer._currentAction (this w) = None ->
  ModelDisplayer.revertToOriginalPosition w = (Normal tt, w).
Proof.
  intros H. unfold ModelDisplayer.revertToOriginalPosition.
  rewrite (bind_Normal _ _ _ _ _ (model_isActionPlayable_null w H)).
  unfold bind at 1, get_this. simpl. rewrite H. reflexivity.
Qed.

Lemma model_revert_at_start (w : World ModelDisplayer.t) (a : AnimationAction) :
  ModelDisplayer.currentAction w = Some a ->
  (time a === 0%float) = true ->
  ModelDisplayer.revertToOriginalPosition w = (Normal tt, w).
Proof.
  intros Hcur Ht. unfold ModelDisplayer.revertToOriginalPosition.
  rewrite (bind_Normal _ _ _ _ _ (model_isActionPlayable_action w a Hcur)).
  destruct (model_currentAction_Some w a Hcur) as (r & Hr & Ha).
  rewrite Ht, orb_true_r.
  unfold bind at 1, get_this. simpl. rewrite Hr.
  unfold bind at 1. unfold bind at 1. rewrite (read_Some r a w Ha), Ht.
  reflexivity.
Qed.

Lemma model_revert_not_paused (w : World ModelDisplayer.t) (a : AnimationAction) :
  ModelDisplayer.currentAction w = Some a ->
  paused a = false ->
  ModelDisplayer.revertToOriginalPosition w = (Normal tt, w).
Proof.
  intros Hcur Hp.
  destruct (time a === 0%float) eqn:Ht; [by eapply model_revert_at_start|].
  unfold ModelDisplayer.revertToOriginalPosition.
  rewrite (bind_Normal _ _ _ _ _ (model_isActionPlayable_action w a Hcur)).
  rewrite Hp, Ht. reflexivity.
Qed.

(** [CursorObject.playAnimation] does nothing for a name it does not
    start, whatever the playback state. *)
Lemma cursor_playAnimation_other_name (K : AnimationNameConstants)
    (w : World CursorObject.t) (clipName : string) :
  ((clipName === LA K) || (clipName === SCROLL K) ||
   (clipName === CLICK K) || (clipName === TOUCH K)) = false ->
  CursorObject.playAnimation K clipName w = (Normal tt, w).
Proof.
  intros H. unfold CursorObject.playAnimation. rewrite H. reflexivity.
Qed.

(** [CursorObject.playAnimation] does nothing while the current action is
    away from the end of the clip. *)
Lemma cursor_playAnimation_away_from_end (K : AnimationNameConstants)
    (w : World CursorObject.t) (a : AnimationAction) (clipName : string) :
  CursorObject.currentAction w = Some a ->
  (time a === CursorObject._currentClipDuration (this w)) = false ->
  CursorObject.playAnimation K clipName w = (Normal tt, w).
Proof.
  intros Hcur Ht. unfold CursorObject.playAnimation.
  destruct ((clipName === LA K) || (clipName === SCROLL K) ||
            (clipName === CLICK K) || (clipName === TOUCH K)); [|reflexivity].
  rewrite (bind_Normal _ _ _ _ _ (cursor_isActionPlayable_not_at_end w a Hcur Ht)).
  reflexivity.
Qed.

(** ** C4 *)

(** C4. While the current action is at a time strictly between 0 and the
    duration of its clip, and is not paused, [playAnimation] is a no-op for
    every clip name, on the scene host and on the pointer proxy: it ends
    normally and leaves the world (the component, with its current action
    and clip duration, and every action) as it was.  For the pointer proxy
    the duration is the one it keeps in [_currentClipDuration], which in a
    well-formed world is the duration of the clip of the current action. *)
Theorem playAnimation_mid_playback_is_noop :
  (forall (w : World ModelDisplayer.t) (a : AnimationAction) (clipName : string),
      ModelDisplayer.currentAction w = Some a ->
      (0 <? time a)%float = true ->
      (time a <? duration (_clip a))%float = true ->
      paused a = false ->
      ModelDisplayer.playAnimation clipName w = (Normal tt, w)) /\
  (forall (K : AnimationNameConstants) (w : World CursorObject.t)
          (a : AnimationAction) (clipName : string),
      CursorObject.currentAction w = Some a ->
      (0 <? time a)%float = true ->
      (time a <? CursorObject._currentClipDuration (this w))%float = true ->
      paused a = false ->
      CursorObject.playAnimation K clipName w = (Normal tt, w)) /\
  (forall (K : AnimationNameConstants) (w : World CursorObject.t)
          (a : AnimationAction) (clipName : string),
      CursorObject.wf w ->
      CursorObject.currentAction w = Some a ->
      (0 <? time a)%float = true ->
      (time a <? duration (_clip a))%float = true ->
      paused a = false ->
      CursorObject.playAnimation K clipName w = (Normal tt, w)).
Proof.
  split; [|split].
  - intros w a clipName Hcur H0 _ _.
    eapply model_playAnimation_away_from_start; [exact Hcur|].
    apply (ltb_strict_eq_false 0 (time a) H0).
  - intros K w a clipName Hcur _ Hd _.
    eapply cursor_playAnimation_away_from_end; [exact Hcur|].
    apply (ltb_strict_eq_false _ _ Hd).
  - intros K w a clipName (_ & _ & Hdur & _) Hcur _ Hd _.
    eapply cursor_playAnimation_away_from_end; [exact Hcur|].
    rewrite (Hdur a Hcur). apply (ltb_strict_eq_false _ _ Hd).
Qed.

Lemma playAnimation_mid_playback_is_noop_witness :
  ModelDisplayer.playAnimation "SCROLL" model_mid_clip = (Normal tt, model_mid_clip) /\
  CursorObject.playAnimation names "SCROLL" cursor_mid_clip = (Normal tt, cursor_mid_clip).
Proof.
  split.
  - apply (proj1 playAnimation_mid_playback_is_noop model_mid_clip
             {| _clip := mkClip "LA" 2; loop := LoopOnce; time := 0.5;
                timeScale := 1; paused := false; enabled := true;
                clampWhenFinished := true; scheduled := true |});
      reflexivity.
  - apply (proj1 (proj2 playAnimation_mid_playback_is_noop) names cursor_mid_clip
             {| _clip := mkClip "LA" 2; loop := LoopOnce; time := 0.5;
                timeScale := 1; paused := false; enabled := true;
                clampWhenFinished := false; scheduled := true |});
      reflexivity.
Defined.

(** ** C5 *)

(** C5. [ModelDisplayer.revertToOriginalPosition] is a no-op when no clip
    has completed, that is when there is no current action or the current
    action is at time 0: it ends normally, starts nothing and leaves the
    world as it was. *)
Theorem revert_before_completion_is_noop (w : World ModelDisplayer.t) :
  ModelDisplayer._currentAction (this w) = None \/
  (exists a, ModelDisplayer.currentAction w = Some a /\ (time a === 0%float) = true) ->
  ModelDisplayer.revertToOriginalPosition w = (Normal tt, w).
Proof.
  intros [H | (a & Hcur & Ht)].
  - by apply model_revert_null.
  - by eapply model_revert_at_start.
Qed.

Lemma revert_before_completion_is_noop_witness :
  ModelDisplayer.revertToOriginalPosition model_loaded = (Normal tt, model_loaded) /\
  ModelDisplayer.revertToOriginalPosition
    (after (ModelDisplayer.playAnimation "HEAD") model_loaded) =
    (Normal tt, after (ModelDisplayer.playAnimation "HEAD") model_loaded).
Proof.
  split.
  - apply revert_before_completion_is_noop. left. reflexivity.
  - apply revert_before_completion_is_noop. right.
    exists {| _clip := mkClip "HEAD" 2; loop := LoopOnce; time := 0;
              timeScale := 1; paused := false; enabled := true;
              clampWhenFinished := true; scheduled := true |}.
    split; reflexivity.
Defined.

(** ** C3 *)

(** C3, as the code has it.  Each operation that starts a clip does so only
    at a boundary of the current action, and is a no-op elsewhere:
    [ModelDisplayer.playAnimation] starts a clip only when there is no
    current action or the current action is at time 0;
    [ModelDisplayer.revertToOriginalPosition] replays the current action
    backwards only when it is paused away from time 0;
    [CursorObject.playAnimation] starts a clip only when there is no
    current action or the current action is at the duration of its clip.
    Nothing is said on how many actions run at a time. *)
Theorem clips_start_only_at_a_boundary :
  (forall (w : World ModelDisplayer.t) (a : AnimationAction) (clipName : string),
      ModelDisplayer.currentAction w = Some a ->
      (time a === 0%float) = false ->
      ModelDisplayer.playAnimation clipName w = (Normal tt, w)) /\
  (forall (w : World ModelDisplayer.t) (a : AnimationAction),
      ModelDisplayer.currentAction w = Some a ->
      paused a = false \/ (time a === 0%float) = true ->
      ModelDisplayer.revertToOriginalPosition w = (Normal tt, w)) /\
  (forall (K : AnimationNameConstants) (w : World CursorObject.t)
          (a : AnimationAction) (clipName : string),
      CursorObject.currentAction w = Some a ->
      (time a === CursorObject._currentClipDuration (this w)) = false ->
      CursorObject.playAnimation K clipName w = (Normal tt, w)).
Proof.
  split; [|split].
  - intros w a clipName. apply model_playAnimation_away_from_start.
  - intros w a Hcur [Hp | Ht].
    + by eapply model_revert_not_paused.
    + by eapply model_revert_at_start.
  - intros K w a clipName. apply cursor_playAnimation_away_from_end.
Qed.

Lemma clips_start_only_at_a_boundary_witness :
  ModelDisplayer.playAnimation "HEAD" model_mid_clip = (Normal tt, model_mid_clip) /\
  ModelDisplayer.revertToOriginalPosition model_mid_clip = (Normal tt, model_mid_clip) /\
  CursorObject.playAnimation names "CLICK" cursor_mid_clip = (Normal tt, cursor_mid_clip).
Proof.
  destruct clips_start_only_at_a_boundary as (Hplay & Hrevert & Hcursor).
  split; [|split].
  - eapply Hplay; reflexivity.
  - eapply Hrevert; [reflexivity | left; reflexivity].
  - eapply Hcursor; reflexivity.
Defined.

(** C3, as the specification has it, fails: after two requests with no
    frame in between, for "HEAD" and then for "TOUCH", the mixer of the
    character runs two actions at once.  Both requests end normally; the
    first action was at time 0 when the second was admitted, and nothing
    stops it. *)
Lemma two_actions_running_after_two_requests :
  outcome (ModelDisplayer.playAnimation "HEAD") model_loaded = Normal tt /\
  outcome (ModelDisplayer.playAnimation "TOUCH")
          (after (ModelDisplayer.playAnimation "HEAD") model_loaded) = Normal tt /\
  (name <$> (_clip <$> heap model_two_requests !! 0)) = Some "HEAD" /\
  (name <$> (_clip <$> heap model_two_requests !! 1)) = Some "TOUCH" /\
  (isRunning <$> heap model_two_requests !! 0) = Some true /\
  (isRunning <$> heap model_two_requests !! 1) = Some true /\
  ((fun m => length (running m (heap model_two_requests))) <$>
     ModelDisplayer._mixer (this model_two_requests)) = Some 2.
Proof. vm_compute. repeat split; reflexivity. Qed.

(** ** C2 *)

(** C2, as the code has it.  With no current action both components admit
    a new clip.  With a current action the scene host admits one exactly
    when the action is paused or at time 0, and the pointer proxy exactly
    when the action is at the duration it keeps for the current clip; so,
    for actions with the same time and paused flag, the two answers agree
    exactly when these two conditions do.  The guard of the scene host
    leaves the world as it was; the guard of the pointer proxy, when it
    admits a clip, resets the current action (back at time 0, unpaused,
    enabled) and writes nothing else, and leaves the world as it was when
    it does not. *)
Theorem isActionPlayable_of_both_components :
  (forall wm : World ModelDisplayer.t,
      ModelDisplayer._currentAction (this wm) = None ->
      ModelDisplayer._isActionPlayable wm = (Normal true, wm)) /\
  (forall wc : World CursorObject.t,
      CursorObject._currentAction (this wc) = None ->
      CursorObject._isActionPlayable wc = (Normal true, wc)) /\
  (forall (wm : World ModelDisplayer.t) (a : AnimationAction),
      ModelDisplayer.currentAction wm = Some a ->
      outcome ModelDisplayer._isActionPlayable wm =
        Normal (paused a || (time a === 0%float))) /\
  (forall (wc : World CursorObject.t) (b : AnimationAction),
      CursorObject.currentAction wc = Some b ->
      outcome CursorObject._isActionPlayable wc =
        Normal (time b === CursorObject._currentClipDuration (this wc))) /\
  (forall (wm : World ModelDisplayer.t) (wc : World CursorObject.t)
          (a b : AnimationAction),
      ModelDisplayer.currentAction wm = Some a ->
      CursorObject.currentAction wc = Some b ->
      time a = time b -> paused a = paused b ->
      (outcome ModelDisplayer._isActionPlayable wm =
         outcome CursorObject._isActionPlayable wc <->
       (paused a || (time a === 0%float)) =
         (time a === CursorObject._currentClipDuration (this wc)))) /\
  (forall wm : World ModelDisplayer.t,
      after ModelDisplayer._isActionPlayable wm = wm) /\
  (forall (wc : World CursorObject.t) (r : ActionRef) (b : AnimationAction),
      CursorObject._currentAction (this wc) = Some r ->
      heap wc !! r = Some b ->
      CursorObject._isActionPlayable wc =
        if time b === CursorObject._currentClipDuration (this wc)
        then (Normal true,
              mkWorld (this wc) (<[r := reset b]> (heap wc)) (console wc))
        else (Normal false, wc)) /\
  (forall b : AnimationAction,
      time (reset b) = 0%float /\ paused (reset b) = false /\
      enabled (reset b) = true /\ _clip (reset b) = _clip b).
Proof.
  assert (Hm : forall (wm : World ModelDisplayer.t) (a : AnimationAction),
             ModelDisplayer.currentAction wm = Some a ->
             outcome ModelDisplayer._isActionPlayable wm =
               Normal (paused a || (time a === 0%float))).
  { intros wm a Hcur. unfold outcome.
    by rewrite (model_isActionPlayable_action wm a Hcur). }
  assert (Hc : forall (wc : World CursorObject.t) (b : AnimationAction),
             CursorObject.currentAction wc = Some b ->
             outcome CursorObject._isActionPlayable wc =
               Normal (time b === CursorObject._currentClipDuration (this wc))).
  { intros wc b Hcur. unfold outcome.
    destruct (time b === CursorObject._currentClipDuration (this wc)) eqn:Ht.
    - destruct (cursor_currentAction_Some wc b Hcur) as (r & Hr & Hb).
      by rewrite (cursor_isActionPlayable_at_end wc r b Hr Hb Ht).
    - by rewrite (cursor_isActionPlayable_not_at_end wc b Hcur Ht). }
  split; [apply model_isActionPlayable_null|].
  split; [apply cursor_isActionPlayable_null|].
  split; [exact Hm|]. split; [exact Hc|]. split; [|split; [|split]].
  - intros wm wc a b Ha Hb Htime Hpaused.
    rewrite (Hm wm a Ha), (Hc wc b Hb), <- Htime. split; congruence.
  - intros wm.
    unfold after, ModelDisplayer._isActionPlayable, bind, get_this, read.
    cbn [this].
    destruct (ModelDisplayer._currentAction (this wm)) as [r|]; [|reflexivity].
    destruct (heap wm !! r) as [a|]; [|reflexivity].
    by destruct (paused a || (time a === 0%float)).
  - intros wc r b Hr Hb.
    destruct (time b === CursorObject._currentClipDuration (this wc)) eqn:Ht.
    + by apply cursor_isActionPlayable_at_end.
    + apply (cursor_isActionPlayable_not_at_end wc b); [|done].
      unfold CursorObject.currentAction. rewrite Hr. exact Hb.
  - intros b. by repeat split.
Qed.

Lemma isActionPlayable_of_both_components_witness :
  ModelDisplayer._isActionPlayable model_loaded = (Normal true, model_loaded) /\
  CursorObject._isActionPlayable cursor_loaded = (Normal true, cursor_loaded) /\
  outcome ModelDisplayer._isActionPlayable model_mid_clip = Normal false /\
  outcome CursorObject._isActionPlayable cursor_mid_clip = Normal false /\
  after ModelDisplayer._isActionPlayable model_mid_clip = model_mid_clip /\
  CursorObject._isActionPlayable cursor_mid_clip = (Normal false, cursor_mid_clip) /\
  outcome CursorObject._isActionPlayable cursor_clip_finished = Normal true /\
  heap (after CursorObject._isActionPlayable cursor_clip_finished) =
    [ {| _clip := mkClip "LA" 2; loop := LoopOnce; time := 0;
         timeScale := 1; paused := false; enabled := true;
         clampWhenFinished := false; scheduled := true |} ].
Proof.
  destruct isActionPlayable_of_both_components
    as (Hm0 & Hc0 & Hm & Hc & _ & Hmw & Hcw & _).
  assert (Hfinished :
            CursorObject._isActionPlayable cursor_clip_finished =
              (Normal true,
               mkWorld (this cursor_clip_finished)
                 [ {| _clip := mkClip "LA" 2; loop := LoopOnce; time := 0;
                      timeScale := 1; paused := false; enabled := true;
                      clampWhenFinished := false; scheduled := true |} ]
                 (console cursor_clip_finished))).
  { apply (Hcw cursor_clip_finished 0
             {| _clip := mkClip "LA" 2; loop := LoopOnce; time := 2;
                timeScale := 1; paused := false; enabled := true;
                clampWhenFinished := false; scheduled := true |});
      reflexivity. }
  split; [apply Hm0; reflexivity|].
  split; [apply Hc0; reflexivity|].
  split.
  { apply (Hm model_mid_clip
             {| _clip := mkClip "LA" 2; loop := LoopOnce; time := 0.5;
                timeScale := 1; paused := false; enabled := true;
                clampWhenFinished := true; scheduled := true |}).
    reflexivity. }
  split.
  { apply (Hc cursor_mid_clip
             {| _clip := mkClip "LA" 2; loop := LoopOnce; time := 0.5;
                timeScale := 1; paused := false; enabled := true;
                clampWhenFinished := false; scheduled := true |}).
    reflexivity. }
  split; [apply Hmw|].
  split.
  { apply (Hcw cursor_mid_clip 0
             {| _clip := mkClip "LA" 2; loop := LoopOnce; time := 0.5;
                timeScale := 1; paused := false; enabled := true;
                clampWhenFinished := false; scheduled := true |});
      reflexivity. }
  split; [unfold outcome; by rewrite Hfinished|].
  unfold after. by rewrite Hfinished.
Defined.

(** C2, as the specification has it, fails: right after a request for
    "LA" the two components show the same playback state (an action for a
    clip of duration 2, at time 0, not paused), and the scene host would
    admit a new clip while the pointer proxy would not. *)
Lemma isActionPlayable_answers_differ :
  (time <$> ModelDisplayer.currentAction model_just_started) = Some 0%float /\
  (time <$> CursorObject.currentAction cursor_just_started) = Some 0%float /\
  (paused <$> ModelDisplayer.currentAction model_just_started) = Some false /\
  (paused <$> CursorObject.currentAction cursor_just_started) = Some false /\
  (_clip <$> ModelDisplayer.currentAction model_just_started) = Some (mkClip "LA" 2) /\
  (_clip <$> CursorObject.currentAction cursor_just_started) = Some (mkClip "LA" 2) /\
  CursorObject._currentClipDuration (this cursor_just_started) = 2%float /\
  outcome ModelDisplayer._isActionPlayable model_just_started = Normal true /\
  outcome CursorObject._isActionPlayable cursor_just_started = Normal false.
Proof. vm_compute. repeat split; reflexivity. Qed.

(* ================================================================== *)
(** * The animation selector *)
(* ================================================================== *)

(** [forEach] with a callback that, in the world [w], only computes the
    new value of the locals: it runs through all the entries and leaves the
    world as it was. *)
Lemma forEach_reads {T V L : Type} (w : World T)
    (callback : L -> V -> string -> M T L)
    (step : L -> string * V -> L) (l : list (string * V)) (locals : L) :
  (forall locals value key,
      callback locals value key w = (Normal (step locals (key, value)), w)) ->
  Map_forEach l callback locals w =
    (Normal (fold_left step l locals), w).
Proof.
  intros Hcallback. revert locals.
  induction l as [|[key value] rest IH]; intros locals; [reflexivity|].
  cbn [Map_forEach fold_left].
  rewrite (bind_Normal _ _ _ _ _ (Hcallback locals value key)). apply IH.
Qed.

(** [forEach] with a callback that throws in the world [w]: it throws at
    the first entry, if there is one. *)
Lemma forEach_throws {T V L : Type} (w : World T)
    (callback : L -> V -> string -> M T L)
    (e : JS.Error) (l : list (string * V)) (locals : L) :
  (forall locals value key, callback locals value key w = (Throw e, w)) ->
  Map_forEach l callback locals w =
    (match l with [] => Normal locals | _ :: _ => Throw e end, w).
Proof.
  intros Hcallback. destruct l as [|[key value] rest]; [reflexivity|].
  cbn [Map_forEach].
  by rewrite (bind_Throw _ _ _ _ _ (Hcallback locals value key)).
Qed.

(** [getModelAnimation] with the model loaded, and before. *)
Lemma getModelAnimation_loaded (K : AnimationNameConstants) (pos : Vector3)
    (w : World CursorObject.t) :
  position <$> CursorObject._model (this w) = Some pos ->
  CursorObject.getModelAnimation K w =
    (Normal (fold_left (select_step pos)
               (entries (CursorObject._trigger_centres (this w))) (NONE K)), w).
Proof.
  intros Hpos. unfold CursorObject.getModelAnimation, bind at 1, get_this.
  apply forEach_reads. intros animation value key.
  unfold bind, get_this. cbn [this]. rewrite Hpos. cbn [member]. unfold ret at 1.
  unfold select_step, within. cbn [fst snd].
  by destruct (distanceTo pos value <=? CursorObject.TRIGGER_REGION_RADIUS)%float.
Qed.

Lemma getModelAnimation_not_loaded (K : AnimationNameConstants)
    (w : World CursorObject.t) :
  position <$> CursorObject._model (this w) = None ->
  CursorObject.getModelAnimation K w =
    (match entries (CursorObject._trigger_centres (this w)) with
     | [] => Normal (NONE K)
     | _ :: _ => Throw (TypeError "this._model.position is undefined")
     end, w).
Proof.
  intros Hpos. unfold CursorObject.getModelAnimation, bind at 1, get_this.
  apply forEach_throws. intros animation value key.
  unfold bind, get_this. cbn [this]. by rewrite Hpos.
Qed.

(** The selection: entries out of reach change nothing, and the last entry
    in reach decides. *)
Lemma select_none_within (pos : Vector3) (l : list (string * Vector3))
    (animation : string) :
  (forall key centre, (key, centre) ∈ l -> within pos centre = false) ->
  fold_left (select_step pos) l animation = animation.
Proof.
  revert animation. induction l as [|[key centre] rest IH]; intros animation Hfar;
    [reflexivity|].
  cbn [fold_left]. unfold select_step at 2. cbn [fst snd].
  rewrite (Hfar key centre) by apply list_elem_of_here.
  apply IH. intros k c Hin. apply (Hfar k c). by apply list_elem_of_further.
Qed.

Lemma select_last_within (pos : Vector3) (before after : list (string * Vector3))
    (key : string) (centre : Vector3) (animation : string) :
  within pos centre = true ->
  (forall k c, (k, c) ∈ after -> within pos c = false) ->
  fold_left (select_step pos) (before ++ (key, centre) :: after) animation = key.
Proof.
  intros Hin Hfar. rewrite fold_left_app. cbn [fold_left].
  unfold select_step at 2. cbn [fst snd]. rewrite Hin.
  by apply select_none_within.
Qed.


(** ** C1 *)

(** C1, as the code has it.  With the model loaded, for every position of
    the pointer proxy, [getModelAnimation] ends normally, leaves the world
    as it was, and answers by the Euclidean distance of the position to the
    trigger points against the radius, in the order of insertion: NONE
    when no trigger point is within the radius, and otherwise the name of
    the last trigger point that is within it. *)
Theorem getModelAnimation_returns_last_match (K : AnimationNameConstants)
    (w : World CursorObject.t) (pos : Vector3) :
  position <$> CursorObject._model (this w) = Some pos ->
  exists animation,
    CursorObject.getModelAnimation K w = (Normal animation, w) /\
    ((forall key centre,
         (key, centre) ∈ entries (CursorObject._trigger_centres (this w)) ->
         within pos centre = false) ->
     animation = NONE K) /\
    (forall before key centre after,
        entries (CursorObject._trigger_centres (this w)) =
          before ++ (key, centre) :: after ->
        within pos centre = true ->
        (forall k c, (k, c) ∈ after -> within pos c = false) ->
        animation = key).
Proof.
  intros Hpos. eexists. split; [by apply getModelAnimation_loaded|]. split.
  - apply select_none_within.
  - intros before key centre after -> Hin Hfar. by apply select_last_within.
Qed.

Lemma getModelAnimation_returns_last_match_witness :
  exists animation,
    CursorObject.getModelAnimation names cursor_between_touch_and_head =
      (Normal animation, cursor_between_touch_and_head) /\
    ((forall key centre,
         (key, centre) ∈ entries (CursorObject._trigger_centres
                                    (this cursor_between_touch_and_head)) ->
         within (mkVector3 73 63 64) centre = false) ->
     animation = NONE names) /\
    (forall before key centre after,
        entries (CursorObject._trigger_centres
                   (this cursor_between_touch_and_head)) =
          before ++ (key, centre) :: after ->
        within (mkVector3 73 63 64) centre = true ->
        (forall k c, (k, c) ∈ after -> within (mkVector3 73 63 64) c = false) ->
        animation = key).
Proof.
  apply (getModelAnimation_returns_last_match names
           cursor_between_touch_and_head (mkVector3 73 63 64)).
  reflexivity.
Defined.

(** C1, as the specification has it, fails: at (73, 63, 64) the pointer
    proxy is within the radius of the trigger points of TOUCH and of HEAD;
    the first match in the order of insertion is TOUCH, and
    [getModelAnimation] answers HEAD. *)
Lemma getModelAnimation_is_not_first_match :
  (position <$> CursorObject._model (this cursor_between_touch_and_head)) =
    Some (mkVector3 73 63 64) /\
  within (mkVector3 73 63 64) (mkVector3 70 60 65) = true /\
  within (mkVector3 73 63 64) (mkVector3 75 65 60) = true /\
  first_match_selector names
    (CursorObject._trigger_centres (this cursor_between_touch_and_head))
    (mkVector3 73 63 64) = TOUCH names /\
  outcome (CursorObject.getModelAnimation names) cursor_between_touch_and_head =
    Normal (HEAD names) /\
  String.eqb (TOUCH names) (HEAD names) = false.
Proof. vm_compute. repeat split; reflexivity. Qed.

(** ** C6 *)

(** C6. With the model loaded, for every position of the pointer proxy
    whose Euclidean distance to each trigger point is strictly greater than
    the trigger radius, [getModelAnimation] answers NONE. *)
Theorem getModelAnimation_far_from_every_trigger (K : AnimationNameConstants)
    (w : World CursorObject.t) (pos : Vector3) :
  position <$> CursorObject._model (this w) = Some pos ->
  (forall key centre,
      (key, centre) ∈ entries (CursorObject._trigger_centres (this w)) ->
      (CursorObject.TRIGGER_REGION_RADIUS <? distanceTo pos centre)%float = true) ->
  CursorObject.getModelAnimation K w = (Normal (NONE K), w).
Proof.
  intros Hpos Hfar. rewrite (getModelAnimation_loaded K pos w Hpos).
  rewrite select_none_within; [reflexivity|].
  intros key centre Hin. unfold within. apply ltb_leb_false. by eapply Hfar.
Qed.

Lemma getModelAnimation_far_from_every_trigger_witness :
  CursorObject.getModelAnimation names cursor_far_away =
    (Normal (NONE names), cursor_far_away).
Proof.
  apply (getModelAnimation_far_from_every_trigger names cursor_far_away
           (mkVector3 100 100 100)); [reflexivity|].
  intros key centre Hin.
  repeat (apply elem_of_cons in Hin as [Heq | Hin];
          [inversion Heq; reflexivity|]).
  by apply elem_of_nil in Hin.
Defined.

(** [getModelAnimation] leaves the world as it was. *)
Lemma getModelAnimation_world_unchanged (K : AnimationNameConstants)
    (w : World CursorObject.t) :
  after (CursorObject.getModelAnimation K) w = w /\
  exists result, CursorObject.getModelAnimation K w = (result, w).
Proof.
  unfold after.
  destruct (position <$> CursorObject._model (this w)) as [pos|] eqn:Hpos.
  - rewrite (getModelAnimation_loaded K pos w Hpos). eauto.
  - rewrite (getModelAnimation_not_loaded K w Hpos). eauto.
Qed.

(** ** C10 *)

(** C10. [getModelAnimation] is a query: in every world, loaded or not, it
    leaves the world (the position of the pointer proxy, the trigger
    points, the current action and everything else) as it was, and a second
    call in the world it leaves ends as the first did, with the same
    name. *)
Theorem getModelAnimation_is_a_pure_query (K : AnimationNameConstants)
    (w : World CursorObject.t) :
  after (CursorObject.getModelAnimation K) w = w /\
  outcome (CursorObject.getModelAnimation K)
          (after (CursorObject.getModelAnimation K) w) =
    outcome (CursorObject.getModelAnimation K) w.
Proof.
  pose proof (proj1 (getModelAnimation_world_unchanged K w)) as Hafter.
  split; [exact Hafter | by rewrite Hafter].
Qed.

(** ** C7 *)

(** The trigger points the constructor defines, when their names differ. *)
Lemma constructor_trigger_centres (K : AnimationNameConstants) :
  trigger_names_distinct K ->
  entries (CursorObject._trigger_centres (CursorObject.constructor K)) =
    [ (TOUCH K, mkVector3 70 60 65); (SHOES K, mkVector3 85 55 55);
      (HEAD K, mkVector3 75 65 60); (LA K, mkVector3 65 60 75) ].
Proof.
  unfold trigger_names_distinct.
  rewrite !NoDup_cons, !not_elem_of_cons.
  intros ((Hts & Hth & Htl & _) & (Hsh & Hsl & _) & (Hhl & _) & _).
  cbn. repeat (rewrite !(proj2 (String.eqb_neq _ _)) by assumption; cbn).
  reflexivity.
Qed.

(** C7. With the trigger points of the constructor, their four names being
    different, and the model loaded: when the position of the pointer proxy
    is the coordinate of a trigger point, [getModelAnimation] answers the
    name of that trigger point; in particular at (75, 65, 60) it answers
    HEAD, and at (100, 100, 100) it answers NONE. *)
Theorem getModelAnimation_at_a_trigger_point (K : AnimationNameConstants)
    (w : World CursorObject.t) :
  trigger_names_distinct K ->
  CursorObject._trigger_centres (this w) =
    CursorObject._trigger_centres (CursorObject.constructor K) ->
  (forall key centre,
      (key, centre) ∈ entries (CursorObject._trigger_centres (this w)) ->
      position <$> CursorObject._model (this w) = Some centre ->
      CursorObject.getModelAnimation K w = (Normal key, w)) /\
  (position <$> CursorObject._model (this w) = Some (mkVector3 75 65 60) ->
   CursorObject.getModelAnimation K w = (Normal (HEAD K), w)) /\
  (position <$> CursorObject._model (this w) = Some (mkVector3 100 100 100) ->
   CursorObject.getModelAnimation K w = (Normal (NONE K), w)).
Proof.
  intros Hnames Hmap.
  pose proof (constructor_trigger_centres K Hnames) as Hentries.
  rewrite <- Hmap in Hentries.
  assert (Hrun : forall pos,
             position <$> CursorObject._model (this w) = Some pos ->
             CursorObject.getModelAnimation K w =
               (Normal (fold_left (select_step pos)
                          [ (TOUCH K, mkVector3 70 60 65);
                            (SHOES K, mkVector3 85 55 55);
                            (HEAD K, mkVector3 75 65 60);
                            (LA K, mkVector3 65 60 75) ] (NONE K)), w)).
  { intros pos Hpos. rewrite (getModelAnimation_loaded K pos w Hpos).
    by rewrite Hentries. }
  split; [|split].
  - intros key centre Hin Hpos. rewrite (Hrun centre Hpos).
    rewrite Hentries in Hin.
    repeat (apply elem_of_cons in Hin as [Heq | Hin];
            [inversion Heq; subst key centre; cbn [fold_left];
             unfold select_step; cbn [fst snd]; decide_within; reflexivity|]).
    by apply elem_of_nil in Hin.
  - intros Hpos. rewrite (Hrun _ Hpos). cbn [fold_left].
    unfold select_step; cbn [fst snd]; decide_within; reflexivity.
  - intros Hpos. rewrite (Hrun _ Hpos). cbn [fold_left].
    unfold select_step; cbn [fst snd]; decide_within; reflexivity.
Qed.

Lemma getModelAnimation_at_a_trigger_point_witness :
  CursorObject.getModelAnimation names cursor_at_head =
    (Normal "HEAD", cursor_at_head) /\
  CursorObject.getModelAnimation names cursor_far_away =
    (Normal "none", cursor_far_away).
Proof.
  assert (Hnames : trigger_names_distinct names).
  { unfold trigger_names_distinct.
    rewrite !NoDup_cons, !not_elem_of_cons.
    repeat split; try discriminate; try apply not_elem_of_nil; apply NoDup_nil_2. }
  split.
  - apply (proj1 (proj2 (getModelAnimation_at_a_trigger_point names
                           cursor_at_head Hnames eq_refl))).
    reflexivity.
  - apply (proj2 (proj2 (getModelAnimation_at_a_trigger_point names
                           cursor_far_away Hnames eq_refl))).
    reflexivity.
Defined.

(* ================================================================== *)
(** * Starting a clip *)
(* ================================================================== *)

Section Heap.

Context {T : Type}.

(** An update of the object a world has just written. *)
Lemma update_focus (o : T) (h : list AnimationAction) (c : list ConsoleLine)
    (r : ActionRef) (x : AnimationAction) (f : AnimationAction -> AnimationAction) :
  r < length h ->
  update r f (mkWorld o (<[r := x]> h) c) = (Normal tt, mkWorld o (<[r := f x]> h) c).
Proof.
  intros Hr. unfold update. cbn [heap this console].
  rewrite list_lookup_insert_eq by done. by rewrite list_insert_insert_eq.
Qed.

(** Writing the object a world has just allocated. *)
Lemma insert_last (h : list AnimationAction) (x y : AnimationAction) :
  <[length h := y]> (h ++ [x]) = h ++ [y].
Proof. induction h as [|a h IH]; [reflexivity|]. cbn. f_equal. exact IH. Qed.

End Heap.

(** A clip that [findByName] finds has the name it was asked for. *)
Lemma findByName_name (l : list AnimationClip) (clipName : string)
    (clip : AnimationClip) :
  findByName l clipName = Some clip -> name clip = clipName.
Proof.
  induction l as [|c l IH]; [discriminate|]. cbn [findByName].
  destruct (name c === clipName) eqn:Heq; [|exact IH].
  intros [= <-]. by apply String.eqb_eq.
Qed.

(** ** On the scene host *)

Lemma model_on_currentAction_focus (o : ModelDisplayer.t) (h : list AnimationAction)
    (c : list ConsoleLine) (r : ActionRef) (x : AnimationAction)
    (f : AnimationAction -> AnimationAction) :
  ModelDisplayer._currentAction o = Some r -> r < length h ->
  ModelDisplayer.on_currentAction f (mkWorld o (<[r := x]> h) c) =
    (Normal tt, mkWorld o (<[r := f x]> h) c).
Proof.
  intros Hcur Hr. unfold ModelDisplayer.on_currentAction, bind, get_this.
  cbn [this]. rewrite Hcur. cbn [member]. unfold ret. by apply update_focus.
Qed.

(** Once the guards have passed, [playAnimation] runs its inner block. *)
Lemma model_playAnimation_at_start (w : World ModelDisplayer.t) (clipName : string) :
  model_at_start w ->
  ModelDisplayer.playAnimation clipName w = model_start_clip clipName w.
Proof.
  intros [Hnull | (a & Hcur & Ht)]; unfold ModelDisplayer.playAnimation.
  - rewrite (bind_Normal _ _ _ _ _ (model_isActionPlayable_null w Hnull)).
    unfold model_start_clip, bind at 1, get_this. cbn [this].
    rewrite Hnull. reflexivity.
  - rewrite (bind_Normal _ _ _ _ _ (model_isActionPlayable_action w a Hcur)).
    destruct (model_currentAction_Some w a Hcur) as (r & Hr & Ha).
    rewrite Ht, orb_true_r.
    unfold model_start_clip, bind at 1, get_this. cbn [this].
    rewrite Hr. unfold bind at 1. unfold bind at 1.
    rewrite (read_Some r a w Ha), Ht. reflexivity.
Qed.

(** Elsewhere it does nothing. *)
Lemma model_playAnimation_not_at_start (w : World ModelDisplayer.t)
    (clipName : string) :
  ModelDisplayer.wf w -> ~ model_at_start w ->
  ModelDisplayer.playAnimation clipName w = (Normal tt, w).
Proof.
  intros (Hcur & _) Hnot.
  destruct (ModelDisplayer._currentAction (this w)) as [r|] eqn:Hr;
    [|by destruct Hnot; left].
  destruct (Hcur r eq_refl) as [a Ha].
  assert (Hact : ModelDisplayer.currentAction w = Some a).
  { unfold ModelDisplayer.currentAction. by rewrite Hr. }
  apply (model_playAnimation_away_from_start w a clipName Hact).
  destruct (time a === 0%float) eqn:Ht; [|reflexivity].
  destruct Hnot. right. eauto.
Qed.

(** The six calls on the current action. *)
Lemma model_start_calls (o : ModelDisplayer.t) (h : list AnimationAction)
    (c : list ConsoleLine) (r : ActionRef) (x : AnimationAction) :
  ModelDisplayer._currentAction o = Some r -> r < length h ->
  (ModelDisplayer.on_currentAction (setLoop LoopOnce) ;;
   ModelDisplayer.on_currentAction (set_clampWhenFinished true) ;;
   ModelDisplayer.on_currentAction (set_paused false) ;;
   ModelDisplayer.on_currentAction (set_enabled true) ;;
   ModelDisplayer.on_currentAction (set_timeScale 1) ;;
   ModelDisplayer.on_currentAction play) (mkWorld o (<[r := x]> h) c) =
  (Normal tt, mkWorld o (<[r := model_started x]> h) c).
Proof.
  intros Hcur Hr.
  do 5 (erewrite bind_Normal by (by apply model_on_currentAction_focus)).
  unfold model_started. by apply model_on_currentAction_focus.
Qed.

(** Before the asset is loaded the block throws. *)
Lemma model_start_clip_not_loaded (w : World ModelDisplayer.t) (clipName : string) :
  ~ ModelDisplayer.loaded w ->
  exists message, model_start_clip clipName w = (Throw (TypeError message), w).
Proof.
  intros Hnot. unfold model_start_clip, bind at 1, get_this. cbn [this].
  unfold bind at 1, findClip, bind at 1.
  destruct (ModelDisplayer._model (this w)) as [gltf|] eqn:Hmodel;
    [|by eexists].
  cbn [fmap option_fmap option_map member]. unfold ret at 1. unfold ret at 1.
  unfold bind at 1.
  destruct (ModelDisplayer._mixer (this w)) as [m|] eqn:Hmixer; [|by eexists].
  destruct Hnot. unfold ModelDisplayer.loaded. rewrite Hmodel, Hmixer. eauto.
Qed.

(** For a name the asset has no clip of, the block forgets the current
    action and throws. *)
Lemma model_start_clip_missing (w : World ModelDisplayer.t) (gltf : GLTF)
    (m : AnimationMixer) (clipName : string) :
  ModelDisplayer._model (this w) = Some gltf ->
  ModelDisplayer._mixer (this w) = Some m ->
  findByName (animations gltf) clipName = None ->
  model_start_clip clipName w =
    (Throw (TypeError "this._currentAction is null"),
     mkWorld (ModelDisplayer.set_currentAction None
                (ModelDisplayer.set_mixer (Some m) (this w)))
             (heap w) (console w)).
Proof.
  intros Hmodel Hmixer Hclip.
  unfold model_start_clip. unfold bind at 1, get_this. cbn [this].
  unfold bind at 1, findClip, bind at 1. rewrite Hmodel.
  cbn [fmap option_fmap option_map member]. unfold ret at 1. unfold ret at 1.
  rewrite Hclip. unfold bind at 1. rewrite Hmixer. reflexivity.
Qed.

(** For a clip the mixer has an action for, the block takes that action. *)
Lemma model_start_clip_cached (w : World ModelDisplayer.t) (gltf : GLTF)
    (m : AnimationMixer) (clipName : string) (clip : AnimationClip)
    (r : ActionRef) (a : AnimationAction) :
  ModelDisplayer._model (this w) = Some gltf ->
  ModelDisplayer._mixer (this w) = Some m ->
  findByName (animations gltf) clipName = Some clip ->
  _actionsByClip m !! name clip = Some r ->
  heap w !! r = Some a ->
  model_start_clip clipName w =
    (Normal tt,
     mkWorld (ModelDisplayer.set_currentAction (Some r)
                (ModelDisplayer.set_mixer (Some m) (this w)))
             (<[r := model_started a]> (heap w)) (console w)).
Proof.
  intros Hmodel Hmixer Hclip Hcached Ha.
  unfold model_start_clip. unfold bind at 1, get_this. cbn [this].
  unfold bind at 1, findClip, bind at 1. rewrite Hmodel.
  cbn [fmap option_fmap option_map member]. unfold ret at 1. unfold ret at 1.
  rewrite Hclip. unfold bind at 1. rewrite Hmixer. cbn [member]. unfold ret at 1.
  unfold bind at 1, clipAction. rewrite Hcached. unfold ret at 1. cbn [fst snd].
  unfold bind at 1, put_this. cbn [this heap console].
  rewrite <- (list_insert_id (heap w) r a Ha) at 1.
  apply model_start_calls; [reflexivity|]. by eapply lookup_lt_Some.
Qed.

(** For a clip the mixer has not seen, the block makes a new action. *)
Lemma model_start_clip_new (w : World ModelDisplayer.t) (gltf : GLTF)
    (m : AnimationMixer) (clipName : string) (clip : AnimationClip) :
  ModelDisplayer._model (this w) = Some gltf ->
  ModelDisplayer._mixer (this w) = Some m ->
  findByName (animations gltf) clipName = Some clip ->
  _actionsByClip m !! name clip = None ->
  model_start_clip clipName w =
    (Normal tt,
     mkWorld (ModelDisplayer.set_currentAction (Some (length (heap w)))
                (ModelDisplayer.set_mixer
                   (Some (mkMixer (<[name clip := length (heap w)]> (_actionsByClip m))))
                   (this w)))
             (heap w ++ [model_started (newAction clip)]) (console w)).
Proof.
  intros Hmodel Hmixer Hclip Hnew.
  unfold model_start_clip. unfold bind at 1, get_this. cbn [this].
  unfold bind at 1, findClip, bind at 1. rewrite Hmodel.
  cbn [fmap option_fmap option_map member]. unfold ret at 1. unfold ret at 1.
  rewrite Hclip. unfold bind at 1. rewrite Hmixer. cbn [member]. unfold ret at 1.
  unfold bind at 1, clipAction. rewrite Hnew. unfold bind at 1, alloc.
  unfold ret at 1. cbn [fst snd this heap console].
  unfold bind at 1, put_this. cbn [this heap console].
  pose proof (model_start_calls
                (ModelDisplayer.set_currentAction (Some (length (heap w)))
                   (ModelDisplayer.set_mixer
                      (Some (mkMixer (<[name clip := length (heap w)]>
                                        (_actionsByClip m))))
                      (this w)))
                (heap w ++ [newAction clip]) (console w) (length (heap w))
                (newAction clip) eq_refl) as Hcalls.
  rewrite !insert_last in Hcalls. apply Hcalls. rewrite length_app. cbn. lia.
Qed.

(** Reverting, where the guards pass: the current action is paused away
    from time 0. *)
Lemma model_revert_at_end (w : World ModelDisplayer.t) (r : ActionRef)
    (a : AnimationAction) :
  ModelDisplayer._currentAction (this w) = Some r ->
  heap w !! r = Some a ->
  paused a = true -> (time a === 0%float) = false ->
  ModelDisplayer.revertToOriginalPosition w =
    (Normal tt, mkWorld (this w) (<[r := model_reverted a]> (heap w)) (console w)).
Proof.
  intros Hr Ha Hp Ht.
  assert (Hcur : ModelDisplayer.currentAction w = Some a).
  { unfold ModelDisplayer.currentAction. by rewrite Hr. }
  unfold ModelDisplayer.revertToOriginalPosition.
  rewrite (bind_Normal _ _ _ _ _ (model_isActionPlayable_action w a Hcur)).
  rewrite Hp. cbn [orb].
  unfold bind at 1, get_this. cbn [this]. rewrite Hr.
  unfold bind at 1. unfold bind at 1. rewrite (read_Some r a w Ha), Ht.
  unfold ret at 1.
  assert (Hlt : r < length (heap w)) by (by eapply lookup_lt_Some).
  destruct w as [o h c]. cbn [this heap console] in *.
  rewrite <- (list_insert_id h r a Ha) at 1.
  do 4 (erewrite bind_Normal by (by apply model_on_currentAction_focus)).
  unfold model_reverted. by apply model_on_currentAction_focus.
Qed.

(* ================================================================== *)
(** * The worlds the methods keep to *)
(* ================================================================== *)

Section WellFormed.

Implicit Types (h : list AnimationAction) (current : option ActionRef).

Lemma current_ok_insert current h (r : ActionRef) (x : AnimationAction) :
  current_ok current h -> current_ok current (<[r := x]> h).
Proof.
  intros Hok r' Hr'. apply list_lookup_insert_is_Some. by apply Hok.
Qed.

Lemma mixer_ok_insert (mixer : option AnimationMixer)
    (clips : option (list AnimationClip)) h (r : ActionRef)
    (a x : AnimationAction) :
  mixer_ok mixer clips h -> h !! r = Some a -> _clip x = _clip a ->
  mixer_ok mixer clips (<[r := x]> h).
Proof.
  intros Hok Ha Hclip m k r' Hm Hk.
  destruct (Hok m k r' Hm Hk) as (a' & l & Ha' & Hl & Hfind).
  destruct (decide (r = r')) as [<- | Hne].
  - exists x, l. rewrite list_lookup_insert_eq by (by eapply lookup_lt_Some).
    rewrite Hclip. by simplify_eq.
  - exists a', l. by rewrite list_lookup_insert_ne.
Qed.

Lemma mixer_ok_new (m : AnimationMixer) (l : list AnimationClip) h
    (clip : AnimationClip) (x : AnimationAction) :
  mixer_ok (Some m) (Some l) h ->
  findByName l (name clip) = Some clip -> _clip x = clip ->
  mixer_ok (Some (mkMixer (<[name clip := length h]> (_actionsByClip m))))
           (Some l) (h ++ [x]).
Proof.
  intros Hok Hfind Hclip m' k r [= <-]. cbn [_actionsByClip].
  destruct (decide (name clip = k)) as [<- | Hne].
  - rewrite lookup_insert_eq. intros [= <-]. exists x, l.
    by rewrite list_lookup_middle, Hclip.
  - rewrite lookup_insert_ne by done. intros Hk.
    destruct (Hok m k r eq_refl Hk) as (a & l' & Ha & Hl & Hfind').
    exists a, l'. rewrite lookup_app_l by (by eapply lookup_lt_Some). done.
Qed.

Lemma mixer_ok_newMixer (clips : option (list AnimationClip)) h :
  mixer_ok (Some newMixer) clips h.
Proof. intros m k r [= <-]. cbn. by rewrite lookup_empty. Qed.

End WellFormed.

(** [ModelDisplayer._isActionPlayable] changes nothing. *)
Lemma model_isActionPlayable_after (w : World ModelDisplayer.t) :
  after ModelDisplayer._isActionPlayable w = w.
Proof.
  unfold after, ModelDisplayer._isActionPlayable, bind, get_this, read.
  cbn [this].
  destruct (ModelDisplayer._currentAction (this w)) as [r|]; [|reflexivity].
  destruct (heap w !! r) as [a|]; [|reflexivity].
  by destruct (paused a || (time a === 0%float)).
Qed.

(** The world [new ModelDisplayer(...)] gives is well formed, and every
    method of the scene host keeps a well-formed world well formed,
    whether it ends normally or throws. *)
Lemma model_wf_constructor : ModelDisplayer.wf (fresh ModelDisplayer.constructor).
Proof. split; [intros r [=] | intros m k r [=]]. Qed.

Lemma model_wf_playAnimation (w : World ModelDisplayer.t) (clipName : string) :
  ModelDisplayer.wf w -> ModelDisplayer.wf (after (ModelDisplayer.playAnimation clipName) w).
Proof.
  intros Hwf. pose proof Hwf as (Hcur & Hmix). unfold after.
  assert (Hcases : model_at_start w \/ ~ model_at_start w).
  { destruct (ModelDisplayer._currentAction (this w)) as [r|] eqn:Hr;
      [|by left; left].
    destruct (Hcur r eq_refl) as [a Ha].
    assert (Hact : ModelDisplayer.currentAction w = Some a).
    { unfold ModelDisplayer.currentAction. by rewrite Hr. }
    destruct (time a === 0%float) eqn:Ht.
    - left. right. eauto.
    - right. intros [Hnull | (a' & Hact' & Ht')]; [congruence|].
      rewrite Hact in Hact'. simplify_eq. congruence. }
  destruct Hcases as [Hstart | Hnot];
    [|by rewrite model_playAnimation_not_at_start].
  rewrite (model_playAnimation_at_start w clipName Hstart).
  destruct (ModelDisplayer._model (this w)) as [gltf|] eqn:Hmodel; cycle 1.
  { destruct (model_start_clip_not_loaded w clipName) as [message ->]; [|done].
    intros ([? Hsome] & _). congruence. }
  destruct (ModelDisplayer._mixer (this w)) as [m|] eqn:Hmixer; cycle 1.
  { destruct (model_start_clip_not_loaded w clipName) as [message ->]; [|done].
    intros (_ & [? Hsome]). congruence. }
  destruct (findByName (animations gltf) clipName) as [clip|] eqn:Hclip; cycle 1.
  { rewrite (model_start_clip_missing w gltf m clipName Hmodel Hmixer Hclip).
    split; cbn; [intros r [=]|]. by rewrite Hmodel. }
  pose proof (findByName_name _ _ _ Hclip) as Hname.
  destruct (_actionsByClip m !! name clip) as [r|] eqn:Hcached.
  - destruct (Hmix m (name clip) r eq_refl Hcached) as (a & l & Ha & Hl & Hfind).
    rewrite (model_start_clip_cached w gltf m clipName clip r a
               Hmodel Hmixer Hclip Hcached Ha).
    split; cbn.
    + intros r' [= <-]. apply list_lookup_insert_is_Some. eauto.
    + rewrite Hmodel. by eapply mixer_ok_insert.
  - rewrite (model_start_clip_new w gltf m clipName clip
               Hmodel Hmixer Hclip Hcached).
    split; cbn.
    + intros r' [= <-]. rewrite list_lookup_middle by done. eauto.
    + rewrite Hmodel. cbn in *.
      apply mixer_ok_new; [done| by rewrite Hname |done].
Qed.

Lemma model_wf_revert (w : World ModelDisplayer.t) :
  ModelDisplayer.wf w -> ModelDisplayer.wf (after ModelDisplayer.revertToOriginalPosition w).
Proof.
  intros Hwf. pose proof Hwf as (Hcur & Hmix). unfold after.
  destruct (ModelDisplayer._currentAction (this w)) as [r|] eqn:Hr;
    [|by rewrite model_revert_null].
  destruct (Hcur r eq_refl) as [a Ha].
  assert (Hact : ModelDisplayer.currentAction w = Some a).
  { unfold ModelDisplayer.currentAction. by rewrite Hr. }
  destruct (paused a) eqn:Hp; [|by rewrite (model_revert_not_paused w a)].
  destruct (time a === 0%float) eqn:Ht; [by rewrite (model_revert_at_start w a)|].
  rewrite (model_revert_at_end w r a Hr Ha Hp Ht). split; cbn.
  - rewrite Hr. by apply current_ok_insert.
  - by eapply mixer_ok_insert.
Qed.

Lemma model_wf_displayModelOnWebpage (w : World ModelDisplayer.t)
    (filename : string) (result : LoaderOutcome) :
  ModelDisplayer.wf w ->
  ModelDisplayer.wf (after (ModelDisplayer.displayModelOnWebpage filename result) w).
Proof.
  intros (Hcur & Hmix). destruct result as [gltf boxCentre | error].
  - split; cbn; [exact Hcur | apply mixer_ok_newMixer].
  - split; cbn; [exact Hcur | exact Hmix].
Qed.

(** ** On the pointer proxy *)

Lemma cursor_on_currentAction_focus (o : CursorObject.t) (h : list AnimationAction)
    (c : list ConsoleLine) (r : ActionRef) (x : AnimationAction)
    (f : AnimationAction -> AnimationAction) :
  CursorObject._currentAction o = Some r -> r < length h ->
  CursorObject.on_currentAction f (mkWorld o (<[r := x]> h) c) =
    (Normal tt, mkWorld o (<[r := f x]> h) c).
Proof.
  intros Hcur Hr. unfold CursorObject.on_currentAction, bind, get_this.
  cbn [this]. rewrite Hcur. cbn [member]. unfold ret. by apply update_focus.
Qed.

(** The three calls on the current action. *)
Lemma cursor_start_calls (o : CursorObject.t) (h : list AnimationAction)
    (c : list ConsoleLine) (r : ActionRef) (x : AnimationAction) :
  CursorObject._currentAction o = Some r -> r < length h ->
  (CursorObject.on_currentAction (setLoop LoopOnce) ;;
   CursorObject.on_currentAction (set_timeScale 1) ;;
   CursorObject.on_currentAction play) (mkWorld o (<[r := x]> h) c) =
  (Normal tt, mkWorld o (<[r := cursor_started x]> h) c).
Proof.
  intros Hcur Hr.
  do 2 (erewrite bind_Normal by (by apply cursor_on_currentAction_focus)).
  unfold cursor_started. by apply cursor_on_currentAction_focus.
Qed.

(** Once the guards have passed, [playAnimation] runs its block: in the
    same world when there is no current action, and else in the world where
    [_isActionPlayable] has reset the current action. *)
Lemma cursor_playAnimation_null (K : AnimationNameConstants)
    (w : World CursorObject.t) (clipName : string) :
  cursor_starts K clipName = true ->
  CursorObject._currentAction (this w) = None ->
  CursorObject.playAnimation K clipName w = cursor_start_clip K clipName w.
Proof.
  intros Hname Hnull. unfold CursorObject.playAnimation.
  unfold cursor_starts in Hname. rewrite Hname.
  by rewrite (bind_Normal _ _ _ _ _ (cursor_isActionPlayable_null w Hnull)).
Qed.

Lemma cursor_playAnimation_at_end (K : AnimationNameConstants)
    (w : World CursorObject.t) (clipName : string) (r : ActionRef)
    (a : AnimationAction) :
  cursor_starts K clipName = true ->
  CursorObject._currentAction (this w) = Some r ->
  heap w !! r = Some a ->
  (time a === CursorObject._currentClipDuration (this w)) = true ->
  CursorObject.playAnimation K clipName w =
    cursor_start_clip K clipName
      (mkWorld (this w) (<[r := reset a]> (heap w)) (console w)).
Proof.
  intros Hname Hr Ha Ht. unfold CursorObject.playAnimation.
  unfold cursor_starts in Hname. rewrite Hname.
  by rewrite (bind_Normal _ _ _ _ _ (cursor_isActionPlayable_at_end w r a Hr Ha Ht)).
Qed.

(** The block throws when the clips are not there, or hold no clip of the
    name asked for. *)
Lemma cursor_start_clip_no_clip (K : AnimationNameConstants)
    (w : World CursorObject.t) (clipName : string) :
  (forall l, CursorObject._animations (this w) = Some l ->
             findByName l (if clipName === TOUCH K then INDEX_FINGER K else clipName)
               = None) ->
  exists message, cursor_start_clip K clipName w = (Throw (TypeError message), w).
Proof.
  intros Hnone. unfold cursor_start_clip, bind at 1, get_this. cbn [this].
  unfold bind at 1, findClip, bind at 1.
  destruct (CursorObject._animations (this w)) as [l|]; [|by eexists].
  cbn [member]. unfold ret at 1. unfold ret at 1.
  rewrite (Hnone l eq_refl). by eexists.
Qed.

(** For a clip the mixer has an action for, the block takes that action. *)
Lemma cursor_start_clip_cached (K : AnimationNameConstants)
    (w : World CursorObject.t) (l : list AnimationClip) (m : AnimationMixer)
    (clipName : string) (clip : AnimationClip) (r : ActionRef) (a : AnimationAction) :
  CursorObject._animations (this w) = Some l ->
  CursorObject._mixer (this w) = Some m ->
  findByName l (if clipName === TOUCH K then INDEX_FINGER K else clipName) = Some clip ->
  _actionsByClip m !! name clip = Some r ->
  heap w !! r = Some a ->
  cursor_start_clip K clipName w =
    (Normal tt,
     mkWorld (CursorObject.set_currentAction (Some r)
                (CursorObject.set_mixer (Some m)
                   (CursorObject.set_currentClipDuration (duration clip) (this w))))
             (<[r := cursor_started a]> (heap w)) (console w)).
Proof.
  intros Hclips Hmixer Hclip Hcached Ha.
  unfold cursor_start_clip. unfold bind at 1, get_this. cbn [this].
  unfold bind at 1, findClip, bind at 1. rewrite Hclips.
  cbn [member]. unfold ret at 1. unfold ret at 1.
  rewrite Hclip. unfold bind at 1. cbn [member]. unfold ret at 1.
  unfold bind at 1, put_this. cbn [this heap console].
  unfold bind at 1. cbn [this]. unfold bind at 1.
  cbn [CursorObject.set_currentClipDuration CursorObject._mixer].
  rewrite Hmixer. cbn [member]. unfold ret at 1.
  unfold bind at 1, clipAction. rewrite Hcached. unfold ret at 1. cbn [fst snd].
  unfold bind at 1. cbn [this]. unfold bind at 1. cbn [this heap console].
  rewrite <- (list_insert_id (heap w) r a Ha) at 1.
  apply cursor_start_calls; [reflexivity|]. by eapply lookup_lt_Some.
Qed.

(** For a clip the mixer has not seen, the block makes a new action. *)
Lemma cursor_start_clip_new (K : AnimationNameConstants)
    (w : World CursorObject.t) (l : list AnimationClip) (m : AnimationMixer)
    (clipName : string) (clip : AnimationClip) :
  CursorObject._animations (this w) = Some l ->
  CursorObject._mixer (this w) = Some m ->
  findByName l (if clipName === TOUCH K then INDEX_FINGER K else clipName) = Some clip ->
  _actionsByClip m !! name clip = None ->
  cursor_start_clip K clipName w =
    (Normal tt,
     mkWorld (CursorObject.set_currentAction (Some (length (heap w)))
                (CursorObject.set_mixer
                   (Some (mkMixer (<[name clip := length (heap w)]> (_actionsByClip m))))
                   (CursorObject.set_currentClipDuration (duration clip) (this w))))
             (heap w ++ [cursor_started (newAction clip)]) (console w)).
Proof.
  intros Hclips Hmixer Hclip Hnew.
  unfold cursor_start_clip. unfold bind at 1, get_this. cbn [this].
  unfold bind at 1, findClip, bind at 1. rewrite Hclips.
  cbn [member]. unfold ret at 1. unfold ret at 1.
  rewrite Hclip. unfold bind at 1. cbn [member]. unfold ret at 1.
  unfold bind at 1, put_this. cbn [this heap console].
  unfold bind at 1. cbn [this]. unfold bind at 1.
  cbn [CursorObject.set_currentClipDuration CursorObject._mixer].
  rewrite Hmixer. cbn [member]. unfold ret at 1.
  unfold bind at 1, clipAction. rewrite Hnew. unfold bind at 1, alloc.
  unfold ret at 1. cbn [fst snd this heap console].
  unfold bind at 1. cbn [this]. unfold bind at 1. cbn [this heap console].
  pose proof (cursor_start_calls
                (CursorObject.set_currentAction (Some (length (heap w)))
                   (CursorObject.set_mixer
                      (Some (mkMixer (<[name clip := length (heap w)]>
                                        (_actionsByClip m))))
                      (CursorObject.set_currentClipDuration (duration clip) (this w))))
                (heap w ++ [newAction clip]) (console w) (length (heap w))
                (newAction clip) eq_refl) as Hcalls.
  rewrite !insert_last in Hcalls. apply Hcalls. rewrite length_app. cbn. lia.
Qed.

(** The world [new CursorObject(scene)] gives is well formed, and every
    method of the pointer proxy keeps a well-formed world well formed,
    whether it ends normally or throws. *)
Lemma cursor_wf_constructor (K : AnimationNameConstants) :
  CursorObject.wf (fresh (CursorObject.constructor K)).
Proof.
  repeat split; cbn.
  - intros r [=].
  - intros m k r [=].
  - intros a [=].
  - intros [l [=]].
Qed.

Lemma cursor_wf_reset (w : World CursorObject.t) (r : ActionRef) (a : AnimationAction) :
  CursorObject.wf w ->
  CursorObject._currentAction (this w) = Some r ->
  heap w !! r = Some a ->
  CursorObject.wf (mkWorld (this w) (<[r := reset a]> (heap w)) (console w)).
Proof.
  intros (Hcur & Hmix & Hdur & Hboth) Hr Ha. repeat split; cbn.
  - by apply current_ok_insert.
  - by eapply mixer_ok_insert.
  - intros a'. unfold CursorObject.currentAction. cbn. rewrite Hr. cbn.
    rewrite list_lookup_insert_eq by (by eapply lookup_lt_Some).
    intros [= <-]. apply (Hdur a). unfold CursorObject.currentAction.
    rewrite Hr. exact Ha.
  - exact Hboth.
Qed.

Lemma cursor_wf_start_clip (K : AnimationNameConstants) (w : World CursorObject.t)
    (clipName : string) :
  CursorObject.wf w -> CursorObject.wf (after (cursor_start_clip K clipName) w).
Proof.
  intros Hwf. pose proof Hwf as (Hcur & Hmix & Hdur & Hboth). unfold after.
  set (asked := if clipName === TOUCH K then INDEX_FINGER K else clipName).
  destruct (CursorObject._animations (this w)) as [l|] eqn:Hclips; cycle 1.
  { destruct (cursor_start_clip_no_clip K w clipName) as [message ->]; [|done].
    intros l Hl. congruence. }
  destruct (findByName l asked) as [clip|] eqn:Hclip; cycle 1.
  { destruct (cursor_start_clip_no_clip K w clipName) as [message ->]; [|done].
    intros l' Hl. by simplify_eq. }
  destruct Hboth as [m Hmixer]; [by eauto|].
  pose proof (findByName_name _ _ _ Hclip) as Hname.
  destruct (_actionsByClip m !! name clip) as [r|] eqn:Hcached.
  - destruct (Hmix m (name clip) r Hmixer Hcached) as (a & l' & Ha & Hl & Hfind).
    rewrite (cursor_start_clip_cached K w l m clipName clip r a
               Hclips Hmixer Hclip Hcached Ha).
    assert (Hsame : _clip a = clip).
    { simplify_eq. rewrite Hname, Hclip in Hfind. by simplify_eq. }
    repeat split; cbn.
    + intros r' [= <-]. apply list_lookup_insert_is_Some. eauto.
    + rewrite Hclips. rewrite Hmixer in Hmix. by eapply mixer_ok_insert.
    + intros a'. unfold CursorObject.currentAction. cbn.
      rewrite list_lookup_insert_eq by (by eapply lookup_lt_Some).
      intros [= <-]. cbn. by rewrite Hsame.
    + eauto.
  - rewrite (cursor_start_clip_new K w l m clipName clip
               Hclips Hmixer Hclip Hcached).
    repeat split; cbn.
    + intros r' [= <-]. rewrite list_lookup_middle by done. eauto.
    + rewrite Hclips. rewrite Hmixer in Hmix.
      apply mixer_ok_new; [done| by rewrite Hname |done].
    + intros a'. unfold CursorObject.currentAction. cbn.
      rewrite list_lookup_middle by done. by intros [= <-].
    + eauto.
Qed.

Lemma cursor_wf_playAnimation (K : AnimationNameConstants) (w : World CursorObject.t)
    (clipName : string) :
  CursorObject.wf w -> CursorObject.wf (after (CursorObject.playAnimation K clipName) w).
Proof.
  intros Hwf. pose proof Hwf as (Hcur & _).
  destruct (cursor_starts K clipName) eqn:Hname; cycle 1.
  { unfold after. by rewrite cursor_playAnimation_other_name. }
  destruct (CursorObject._currentAction (this w)) as [r|] eqn:Hr; cycle 1.
  { unfold after. rewrite (cursor_playAnimation_null K w clipName Hname Hr).
    by apply cursor_wf_start_clip. }
  destruct (Hcur r eq_refl) as [a Ha].
  destruct (time a === CursorObject._currentClipDuration (this w)) eqn:Ht.
  - unfold after.
    rewrite (cursor_playAnimation_at_end K w clipName r a Hname Hr Ha Ht).
    by apply cursor_wf_start_clip, cursor_wf_reset.
  - unfold after. rewrite (cursor_playAnimation_away_from_end K w a clipName);
      [done| |done].
    unfold CursorObject.currentAction. by rewrite Hr.
Qed.

Lemma cursor_wf_isActionPlayable (w : World CursorObject.t) :
  CursorObject.wf w -> CursorObject.wf (after CursorObject._isActionPlayable w).
Proof.
  intros Hwf. pose proof Hwf as (Hcur & _). unfold after.
  destruct (CursorObject._currentAction (this w)) as [r|] eqn:Hr;
    [|by rewrite cursor_isActionPlayable_null].
  destruct (Hcur r eq_refl) as [a Ha].
  destruct (time a === CursorObject._currentClipDuration (this w)) eqn:Ht.
  - rewrite (cursor_isActionPlayable_at_end w r a Hr Ha Ht).
    by apply cursor_wf_reset.
  - rewrite (cursor_isActionPlayable_not_at_end w a); [done| |done].
    unfold CursorObject.currentAction. by rewrite Hr.
Qed.

Lemma cursor_wf_loadCursorObjectToScene (w : World CursorObject.t)
    (filename : string) (result : LoaderOutcome) :
  CursorObject.wf w ->
  CursorObject.wf (after (CursorObject.loadCursorObjectToScene filename result) w).
Proof.
  intros (Hcur & Hmix & Hdur & Hboth). destruct result as [gltf boxCentre | error].
  - repeat split; cbn; [exact Hcur | apply mixer_ok_newMixer | exact Hdur | eauto].
  - repeat split; cbn; [exact Hcur | exact Hmix | exact Hdur | exact Hboth].
Qed.

Lemma cursor_wf_setCursorPosition (w : World CursorObject.t) (intersectPoint : Vector3) :
  CursorObject.wf w ->
  CursorObject.wf (after (CursorObject.setCursorPosition intersectPoint) w).
Proof.
  intros Hwf. unfold after, CursorObject.setCursorPosition, bind, get_this.
  cbn [this]. destruct (CursorObject._model (this w)); [|exact Hwf].
  destruct Hwf as (Hcur & Hmix & Hdur & Hboth). by repeat split.
Qed.

(* ================================================================== *)
(** * What [playAnimation] starts *)
(* ================================================================== *)

(** The test of [CursorObject.playAnimation] on the name. *)
Lemma cursor_starts_false (K : AnimationNameConstants) (clipName : string) :
  clipName ∉ [LA K; SCROLL K; CLICK K; TOUCH K] ->
  cursor_starts K clipName = false.
Proof.
  rewrite !not_elem_of_cons. intros (Hla & Hscroll & Hclick & Htouch & _).
  unfold cursor_starts, strict_eq, string_strict_eq.
  by rewrite !(proj2 (String.eqb_neq _ _)).
Qed.

Lemma cursor_starts_TOUCH (K : AnimationNameConstants) :
  cursor_starts K (TOUCH K) = true.
Proof.
  unfold cursor_starts, strict_eq at 4, string_strict_eq.
  rewrite String.eqb_refl. by rewrite !orb_true_r.
Qed.

(** The block of [CursorObject.playAnimation], run in a well-formed world
    whose clips hold one of the name asked for: it ends normally, the
    current action is then an action of that clip, [play()] has been called
    on it, and the duration of the clip has been recorded. *)
Lemma cursor_start_clip_starts (K : AnimationNameConstants)
    (w : World CursorObject.t) (clipName : string) (l : list AnimationClip)
    (clip : AnimationClip) :
  CursorObject.wf w ->
  CursorObject._animations (this w) = Some l ->
  findByName l (if clipName === TOUCH K then INDEX_FINGER K else clipName) = Some clip ->
  outcome (cursor_start_clip K clipName) w = Normal tt /\
  (_clip <$> CursorObject.currentAction (after (cursor_start_clip K clipName) w))
    = Some clip /\
  (scheduled <$> CursorObject.currentAction (after (cursor_start_clip K clipName) w))
    = Some true /\
  CursorObject._currentClipDuration (this (after (cursor_start_clip K clipName) w))
    = duration clip.
Proof.
  intros (Hcur & Hmix & Hdur & Hboth) Hclips Hclip.
  destruct Hboth as [m Hmixer]; [by eauto|].
  pose proof (findByName_name _ _ _ Hclip) as Hname.
  unfold outcome, after.
  destruct (_actionsByClip m !! name clip) as [r|] eqn:Hcached.
  - destruct (Hmix m (name clip) r Hmixer Hcached) as (a & l' & Ha & Hl & Hfind).
    rewrite (cursor_start_clip_cached K w l m clipName clip r a
               Hclips Hmixer Hclip Hcached Ha).
    assert (Hsame : _clip a = clip).
    { simplify_eq. rewrite Hname, Hclip in Hfind. by simplify_eq. }
    unfold CursorObject.currentAction. cbn.
    rewrite list_lookup_insert_eq by (by eapply lookup_lt_Some). cbn.
    by rewrite Hsame.
  - rewrite (cursor_start_clip_new K w l m clipName clip
               Hclips Hmixer Hclip Hcached).
    unfold CursorObject.currentAction. cbn.
    by rewrite list_lookup_middle.
Qed.

(** The same for [playAnimation] itself, at the boundary where it starts
    a clip. *)
Lemma cursor_playAnimation_starts (K : AnimationNameConstants)
    (w : World CursorObject.t) (clipName : string) (l : list AnimationClip)
    (clip : AnimationClip) :
  CursorObject.wf w -> cursor_at_end w ->
  cursor_starts K clipName = true ->
  CursorObject._animations (this w) = Some l ->
  findByName l (if clipName === TOUCH K then INDEX_FINGER K else clipName) = Some clip ->
  outcome (CursorObject.playAnimation K clipName) w = Normal tt /\
  (_clip <$> CursorObject.currentAction (after (CursorObject.playAnimation K clipName) w))
    = Some clip /\
  (scheduled <$> CursorObject.currentAction (after (CursorObject.playAnimation K clipName) w))
    = Some true /\
  CursorObject._currentClipDuration
    (this (after (CursorObject.playAnimation K clipName) w)) = duration clip.
Proof.
  intros Hwf [Hnull | (a & Hact & Ht)] Hname Hclips Hclip.
  - unfold outcome, after.
    rewrite (cursor_playAnimation_null K w clipName Hname Hnull).
    by apply cursor_start_clip_starts with (l := l).
  - destruct (cursor_currentAction_Some w a Hact) as (r & Hr & Ha).
    unfold outcome, after.
    rewrite (cursor_playAnimation_at_end K w clipName r a Hname Hr Ha Ht).
    apply cursor_start_clip_starts with (l := l); [|done..].
    by apply cursor_wf_reset.
Qed.

(** ** C9 *)

(** C9. [CursorObject.playAnimation] starts a clip only for the names LA,
    SCROLL, CLICK and TOUCH: for every other name the call ends normally
    and leaves the world as it was, whatever the playback state; so it does
    for HEAD and for SHOES, when these are not among the four.  A request
    for TOUCH, in a well-formed world at the boundary where a clip may
    start, makes the action of the clip named INDEX_FINGER the current
    action, calls [play()] on it and records the duration of that clip. *)
Theorem cursor_playAnimation_names (K : AnimationNameConstants) :
  (forall (w : World CursorObject.t) (clipName : string),
      clipName ∉ [LA K; SCROLL K; CLICK K; TOUCH K] ->
      CursorObject.playAnimation K clipName w = (Normal tt, w)) /\
  (HEAD K ∉ [LA K; SCROLL K; CLICK K; TOUCH K] ->
   SHOES K ∉ [LA K; SCROLL K; CLICK K; TOUCH K] ->
   forall w : World CursorObject.t,
     CursorObject.playAnimation K (HEAD K) w = (Normal tt, w) /\
     CursorObject.playAnimation K (SHOES K) w = (Normal tt, w)) /\
  (forall (w : World CursorObject.t) (l : list AnimationClip) (clip : AnimationClip),
      CursorObject.wf w -> cursor_at_end w ->
      CursorObject._animations (this w) = Some l ->
      findByName l (INDEX_FINGER K) = Some clip ->
      outcome (CursorObject.playAnimation K (TOUCH K)) w = Normal tt /\
      name clip = INDEX_FINGER K /\
      (_clip <$> CursorObject.currentAction
                   (after (CursorObject.playAnimation K (TOUCH K)) w)) = Some clip /\
      (scheduled <$> CursorObject.currentAction
                       (after (CursorObject.playAnimation K (TOUCH K)) w)) = Some true /\
      CursorObject._currentClipDuration
        (this (after (CursorObject.playAnimation K (TOUCH K)) w)) = duration clip).
Proof.
  assert (Hother : forall (w : World CursorObject.t) (clipName : string),
             clipName ∉ [LA K; SCROLL K; CLICK K; TOUCH K] ->
             CursorObject.playAnimation K clipName w = (Normal tt, w)).
  { intros w clipName Hnot. apply cursor_playAnimation_other_name.
    by apply cursor_starts_false. }
  split; [exact Hother|]. split.
  - intros Hhead Hshoes w. split; by apply Hother.
  - intros w l clip Hwf Hend Hclips Hclip.
    assert (Hasked : findByName l (if TOUCH K === TOUCH K then INDEX_FINGER K
                                   else TOUCH K) = Some clip).
    { unfold strict_eq, string_strict_eq. by rewrite String.eqb_refl. }
    destruct (cursor_playAnimation_starts K w (TOUCH K) l clip Hwf Hend
                (cursor_starts_TOUCH K) Hclips Hasked) as (Hout & Hcl & Hsch & Hdur).
    repeat split; try done. by eapply findByName_name.
Qed.

Lemma cursor_playAnimation_names_witness :
  CursorObject.playAnimation names "HEAD" cursor_loaded = (Normal tt, cursor_loaded) /\
  CursorObject.playAnimation names "SHOES" cursor_loaded = (Normal tt, cursor_loaded) /\
  (_clip <$> CursorObject.currentAction
               (after (CursorObject.playAnimation names "TOUCH") cursor_loaded))
    = Some (mkClip "INDEX_FINGER" 3).
Proof.
  destruct (cursor_playAnimation_names names) as (_ & Hmove & Htouch).
  assert (Hnot : forall s, String.eqb s "LA" = false -> String.eqb s "SCROLL" = false ->
                           String.eqb s "CLICK" = false -> String.eqb s "TOUCH" = false ->
                           s ∉ [LA names; SCROLL names; CLICK names; TOUCH names]).
  { intros s H1 H2 H3 H4. rewrite !not_elem_of_cons.
    repeat split; try (by apply String.eqb_neq). apply not_elem_of_nil. }
  destruct (Hmove (Hnot "HEAD" eq_refl eq_refl eq_refl eq_refl)
                  (Hnot "SHOES" eq_refl eq_refl eq_refl eq_refl) cursor_loaded)
    as (Hhead & Hshoes).
  split; [exact Hhead|]. split; [exact Hshoes|].
  refine (proj1 (proj2 (proj2 (Htouch cursor_loaded _ (mkClip "INDEX_FINGER" 3)
                                 _ _ eq_refl eq_refl)))).
  - apply (cursor_wf_loadCursorObjectToScene _ "hand.glb"
             (Loaded hand_glb (mkVector3 0 0 0))), cursor_wf_constructor.
  - left. reflexivity.
Defined.

(* ================================================================== *)
(** * Errors *)
(* ================================================================== *)

(** In a well-formed world the methods of the scene host that need no
    clip end normally. *)
Lemma model_isActionPlayable_ends (w : World ModelDisplayer.t) :
  ModelDisplayer.wf w ->
  exists b, outcome ModelDisplayer._isActionPlayable w = Normal b.
Proof.
  intros (Hcur & _). unfold outcome.
  destruct (ModelDisplayer._currentAction (this w)) as [r|] eqn:Hr.
  - destruct (Hcur r eq_refl) as [a Ha]. eexists.
    rewrite (model_isActionPlayable_action w a); [done|].
    unfold ModelDisplayer.currentAction. by rewrite Hr.
  - exists true. by rewrite model_isActionPlayable_null.
Qed.

Lemma model_revert_ends (w : World ModelDisplayer.t) :
  ModelDisplayer.wf w ->
  outcome ModelDisplayer.revertToOriginalPosition w = Normal tt.
Proof.
  intros (Hcur & _). unfold outcome.
  destruct (ModelDisplayer._currentAction (this w)) as [r|] eqn:Hr;
    [|by rewrite model_revert_null].
  destruct (Hcur r eq_refl) as [a Ha].
  assert (Hact : ModelDisplayer.currentAction w = Some a).
  { unfold ModelDisplayer.currentAction. by rewrite Hr. }
  destruct (paused a) eqn:Hp; [|by rewrite (model_revert_not_paused w a)].
  destruct (time a === 0%float) eqn:Ht; [by rewrite (model_revert_at_start w a)|].
  by rewrite (model_revert_at_end w r a Hr Ha Hp Ht).
Qed.

(** With the asset loaded, [ModelDisplayer.playAnimation] ends normally for
    the name of a clip of the asset. *)
Lemma model_playAnimation_ends (w : World ModelDisplayer.t) (gltf : GLTF)
    (clipName : string) :
  ModelDisplayer.wf w -> ModelDisplayer.loaded w ->
  ModelDisplayer._model (this w) = Some gltf ->
  is_Some (findByName (animations gltf) clipName) ->
  outcome (ModelDisplayer.playAnimation clipName) w = Normal tt.
Proof.
  intros Hwf (_ & [m Hmixer]) Hmodel [clip Hclip]. unfold outcome.
  pose proof Hwf as (Hcur & Hmix).
  assert (Hcases : model_at_start w \/ ~ model_at_start w).
  { destruct (ModelDisplayer._currentAction (this w)) as [r|] eqn:Hr;
      [|by left; left].
    destruct (Hcur r eq_refl) as [a Ha].
    assert (Hact : ModelDisplayer.currentAction w = Some a).
    { unfold ModelDisplayer.currentAction. by rewrite Hr. }
    destruct (time a === 0%float) eqn:Ht.
    - left. right. eauto.
    - right. intros [Hnull | (a' & Hact' & Ht')]; [congruence|].
      rewrite Hact in Hact'. simplify_eq. congruence. }
  destruct Hcases as [Hstart | Hnot];
    [|by rewrite model_playAnimation_not_at_start].
  rewrite (model_playAnimation_at_start w clipName Hstart).
  destruct (_actionsByClip m !! name clip) as [r|] eqn:Hcached.
  - destruct (Hmix m (name clip) r Hmixer Hcached) as (a & l & Ha & _).
    by rewrite (model_start_clip_cached w gltf m clipName clip r a).
  - by rewrite (model_start_clip_new w gltf m clipName clip).
Qed.

(** With the asset loaded, [CursorObject.playAnimation] ends normally for
    a name it does not start, and for a name that finds a clip of the
    asset. *)
Lemma cursor_playAnimation_ends (K : AnimationNameConstants)
    (w : World CursorObject.t) (l : list AnimationClip) (clipName : string) :
  CursorObject.wf w ->
  CursorObject._animations (this w) = Some l ->
  (cursor_starts K clipName = true ->
   is_Some (findByName l (if clipName === TOUCH K then INDEX_FINGER K else clipName))) ->
  outcome (CursorObject.playAnimation K clipName) w = Normal tt.
Proof.
  intros Hwf Hclips Hfound. pose proof Hwf as (Hcur & _).
  destruct (cursor_starts K clipName) eqn:Hname; cycle 1.
  { unfold outcome. by rewrite cursor_playAnimation_other_name. }
  destruct (Hfound eq_refl) as [clip Hclip].
  destruct (CursorObject._currentAction (this w)) as [r|] eqn:Hr; cycle 1.
  { eapply cursor_playAnimation_starts; [done|by left|done..]. }
  destruct (Hcur r eq_refl) as [a Ha].
  assert (Hact : CursorObject.currentAction w = Some a).
  { unfold CursorObject.currentAction. by rewrite Hr. }
  destruct (time a === CursorObject._currentClipDuration (this w)) eqn:Ht.
  - eapply cursor_playAnimation_starts; [done|right; eauto|done..].
  - unfold outcome. by rewrite (cursor_playAnimation_away_from_end K w a clipName).
Qed.

Lemma cursor_isActionPlayable_ends (w : World CursorObject.t) :
  CursorObject.wf w ->
  exists b, outcome CursorObject._isActionPlayable w = Normal b.
Proof.
  intros (Hcur & _). unfold outcome.
  destruct (CursorObject._currentAction (this w)) as [r|] eqn:Hr;
    [|exists true; by rewrite cursor_isActionPlayable_null].
  destruct (Hcur r eq_refl) as [a Ha].
  destruct (time a === CursorObject._currentClipDuration (this w)) eqn:Ht.
  - exists true. by rewrite (cursor_isActionPlayable_at_end w r a).
  - exists false. rewrite (cursor_isActionPlayable_not_at_end w a); [done| |done].
    unfold CursorObject.currentAction. by rewrite Hr.
Qed.

(** ** C8 *)

(** C8, as the code has it.  A failed load of the asset of either component
    is logged to the console and the promise of the load is rejected with
    that error ([displayModelOnWebpage] logs it a second time).  Once the
    asset is loaded, in a well-formed world, the other operations end
    without raising: [_isActionPlayable], [revertToOriginalPosition],
    [getModelAnimation], [setCursorPosition] and [getPostion] always, and
    [playAnimation] for every name that finds a clip of the asset (on the
    pointer proxy TOUCH looks for INDEX_FINGER, and a name other than LA,
    SCROLL, CLICK and TOUCH needs no clip). *)
Theorem load_failure_is_logged_and_rejected :
  (forall (w : World ModelDisplayer.t) (filename : string) (e : JS.Error),
      ModelDisplayer._loadModelOntoScene filename (Failed e) w =
        (Normal (Rejected e), mkWorld (this w) (heap w) (console w ++ [error_line e])) /\
      ModelDisplayer.displayModelOnWebpage filename (Failed e) w =
        (Normal (Rejected e),
         mkWorld (this w) (heap w) ((console w ++ [error_line e]) ++ [error_line e]))) /\
  (forall (w : World CursorObject.t) (filename : string) (e : JS.Error),
      CursorObject.loadCursorObjectToScene filename (Failed e) w =
        (Normal (Rejected e), mkWorld (this w) (heap w) (console w ++ [error_line e]))) /\
  (forall w : World ModelDisplayer.t,
      ModelDisplayer.wf w -> ModelDisplayer.loaded w ->
      (exists b, outcome ModelDisplayer._isActionPlayable w = Normal b) /\
      outcome ModelDisplayer.revertToOriginalPosition w = Normal tt /\
      (forall (gltf : GLTF) (clipName : string),
          ModelDisplayer._model (this w) = Some gltf ->
          is_Some (findByName (animations gltf) clipName) ->
          outcome (ModelDisplayer.playAnimation clipName) w = Normal tt)) /\
  (forall (K : AnimationNameConstants) (w : World CursorObject.t),
      CursorObject.wf w -> CursorObject.loaded w ->
      (exists animation, outcome (CursorObject.getModelAnimation K) w = Normal animation) /\
      (exists b, outcome CursorObject._isActionPlayable w = Normal b) /\
      (forall p, outcome (CursorObject.setCursorPosition p) w = Normal tt) /\
      (exists p, outcome CursorObject.getPostion w = Normal (Some p)) /\
      (forall (l : list AnimationClip) (clipName : string),
          CursorObject._animations (this w) = Some l ->
          (cursor_starts K clipName = true ->
           is_Some (findByName l (if clipName === TOUCH K then INDEX_FINGER K
                                  else clipName))) ->
          outcome (CursorObject.playAnimation K clipName) w = Normal tt)).
Proof.
  split; [by intros w filename e|]. split; [by intros w filename e|]. split.
  - intros w Hwf Hloaded. split; [by apply model_isActionPlayable_ends|].
    split; [by apply model_revert_ends|].
    intros gltf clipName. by apply model_playAnimation_ends.
  - intros K w Hwf ([model Hmodel] & _ & _).
    split.
    { eexists. unfold outcome.
      by rewrite (getModelAnimation_loaded K (position model) w); [|rewrite Hmodel]. }
    split; [by apply cursor_isActionPlayable_ends|].
    split.
    { intros p. unfold outcome, CursorObject.setCursorPosition, bind, get_this.
      cbn [this]. by rewrite Hmodel. }
    split.
    { exists (position model). unfold outcome, CursorObject.getPostion, bind, get_this.
      cbn [this]. by rewrite Hmodel. }
    intros l clipName. by apply cursor_playAnimation_ends.
Qed.

Lemma load_failure_is_logged_and_rejected_witness :
  outcome ModelDisplayer.revertToOriginalPosition model_loaded = Normal tt /\
  outcome (ModelDisplayer.playAnimation "HEAD") model_loaded = Normal tt /\
  outcome (CursorObject.playAnimation names "CLICK") cursor_loaded = Normal tt /\
  (exists animation,
      outcome (CursorObject.getModelAnimation names) cursor_loaded = Normal animation).
Proof.
  destruct load_failure_is_logged_and_rejected as (_ & _ & Hmodel & Hcursor).
  assert (Hwm : ModelDisplayer.wf model_loaded).
  { apply (model_wf_displayModelOnWebpage _ "char_2.glb"
             (Loaded char_2_glb (mkVector3 0 0 0))), model_wf_constructor. }
  assert (Hlm : ModelDisplayer.loaded model_loaded) by (split; eexists; reflexivity).
  assert (Hwc : CursorObject.wf cursor_loaded).
  { apply (cursor_wf_loadCursorObjectToScene _ "hand.glb"
             (Loaded hand_glb (mkVector3 0 0 0))), cursor_wf_constructor. }
  assert (Hlc : CursorObject.loaded cursor_loaded)
    by (repeat split; eexists; reflexivity).
  destruct (Hmodel model_loaded Hwm Hlm) as (_ & Hrevert & Hplay).
  destruct (Hcursor names cursor_loaded Hwc Hlc) as (Hselect & _ & _ & _ & Hclick).
  split; [exact Hrevert|].
  split; [apply (Hplay _ "HEAD" eq_refl); eexists; reflexivity|].
  split; [apply (Hclick _ "CLICK" eq_refl); intros _; eexists; reflexivity|].
  exact Hselect.
Defined.

(** C8, as the specification has it, fails: other operations do raise.
    Before its asset is loaded the pointer proxy has no position, and
    [getModelAnimation] throws a TypeError; with the asset loaded,
    [ModelDisplayer.playAnimation] throws a TypeError for a name the asset
    has no clip of. *)
Lemma operations_raise_TypeError :
  outcome (CursorObject.getModelAnimation names)
          (fresh (CursorObject.constructor names)) =
    Throw (TypeError "this._model.position is undefined") /\
  findByName (animations char_2_glb) "CLICK" = None /\
  outcome (ModelDisplayer.playAnimation "CLICK") model_loaded =
    Throw (TypeError "this._currentAction is null").
Proof. vm_compute. repeat split; reflexivity. Qed.

(* ================================================================== *)
(** * Invariants and a scenario *)
(* ================================================================== *)

(** The world of a new scene host is well formed, and its methods keep
    worlds well formed: the current action, when there is one, stays an
    object of the heap, and the actions of the mixer stay objects of the
    heap, each made for the clip its name finds in the asset.  (Of the
    current action no more is kept: a second load replaces the asset and
    the mixer and leaves the current action.) *)
Theorem model_wf_invariant :
  ModelDisplayer.wf (fresh ModelDisplayer.constructor) /\
  (forall w : World ModelDisplayer.t,
      ModelDisplayer.wf w ->
      (forall clipName, ModelDisplayer.wf (after (ModelDisplayer.playAnimation clipName) w)) /\
      ModelDisplayer.wf (after ModelDisplayer.revertToOriginalPosition w) /\
      ModelDisplayer.wf (after ModelDisplayer._isActionPlayable w) /\
      (forall filename result,
          ModelDisplayer.wf (after (ModelDisplayer.displayModelOnWebpage filename result) w))).
Proof.
  split; [apply model_wf_constructor|]. intros w Hwf.
  split; [intros clipName; by apply model_wf_playAnimation|].
  split; [by apply model_wf_revert|].
  split; [by rewrite model_isActionPlayable_after|].
  intros filename result. by apply model_wf_displayModelOnWebpage.
Qed.

Lemma model_wf_invariant_witness :
  ModelDisplayer.wf model_loaded /\ ModelDisplayer.wf model_two_requests.
Proof.
  destruct model_wf_invariant as (Hnew & Hkeep).
  assert (Hloaded : ModelDisplayer.wf model_loaded).
  { apply (proj2 (proj2 (proj2 (Hkeep _ Hnew))) "char_2.glb"
             (Loaded char_2_glb (mkVector3 0 0 0))). }
  split; [exact Hloaded|].
  apply (proj1 (Hkeep _ (proj1 (Hkeep _ Hloaded) "HEAD")) "TOUCH").
Defined.

(** The same for the pointer proxy, where in addition the duration it
    keeps is the duration of the clip of its current action. *)
Theorem cursor_wf_invariant (K : AnimationNameConstants) :
  CursorObject.wf (fresh (CursorObject.constructor K)) /\
  (forall w : World CursorObject.t,
      CursorObject.wf w ->
      (forall clipName, CursorObject.wf (after (CursorObject.playAnimation K clipName) w)) /\
      CursorObject.wf (after CursorObject._isActionPlayable w) /\
      CursorObject.wf (after (CursorObject.getModelAnimation K) w) /\
      (forall p, CursorObject.wf (after (CursorObject.setCursorPosition p) w)) /\
      (forall filename result,
          CursorObject.wf (after (CursorObject.loadCursorObjectToScene filename result) w)) /\
      (forall a, CursorObject.currentAction w = Some a ->
                 CursorObject._currentClipDuration (this w) = duration (_clip a))).
Proof.
  split; [apply cursor_wf_constructor|]. intros w Hwf.
  split; [intros clipName; by apply cursor_wf_playAnimation|].
  split; [by apply cursor_wf_isActionPlayable|].
  split; [by rewrite (proj1 (getModelAnimation_world_unchanged K w))|].
  split; [intros p; by apply cursor_wf_setCursorPosition|].
  split; [intros filename result; by apply cursor_wf_loadCursorObjectToScene|].
  by destruct Hwf as (_ & _ & Hdur & _).
Qed.

Lemma cursor_wf_invariant_witness :
  CursorObject.wf cursor_loaded /\ CursorObject.wf cursor_clicked /\
  CursorObject._currentClipDuration (this cursor_clicked) = 1%float.
Proof.
  destruct (cursor_wf_invariant names) as (Hnew & Hkeep).
  assert (Hloaded : CursorObject.wf cursor_loaded).
  { apply (proj1 (proj2 (proj2 (proj2 (proj2 (Hkeep _ Hnew))))) "hand.glb"
             (Loaded hand_glb (mkVector3 0 0 0))). }
  assert (Hclicked : CursorObject.wf cursor_clicked).
  { apply (proj1 (Hkeep _ Hloaded) "CLICK"). }
  split; [exact Hloaded|]. split; [exact Hclicked|].
  apply (proj2 (proj2 (proj2 (proj2 (proj2 (Hkeep _ Hclicked)))))
           {| _clip := mkClip "CLICK" 1; loop := LoopOnce; time := 0;
              timeScale := 1; paused := false; enabled := true;
              clampWhenFinished := false; scheduled := true |}).
  reflexivity.
Defined.

(** The scenario of the specification on the pointer proxy: a click when
    idle starts the clip CLICK; a scroll right after it, before the clip
    has completed, is ignored, and CLICK stays the current clip. *)
Theorem click_then_scroll_is_ignored :
  CursorObject.currentAction cursor_loaded = None /\
  outcome (CursorObject.playAnimation names (CLICK names)) cursor_loaded = Normal tt /\
  (name <$> (_clip <$> CursorObject.currentAction cursor_clicked)) = Some (CLICK names) /\
  (isRunning <$> CursorObject.currentAction cursor_clicked) = Some true /\
  CursorObject.playAnimation names (SCROLL names) cursor_clicked =
    (Normal tt, cursor_clicked).
Proof. vm_compute. repeat split; reflexivity. Qed.

(* ================================================================== *)
(** * The page *)
(* ================================================================== *)

(** The function given to [ready] awaits the two loads in order.  When
    both succeed it resolves, and both objects are loaded and well formed.
    When the load of the character fails it is rejected with that error,
    which has been logged (twice), and the load of the pointer proxy is
    not started: the pointer proxy is as its constructor left it.  When
    only the load of the pointer proxy fails it is rejected with that
    error, which has been logged, the character being loaded and the
    pointer proxy not. *)
Theorem ready_resolves_after_both_loads (K : AnimationNameConstants)
    (character hand : LoaderOutcome) :
  match character, hand with
  | Loaded _ _, Loaded _ _ =>
      outcome (Home.ready character hand) (fresh (Home.page K)) =
        Normal (Resolved tt) /\
      ModelDisplayer.loaded
        (Home.model_world (after (Home.ready character hand) (fresh (Home.page K)))) /\
      ModelDisplayer.wf
        (Home.model_world (after (Home.ready character hand) (fresh (Home.page K)))) /\
      CursorObject.loaded
        (Home.cursor_world (after (Home.ready character hand) (fresh (Home.page K)))) /\
      CursorObject.wf
        (Home.cursor_world (after (Home.ready character hand) (fresh (Home.page K)))) /\
      console (after (Home.ready character hand) (fresh (Home.page K))) = []
  | Failed e, _ =>
      outcome (Home.ready character hand) (fresh (Home.page K)) =
        Normal (Rejected e) /\
      error_line e ∈ console (after (Home.ready character hand) (fresh (Home.page K))) /\
      console (after (Home.ready character hand) (fresh (Home.page K))) =
        [error_line e; error_line e] /\
      this (after (Home.ready character hand) (fresh (Home.page K))) = Home.page K
  | Loaded _ _, Failed e =>
      outcome (Home.ready character hand) (fresh (Home.page K)) =
        Normal (Rejected e) /\
      error_line e ∈ console (after (Home.ready character hand) (fresh (Home.page K))) /\
      console (after (Home.ready character hand) (fresh (Home.page K))) =
        [error_line e] /\
      ModelDisplayer.loaded
        (Home.model_world (after (Home.ready character hand) (fresh (Home.page K)))) /\
      Home.cursorObject (this (after (Home.ready character hand) (fresh (Home.page K))))
        = CursorObject.constructor K
  end.
Proof.
  destruct character as [gltf centre | e]; [destruct hand as [gltf' centre' | e]|].
  - split; [reflexivity|]. cbn.
    split; [split; eexists; reflexivity|].
    split; [split; cbn; [intros r [=] | apply mixer_ok_newMixer]|].
    split; [repeat split; eexists; reflexivity|].
    split; [|reflexivity].
    repeat split; cbn; [intros r [=] | apply mixer_ok_newMixer | intros a [=] | eauto].
  - split; [reflexivity|]. cbn. split; [apply list_elem_of_here|].
    split; [reflexivity|]. split; [|reflexivity]. split; eexists; reflexivity.
  - split; [reflexivity|]. cbn. split; [apply list_elem_of_here|].
    split; reflexivity.
Qed.

(** The pointer moved onto the trigger point of HEAD: the handler passes
    HEAD to both objects; the character starts its clip HEAD, and the
    pointer proxy, which starts no clip for that name, stays idle.  Moved
    onto the trigger point of LA: both start their clip LA.  Moved far
    from every trigger point: nothing starts. *)
Theorem mousemove_on_the_page :
  outcome (Home.mousemove names (mkVector3 37.5 32.5 30)) page_ready = Normal tt /\
  (name <$> (_clip <$> ModelDisplayer.currentAction (Home.model_world page_on_head)))
    = Some (HEAD names) /\
  CursorObject._currentAction (Home.cursorObject (this page_on_head)) = None /\
  outcome (Home.mousemove names (mkVector3 32.5 30 37.5)) page_ready = Normal tt /\
  (name <$> (_clip <$> ModelDisplayer.currentAction (Home.model_world page_on_la)))
    = Some (LA names) /\
  (name <$> (_clip <$> CursorObject.currentAction (Home.cursor_world page_on_la)))
    = Some (LA names) /\
  outcome (Home.mousemove names (mkVector3 50 50 50)) page_ready = Normal tt /\
  heap page_far_away = [] /\
  ModelDisplayer._currentAction (Home.modelDisplayer (this page_far_away)) = None /\
  CursorObject._currentAction (Home.cursorObject (this page_far_away)) = None.
Proof. vm_compute. repeat split; reflexivity. Qed.

(* ================================================================== *)
(** * More on numbers: values that are not numbers *)
(* ================================================================== *)

(** A number compares equal to itself. *)
Lemma SFcompare_refl (a : spec_float) :
  a <> S754_nan -> SFcompare a a = Some Eq.
Proof.
  destruct a as [s|s| |s m e]; cbn; try done.
  - by destruct s.
  - intros _. destruct s; rewrite Z.compare_refl, Pos.compare_cont_refl; done.
Qed.

(** [is_nan] finds the one value that is not a number. *)
Lemma is_nan_Prim2SF (a : float) :
  PrimFloat.is_nan a = true <-> Prim2SF a = S754_nan.
Proof.
  unfold PrimFloat.is_nan. rewrite FloatAxioms.eqb_spec. unfold SFeqb. split.
  - intros Hnan. destruct (Prim2SF a) as [s|s| |s m e] eqn:Ha; try done;
      rewrite SFcompare_refl in Hnan; done.
  - by intros ->.
Qed.

(** NaN goes through the arithmetic of a distance, and is never below or
    equal to a radius. *)
Lemma is_nan_sub (a b : float) :
  PrimFloat.is_nan a = true \/ PrimFloat.is_nan b = true ->
  PrimFloat.is_nan (a - b) = true.
Proof.
  rewrite !is_nan_Prim2SF, FloatAxioms.sub_spec. unfold SF64sub.
  intros [-> | ->]; [done|]. by destruct (Prim2SF a).
Qed.

Lemma is_nan_mul (a b : float) :
  PrimFloat.is_nan a = true \/ PrimFloat.is_nan b = true ->
  PrimFloat.is_nan (a * b) = true.
Proof.
  rewrite !is_nan_Prim2SF, FloatAxioms.mul_spec. unfold SF64mul.
  intros [-> | ->]; [done|]. by destruct (Prim2SF a).
Qed.

Lemma is_nan_add (a b : float) :
  PrimFloat.is_nan a = true \/ PrimFloat.is_nan b = true ->
  PrimFloat.is_nan (a + b) = true.
Proof.
  rewrite !is_nan_Prim2SF, FloatAxioms.add_spec. unfold SF64add.
  intros [-> | ->]; [done|]. by destruct (Prim2SF a).
Qed.

Lemma is_nan_sqrt (a : float) :
  PrimFloat.is_nan a = true -> PrimFloat.is_nan (PrimFloat.sqrt a) = true.
Proof.
  rewrite !is_nan_Prim2SF, FloatAxioms.sqrt_spec. unfold SF64sqrt.
  by intros ->.
Qed.

Lemma is_nan_leb (a b : float) :
  PrimFloat.is_nan a = true \/ PrimFloat.is_nan b = true ->
  (a <=? b)%float = false.
Proof.
  rewrite !is_nan_Prim2SF, FloatAxioms.leb_spec. unfold SFleb.
  intros [-> | ->]; [done|]. by destruct (Prim2SF a).
Qed.

(** A number is below or equal to itself. *)
Lemma leb_refl_number (a : float) :
  (a <=? a)%float = negb (PrimFloat.is_nan a).
Proof.
  destruct (PrimFloat.is_nan a) eqn:Hnan.
  - apply is_nan_leb. by left.
  - rewrite FloatAxioms.leb_spec. unfold SFleb. rewrite SFcompare_refl; [done|].
    intros Ha. apply is_nan_Prim2SF in Ha. congruence.
Qed.

(** A square root is never below zero. *)
Lemma sqrt_not_negative (a : float) : (PrimFloat.sqrt a <? 0)%float = false.
Proof.
  rewrite FloatAxioms.ltb_spec, FloatAxioms.sqrt_spec.
  unfold SF64sqrt, SFsqrt, SFltb.
  change (Prim2SF 0) with (S754_zero false).
  destruct (Prim2SF a) as [s|s| |s m e];
    [by destruct s|by destruct s|done|].
  destruct s; [done|].
  destruct (SFsqrt_core_binary prec emax (Z.pos m) e) as [[mz ez] lz].
  unfold binary_round_aux.
  destruct (shr_fexp prec emax mz ez lz) as [mrs' e'].
  destruct (shr_fexp prec emax _ e' loc_Exact) as [mrs'' e''].
  destruct (shr_m mrs'') as [|p|p]; [done| |done].
  by destruct (_ <=? _)%Z.
Qed.

(** The distance of a point with a coordinate that is not a number, to any
    point, is not a number. *)
Lemma distanceTo_of_NaN (pos centre : Vector3) :
  (PrimFloat.is_nan (x pos) || PrimFloat.is_nan (y pos) ||
   PrimFloat.is_nan (z pos)) = true ->
  PrimFloat.is_nan (distanceTo pos centre) = true.
Proof.
  intros Hnan. unfold distanceTo, distanceToSquared.
  apply is_nan_sqrt.
  apply orb_true_iff in Hnan as [Hnan | Hz];
    [apply orb_true_iff in Hnan as [Hx | Hy]|].
  - apply is_nan_add. left. apply is_nan_add. left.
    apply is_nan_mul. left. apply is_nan_sub. by left.
  - apply is_nan_add. left. apply is_nan_add. right.
    apply is_nan_mul. left. apply is_nan_sub. by left.
  - apply is_nan_add. right.
    apply is_nan_mul. left. apply is_nan_sub. by left.
Qed.

(* ================================================================== *)
(** * More on the selector *)
(* ================================================================== *)

(** What the selection answers is the name it started from or a name of
    the table. *)
Lemma select_sound (pos : Vector3) (l : list (string * Vector3))
    (animation : string) :
  fold_left (select_step pos) l animation = animation \/
  exists centre,
    (fold_left (select_step pos) l animation, centre) ∈ l /\
    within pos centre = true.
Proof.
  induction l as [|[key centre] l IH] using rev_ind; [by left|].
  rewrite fold_left_app. cbn [fold_left].
  change (select_step pos (fold_left (select_step pos) l animation) (key, centre))
    with (if within pos centre then key
          else fold_left (select_step pos) l animation).
  destruct (within pos centre) eqn:Hin.
  - right. exists centre. split; [|done]. apply elem_of_app. right.
    apply list_elem_of_here.
  - destruct IH as [IH | (c & Hc & Hwithin)]; [by left|].
    right. exists c. split; [|done]. apply elem_of_app. by left.
Qed.

(** With at most one entry in reach, the first entry in reach is the last. *)
Lemma select_first_match (pos : Vector3) (l : list (string * Vector3))
    (animation : string) :
  length (List.filter (fun kv => within pos kv.2) l) <= 1 ->
  fold_left (select_step pos) l animation =
    match List.find (fun kv => within pos kv.2) l with
    | Some kv => kv.1
    | None => animation
    end.
Proof.
  revert animation. induction l as [|[key centre] l IH]; intros animation Hone;
    [reflexivity|].
  cbn [fold_left List.find List.filter] in *. unfold select_step at 2.
  cbn [fst snd] in *. destruct (within pos centre) eqn:Hin.
  - cbn [length] in Hone. apply select_none_within. intros k c Hkc.
    destruct (within pos c) eqn:Hc; [|done].
    assert (Hmem : In (k, c) (List.filter (fun kv => within pos kv.2) l)).
    { apply List.filter_In. split; [by apply list_elem_of_In|done]. }
    destruct (List.filter (fun kv => within pos kv.2) l); [done|cbn in Hone; lia].
  - by apply IH.
Qed.

(** The entries of a map made from an iterable are entries of the
    iterable. *)
Lemma set_entry_elem {V : Type} (key : string) (value : V)
    (l : list (string * V)) (k : string) (v : V) :
  (k, v) ∈ set_entry key value l -> (k, v) = (key, value) \/ (k, v) ∈ l.
Proof.
  induction l as [|[k0 v0] l IH]; cbn [set_entry].
  - intros Hin%list_elem_of_singleton. by left.
  - destruct (String.eqb k0 key) eqn:Heq.
    + apply String.eqb_eq in Heq as ->.
      intros [-> | Hin]%elem_of_cons; [by left|].
      right. by apply list_elem_of_further.
    + intros [-> | Hin]%elem_of_cons; [right; apply list_elem_of_here|].
      destruct (IH Hin) as [? | ?]; [by left|].
      right. by apply list_elem_of_further.
Qed.

Lemma Map_new_elem {V : Type} (iterable : list (string * V)) (k : string) (v : V) :
  (k, v) ∈ entries (Map_new iterable) -> (k, v) ∈ iterable.
Proof.
  unfold Map_new.
  assert (Hgen : forall m : JS.Map string V,
             (k, v) ∈ entries (fold_left (fun m kv => Map_set kv.1 kv.2 m) iterable m) ->
             (k, v) ∈ iterable \/ (k, v) ∈ entries m).
  { induction iterable as [|[k0 v0] l IH]; intros m; cbn [fold_left]; [by right|].
    intros [Hin | Hin]%IH; [left; by apply list_elem_of_further|].
    cbn [Map_set entries fst snd] in Hin.
    apply set_entry_elem in Hin as [-> | Hin]; [left; apply list_elem_of_here|].
    by right. }
  intros [Hin | Hin]%Hgen; [done|]. cbn in Hin. by apply elem_of_nil in Hin.
Qed.

(** A pointer proxy whose position has a coordinate that is not a number
    selects nothing: [getModelAnimation] answers NONE, whatever the trigger
    points are. *)
Theorem getModelAnimation_of_a_NaN_position (K : AnimationNameConstants)
    (w : World CursorObject.t) (pos : Vector3) :
  position <$> CursorObject._model (this w) = Some pos ->
  (PrimFloat.is_nan (x pos) || PrimFloat.is_nan (y pos) ||
   PrimFloat.is_nan (z pos)) = true ->
  CursorObject.getModelAnimation K w = (Normal (NONE K), w).
Proof.
  intros Hpos Hnan. rewrite (getModelAnimation_loaded K pos w Hpos).
  rewrite select_none_within; [done|]. intros key centre _.
  unfold within. apply is_nan_leb. left. by apply distanceTo_of_NaN.
Qed.

Lemma getModelAnimation_of_a_NaN_position_witness :
  CursorObject.getModelAnimation names cursor_nowhere =
    (Normal "none", cursor_nowhere).
Proof.
  apply (getModelAnimation_of_a_NaN_position names cursor_nowhere
           (mkVector3 PrimFloat.nan 0 0)); reflexivity.
Defined.

(** Where at most one trigger point is within the radius of the pointer
    proxy, [getModelAnimation] answers as a selector that stops at the
    first match would. *)
Theorem getModelAnimation_is_first_match_when_unambiguous
    (K : AnimationNameConstants) (w : World CursorObject.t) (pos : Vector3) :
  position <$> CursorObject._model (this w) = Some pos ->
  length (List.filter (fun kv => within pos kv.2)
            (entries (CursorObject._trigger_centres (this w)))) <= 1 ->
  CursorObject.getModelAnimation K w =
    (Normal (first_match_selector K (CursorObject._trigger_centres (this w)) pos), w).
Proof.
  intros Hpos Hone. rewrite (getModelAnimation_loaded K pos w Hpos).
  unfold first_match_selector. by rewrite select_first_match.
Qed.

Lemma getModelAnimation_is_first_match_when_unambiguous_witness :
  CursorObject.getModelAnimation names cursor_at_head =
    (Normal "HEAD", cursor_at_head).
Proof.
  apply (getModelAnimation_is_first_match_when_unambiguous names cursor_at_head
           (mkVector3 75 65 60)); [reflexivity|].
  vm_compute. lia.
Defined.

(** For a pointer proxy with the trigger points of its constructor,
    whatever the names are, [getModelAnimation] answers NONE or the name of
    a trigger point within the radius, which is one of TOUCH, SHOES, HEAD
    and LA; it answers neither SCROLL nor CLICK unless the table gives one
    of those the name of a trigger or of NONE. *)
Theorem getModelAnimation_answers_a_trigger_name (K : AnimationNameConstants)
    (w : World CursorObject.t) (pos : Vector3) :
  position <$> CursorObject._model (this w) = Some pos ->
  CursorObject._trigger_centres (this w) =
    CursorObject._trigger_centres (CursorObject.constructor K) ->
  exists animation,
    CursorObject.getModelAnimation K w = (Normal animation, w) /\
    animation ∈ [NONE K; TOUCH K; SHOES K; HEAD K; LA K] /\
    (animation = NONE K \/
     exists centre,
       (animation, centre) ∈ [ (TOUCH K, mkVector3 70 60 65);
                               (SHOES K, mkVector3 85 55 55);
                               (HEAD K, mkVector3 75 65 60);
                               (LA K, mkVector3 65 60 75) ] /\
       within pos centre = true).
Proof.
  intros Hpos Hmap. rewrite (getModelAnimation_loaded K pos w Hpos).
  eexists. split; [reflexivity|]. rewrite Hmap.
  destruct (select_sound pos
              (entries (CursorObject._trigger_centres (CursorObject.constructor K)))
              (NONE K)) as [-> | (centre & Hin & Hwithin)].
  - split; [apply list_elem_of_here | by left].
  - apply Map_new_elem in Hin. split; [|right; by exists centre].
    apply list_elem_of_further.
    apply (list_elem_of_fmap_2 fst) in Hin. exact Hin.
Qed.

Lemma getModelAnimation_answers_a_trigger_name_witness :
  exists animation,
    CursorObject.getModelAnimation names cursor_between_touch_and_head =
      (Normal animation, cursor_between_touch_and_head) /\
    animation ∈ ["none"; "TOUCH"; "SHOES"; "HEAD"; "LA"].
Proof.
  destruct (getModelAnimation_answers_a_trigger_name names
              cursor_between_touch_and_head (mkVector3 73 63 64)
              eq_refl eq_refl) as (animation & Hrun & Hin & _).
  by exists animation.
Defined.

(* ================================================================== *)
(** * More on the playback of the scene host *)
(* ================================================================== *)

(** Every well-formed world is at the boundary where the scene host starts
    a clip, or away from it. *)
Lemma model_at_start_dec (w : World ModelDisplayer.t) :
  ModelDisplayer.wf w -> model_at_start w \/ ~ model_at_start w.
Proof.
  intros (Hcur & _).
  destruct (ModelDisplayer._currentAction (this w)) as [r|] eqn:Hr;
    [|by left; left].
  destruct (Hcur r eq_refl) as [a Ha].
  assert (Hact : ModelDisplayer.currentAction w = Some a).
  { unfold ModelDisplayer.currentAction. by rewrite Hr. }
  destruct (time a === 0%float) eqn:Ht.
  - left. right. eauto.
  - right. intros [Hnull | (a' & Hact' & Ht')]; [congruence|].
    rewrite Hact in Hact'. simplify_eq. congruence.
Qed.

(** What the six calls leave of an action, and that a second round of them
    changes nothing. *)
Lemma model_started_fields (a : AnimationAction) :
  _clip (model_started a) = _clip a /\ time (model_started a) = time a /\
  loop (model_started a) = LoopOnce /\
  clampWhenFinished (model_started a) = true /\
  timeScale (model_started a) = 1%float /\
  isRunning (model_started a) = true.
Proof. by repeat split. Qed.

Lemma model_started_idem (a : AnimationAction) :
  model_started (model_started a) = model_started a.
Proof. reflexivity. Qed.

(** The clip of an action the mixer has for a clip of the asset. *)
Lemma mixer_ok_clip (m : AnimationMixer) (l : list AnimationClip)
    (h : list AnimationAction) (clipName : string) (clip : AnimationClip)
    (r : ActionRef) (a : AnimationAction) :
  mixer_ok (Some m) (Some l) h ->
  findByName l clipName = Some clip ->
  _actionsByClip m !! name clip = Some r -> h !! r = Some a ->
  _clip a = clip.
Proof.
  intros Hmix Hclip Hcached Ha.
  destruct (Hmix m (name clip) r eq_refl Hcached) as (a' & l' & Ha' & Hl & Hfind).
  rewrite (findByName_name _ _ _ Hclip), Ha in *. by simplify_eq.
Qed.

(** With the asset loaded and a clip of the name in it, a request at the
    boundary starts that clip: the call ends normally, and the current
    action is then an action of the clip, set to run once, forwards at
    speed 1, clamped at its end, and running. *)
Theorem model_playAnimation_starts_the_clip (w : World ModelDisplayer.t)
    (gltf : GLTF) (clipName : string) (clip : AnimationClip) :
  ModelDisplayer.wf w ->
  ModelDisplayer._model (this w) = Some gltf ->
  is_Some (ModelDisplayer._mixer (this w)) ->
  model_at_start w ->
  findByName (animations gltf) clipName = Some clip ->
  outcome (ModelDisplayer.playAnimation clipName) w = Normal tt /\
  exists a,
    ModelDisplayer.currentAction (after (ModelDisplayer.playAnimation clipName) w)
      = Some a /\
    _clip a = clip /\ name clip = clipName /\
    loop a = LoopOnce /\ clampWhenFinished a = true /\
    timeScale a = 1%float /\ isRunning a = true.
Proof.
  intros (Hcur & Hmix) Hmodel [m Hmixer] Hstart Hclip.
  unfold outcome, after. rewrite (model_playAnimation_at_start w clipName Hstart).
  pose proof (findByName_name _ _ _ Hclip) as Hname.
  rewrite Hmodel, Hmixer in Hmix. cbn in Hmix.
  destruct (_actionsByClip m !! name clip) as [r|] eqn:Hcached.
  - destruct (Hmix m (name clip) r eq_refl Hcached) as (a & l & Ha & Hl & Hfind).
    rewrite (model_start_clip_cached w gltf m clipName clip r a
               Hmodel Hmixer Hclip Hcached Ha).
    split; [reflexivity|]. exists (model_started a).
    unfold ModelDisplayer.currentAction. cbn.
    rewrite list_lookup_insert_eq by (by eapply lookup_lt_Some).
    repeat split; [|done].
    by apply (mixer_ok_clip m (animations gltf) (heap w) clipName clip r a).
  - rewrite (model_start_clip_new w gltf m clipName clip
               Hmodel Hmixer Hclip Hcached).
    split; [reflexivity|]. exists (model_started (newAction clip)).
    unfold ModelDisplayer.currentAction. cbn.
    rewrite list_lookup_middle by done. by repeat split.
Qed.

Lemma model_playAnimation_starts_the_clip_witness :
  outcome (ModelDisplayer.playAnimation "HEAD") model_loaded = Normal tt /\
  exists a,
    ModelDisplayer.currentAction (after (ModelDisplayer.playAnimation "HEAD") model_loaded)
      = Some a /\
    _clip a = mkClip "HEAD" 2 /\ isRunning a = true.
Proof.
  destruct (model_playAnimation_starts_the_clip model_loaded
              (mkGLTF (mkObject3D (mkVector3 0 (-80) 0)) (animations char_2_glb))
              "HEAD" (mkClip "HEAD" 2)) as (Hout & a & Ha & Hclip & _ & _ & _ & _ & Hrun).
  - apply (model_wf_displayModelOnWebpage _ "char_2.glb"
             (Loaded char_2_glb (mkVector3 0 0 0))), model_wf_constructor.
  - reflexivity.
  - by eexists.
  - by left.
  - reflexivity.
  - split; [exact Hout|]. by exists a.
Defined.

(** For a name the asset has no clip of, a request at the boundary throws
    a TypeError after the current action has been given up: the component
    has no current action any more, the actions and the console are as
    they were, and the next request is again at the boundary. *)
Theorem model_playAnimation_of_a_missing_clip (w : World ModelDisplayer.t)
    (gltf : GLTF) (clipName : string) :
  ModelDisplayer._model (this w) = Some gltf ->
  is_Some (ModelDisplayer._mixer (this w)) ->
  model_at_start w ->
  findByName (animations gltf) clipName = None ->
  outcome (ModelDisplayer.playAnimation clipName) w =
    Throw (TypeError "this._currentAction is null") /\
  ModelDisplayer._currentAction
    (this (after (ModelDisplayer.playAnimation clipName) w)) = None /\
  heap (after (ModelDisplayer.playAnimation clipName) w) = heap w /\
  console (after (ModelDisplayer.playAnimation clipName) w) = console w /\
  ModelDisplayer.revertToOriginalPosition
    (after (ModelDisplayer.playAnimation clipName) w) =
    (Normal tt, after (ModelDisplayer.playAnimation clipName) w).
Proof.
  intros Hmodel [m Hmixer] Hstart Hclip. unfold outcome, after.
  rewrite (model_playAnimation_at_start w clipName Hstart).
  rewrite (model_start_clip_missing w gltf m clipName Hmodel Hmixer Hclip).
  repeat split.
Qed.

Lemma model_playAnimation_of_a_missing_clip_witness :
  outcome (ModelDisplayer.playAnimation "CLICK") model_just_started =
    Throw (TypeError "this._currentAction is null") /\
  ModelDisplayer._currentAction
    (this (after (ModelDisplayer.playAnimation "CLICK") model_just_started)) = None.
Proof.
  destruct (model_playAnimation_of_a_missing_clip model_just_started
              (mkGLTF (mkObject3D (mkVector3 0 (-80) 0)) (animations char_2_glb))
              "CLICK") as (Hout & Hnull & _).
  - reflexivity.
  - by eexists.
  - right. eexists. split; reflexivity.
  - reflexivity.
  - by split.
Defined.

(** Reverting, when the current action is paused away from time 0: the
    call ends normally and leaves the component as it was; the current
    action keeps its clip and its time and is set to run once, backwards
    at speed 1, unpaused and not clamped; and until an action moves, every
    further request to play or to revert is a no-op. *)
Theorem model_revert_replays_backwards (w : World ModelDisplayer.t)
    (a : AnimationAction) :
  ModelDisplayer.currentAction w = Some a ->
  paused a = true -> (time a === 0%float) = false ->
  outcome ModelDisplayer.revertToOriginalPosition w = Normal tt /\
  this (after ModelDisplayer.revertToOriginalPosition w) = this w /\
  (exists a',
      ModelDisplayer.currentAction (after ModelDisplayer.revertToOriginalPosition w)
        = Some a' /\
      _clip a' = _clip a /\ time a' = time a /\
      timeScale a' = (-1)%float /\ paused a' = false /\
      clampWhenFinished a' = false /\ loop a' = LoopOnce /\
      isRunning a' = enabled a) /\
  (forall clipName,
      ModelDisplayer.playAnimation clipName
        (after ModelDisplayer.revertToOriginalPosition w) =
        (Normal tt, after ModelDisplayer.revertToOriginalPosition w)) /\
  ModelDisplayer.revertToOriginalPosition
    (after ModelDisplayer.revertToOriginalPosition w) =
    (Normal tt, after ModelDisplayer.revertToOriginalPosition w).
Proof.
  intros Hact Hp Ht.
  destruct (model_currentAction_Some w a Hact) as (r & Hr & Ha).
  unfold outcome, after. rewrite (model_revert_at_end w r a Hr Ha Hp Ht).
  cbn [fst snd this].
  assert (Hact' : ModelDisplayer.currentAction
                    (mkWorld (this w) (<[r := model_reverted a]> (heap w)) (console w))
                  = Some (model_reverted a)).
  { unfold ModelDisplayer.currentAction. cbn. rewrite Hr. cbn.
    by rewrite list_lookup_insert_eq by (by eapply lookup_lt_Some). }
  split; [done|]. split; [done|]. split; [|split].
  - exists (model_reverted a). split; [exact Hact'|].
    repeat split. unfold isRunning. cbn. by rewrite !andb_true_r.
  - intros clipName.
    by apply (model_playAnimation_away_from_start _ (model_reverted a)).
  - by apply (model_revert_not_paused _ (model_reverted a)).
Qed.

Lemma model_revert_replays_backwards_witness :
  outcome ModelDisplayer.revertToOriginalPosition model_clip_finished = Normal tt /\
  (timeScale <$> ModelDisplayer.currentAction
                   (after ModelDisplayer.revertToOriginalPosition model_clip_finished))
    = Some (-1)%float.
Proof.
  destruct (model_revert_replays_backwards model_clip_finished
              {| _clip := mkClip "LA" 2; loop := LoopOnce; time := 2;
                 timeScale := 1; paused := true; enabled := true;
                 clampWhenFinished := true; scheduled := true |}
              eq_refl eq_refl eq_refl)
    as (Hout & _ & (a' & Ha' & _ & _ & Hscale & _) & _).
  split; [exact Hout|]. rewrite Ha'. cbn. by rewrite Hscale.
Defined.



(* ================================================================== *)
(** * Each component keeps to its own actions *)
(* ================================================================== *)

Section KeepsTo.

Implicit Types (h : list AnimationAction) (owns : ActionRef -> Prop).

Lemma heap_extends_refl h : heap_extends h h.
Proof. intros r a Ha. by exists a. Qed.

Lemma heap_extends_trans h h' h'' :
  heap_extends h h' -> heap_extends h' h'' -> heap_extends h h''.
Proof.
  intros H1 H2 r a Ha. destruct (H1 r a Ha) as (a' & Ha' & Hc').
  destruct (H2 r a' Ha') as (a'' & Ha'' & Hc''). exists a''.
  split; [done|congruence].
Qed.

Lemma heap_extends_length h h' : heap_extends h h' -> length h <= length h'.
Proof.
  intros Hext. destruct (decide (length h = 0)) as [->|Hne]; [lia|].
  destruct (lookup_lt_is_Some_2 h (length h - 1)) as [a Ha]; [lia|].
  destruct (Hext _ a Ha) as (a' & Ha' & _).
  apply lookup_lt_Some in Ha'. lia.
Qed.

Lemma heap_extends_insert h (r : ActionRef) (a x : AnimationAction) :
  h !! r = Some a -> _clip x = _clip a -> heap_extends h (<[r := x]> h).
Proof.
  intros Ha Hclip r' a' Ha'. destruct (decide (r = r')) as [<- | Hne].
  - exists x. rewrite list_lookup_insert_eq by (by eapply lookup_lt_Some).
    split; [done|]. pose proof (eq_trans (eq_sym Ha) Ha') as [= ->]. done.
  - exists a'. by rewrite list_lookup_insert_ne.
Qed.

Lemma heap_extends_app h (l : list AnimationAction) : heap_extends h (h ++ l).
Proof.
  intros r a Ha. exists a. split; [|done].
  rewrite lookup_app_l; [done|]. by eapply lookup_lt_Some.
Qed.

Lemma keeps_to_same owns owns' h :
  (forall r, owns' r -> owns r) -> keeps_to owns owns' h h.
Proof.
  intros Hsub. split; [apply heap_extends_refl|]. split; [done|].
  intros r Hr. left. by apply Hsub.
Qed.

Lemma keeps_to_trans owns owns' owns'' h h' h'' :
  keeps_to owns owns' h h' -> keeps_to owns' owns'' h' h'' ->
  keeps_to owns owns'' h h''.
Proof.
  intros (Hext & Hframe & Hsub) (Hext' & Hframe' & Hsub').
  pose proof (heap_extends_length _ _ Hext) as Hlen.
  split; [by eapply heap_extends_trans|]. split.
  - intros r Hr Hnot. rewrite Hframe'; [by apply Hframe|lia|].
    intros [Hown | Hnew]%Hsub; [done|lia].
  - intros r [[Hown | Hnew]%Hsub | Hnew]%Hsub'; [by left|right; lia..].
Qed.

Lemma keeps_to_insert owns owns' h (r : ActionRef) (a x : AnimationAction) :
  h !! r = Some a -> _clip x = _clip a -> owns r ->
  (forall r', owns' r' -> owns r') ->
  keeps_to owns owns' h (<[r := x]> h).
Proof.
  intros Ha Hclip Hown Hsub. split; [by eapply heap_extends_insert|]. split.
  - intros r' _ Hnot. apply list_lookup_insert_ne. by intros <-.
  - intros r' Hr'. left. by apply Hsub.
Qed.

Lemma keeps_to_alloc owns owns' h (x : AnimationAction) :
  (forall r', owns' r' -> owns r' \/ r' = length h) ->
  keeps_to owns owns' h (h ++ [x]).
Proof.
  intros Hsub. split; [apply heap_extends_app|]. split.
  - intros r Hr _. by apply lookup_app_l.
  - intros r [Hown | ->]%Hsub; [by left|by right].
Qed.

End KeepsTo.

(** The actions a well-formed component holds are objects of the heap. *)
Lemma model_owns_lt (w : World ModelDisplayer.t) (r : ActionRef) :
  ModelDisplayer.wf w -> model_owns (this w) r -> r < length (heap w).
Proof.
  intros (Hcur & Hmix) [Hr | (m & k & Hm & Hk)].
  - destruct (Hcur r Hr) as [a Ha]. by eapply lookup_lt_Some.
  - destruct (Hmix m k r Hm Hk) as (a & l & Ha & _). by eapply lookup_lt_Some.
Qed.

Lemma cursor_owns_lt (w : World CursorObject.t) (r : ActionRef) :
  CursorObject.wf w -> cursor_owns (this w) r -> r < length (heap w).
Proof.
  intros (Hcur & Hmix & _) [Hr | (m & k & Hm & Hk)].
  - destruct (Hcur r Hr) as [a Ha]. by eapply lookup_lt_Some.
  - destruct (Hmix m k r Hm Hk) as (a & l & Ha & _). by eapply lookup_lt_Some.
Qed.

(** Well-formedness asks of the heap only that it has the actions, each
    for its clip. *)
Lemma model_wf_heap_extends (o : ModelDisplayer.t) (h h' : list AnimationAction)
    (c c' : list ConsoleLine) :
  ModelDisplayer.wf (mkWorld o h c) -> heap_extends h h' ->
  ModelDisplayer.wf (mkWorld o h' c').
Proof.
  intros (Hcur & Hmix) Hext. split; cbn in *.
  - intros r Hr. destruct (Hcur r Hr) as [a Ha].
    destruct (Hext r a Ha) as (a' & Ha' & _). eauto.
  - intros m k r Hm Hk. destruct (Hmix m k r Hm Hk) as (a & l & Ha & Hl & Hfind).
    destruct (Hext r a Ha) as (a' & Ha' & Hclip). exists a', l.
    by rewrite Hclip.
Qed.

Lemma cursor_wf_heap_extends (o : CursorObject.t) (h h' : list AnimationAction)
    (c c' : list ConsoleLine) :
  CursorObject.wf (mkWorld o h c) -> heap_extends h h' ->
  CursorObject.wf (mkWorld o h' c').
Proof.
  intros (Hcur & Hmix & Hdur & Hboth) Hext. split; [|split; [|split]]; cbn in *.
  - intros r Hr. destruct (Hcur r Hr) as [a Ha].
    destruct (Hext r a Ha) as (a' & Ha' & _). eauto.
  - intros m k r Hm Hk. destruct (Hmix m k r Hm Hk) as (a & l & Ha & Hl & Hfind).
    destruct (Hext r a Ha) as (a' & Ha' & Hclip). exists a', l.
    by rewrite Hclip.
  - intros a'. unfold CursorObject.currentAction in *. cbn in *.
    destruct (CursorObject._currentAction o) as [r|] eqn:Hr; [|done]. cbn.
    intros Ha'. destruct (Hcur r eq_refl) as [a Ha].
    destruct (Hext r a Ha) as (a'' & Ha'' & Hclip).
    pose proof (eq_trans (eq_sym Ha') Ha'') as [= ->].
    rewrite Hclip. by apply Hdur.
  - exact Hboth.
Qed.

(** ** The scene host *)

(** What [playAnimation] and [revertToOriginalPosition] do to the actions:
    nothing, or they write one action the component held, leaving it its
    clip and its time and scheduled if it was, or [playAnimation] makes one
    new action, which is then the current action. *)
Lemma model_playAnimation_shape (w : World ModelDisplayer.t) (clipName : string) :
  ModelDisplayer.wf w ->
  let w' := after (ModelDisplayer.playAnimation clipName) w in
  console w' = console w /\
  ((heap w' = heap w /\ forall r, model_owns (this w') r -> model_owns (this w) r) \/
   (exists r a,
       heap w !! r = Some a /\ model_owns (this w) r /\
       ModelDisplayer._currentAction (this w') = Some r /\
       heap w' = <[r := model_started a]> (heap w) /\
       forall r', model_owns (this w') r' -> model_owns (this w) r') \/
   (exists clip,
       ModelDisplayer._currentAction (this w') = Some (length (heap w)) /\
       heap w' = heap w ++ [model_started (newAction clip)] /\
       forall r', model_owns (this w') r' ->
                  model_owns (this w) r' \/ r' = length (heap w))).
Proof.
  intros Hwf. pose proof Hwf as (Hcur & Hmix). cbn zeta. unfold after.
  destruct (model_at_start_dec w Hwf) as [Hstart | Hnot]; cycle 1.
  { rewrite (model_playAnimation_not_at_start w clipName Hwf Hnot).
    split; [done|]. by left. }
  rewrite (model_playAnimation_at_start w clipName Hstart).
  destruct (ModelDisplayer._model (this w)) as [gltf|] eqn:Hmodel; cycle 1.
  { destruct (model_start_clip_not_loaded w clipName) as [message ->].
    - intros ([? Hsome] & _). congruence.
    - split; [done|]. by left. }
  destruct (ModelDisplayer._mixer (this w)) as [m|] eqn:Hmixer; cycle 1.
  { destruct (model_start_clip_not_loaded w clipName) as [message ->].
    - intros (_ & [? Hsome]). congruence.
    - split; [done|]. by left. }
  destruct (findByName (animations gltf) clipName) as [clip|] eqn:Hclip; cycle 1.
  { rewrite (model_start_clip_missing w gltf m clipName Hmodel Hmixer Hclip).
    split; [done|]. left. split; [done|]. cbn.
    intros r [[=] | (m' & k & [= <-] & Hk)]. right. eauto. }
  cbn in Hmix.
  destruct (_actionsByClip m !! name clip) as [r|] eqn:Hcached.
  - destruct (Hmix m (name clip) r eq_refl Hcached) as (a & l & Ha & Hl & Hfind).
    rewrite (model_start_clip_cached w gltf m clipName clip r a
               Hmodel Hmixer Hclip Hcached Ha).
    split; [done|]. right. left. exists r, a. cbn.
    assert (Hown : model_owns (this w) r) by (right; eauto).
    repeat split; [done..|].
    intros r' [[= <-] | (m' & k & [= <-] & Hk)]; [done|]. right. eauto.
  - rewrite (model_start_clip_new w gltf m clipName clip
               Hmodel Hmixer Hclip Hcached).
    split; [done|]. right. right. exists clip. cbn. repeat split.
    intros r' [[= <-] | (m' & k & [= <-] & Hk)]; [by right|]. cbn in Hk.
    destruct (decide (name clip = k)) as [<- | Hne].
    + rewrite lookup_insert_eq in Hk. right. by simplify_eq.
    + rewrite lookup_insert_ne in Hk by done. left. right. eauto.
Qed.

Lemma model_revert_shape (w : World ModelDisplayer.t) :
  ModelDisplayer.wf w ->
  let w' := after ModelDisplayer.revertToOriginalPosition w in
  console w' = console w /\ this w' = this w /\
  (heap w' = heap w \/
   exists r a,
     heap w !! r = Some a /\ ModelDisplayer._currentAction (this w) = Some r /\
     heap w' = <[r := model_reverted a]> (heap w)).
Proof.
  intros (Hcur & Hmix). cbn zeta. unfold after.
  destruct (ModelDisplayer._currentAction (this w)) as [r|] eqn:Hr; cycle 1.
  { rewrite (model_revert_null w Hr). by repeat split; left. }
  destruct (Hcur r eq_refl) as [a Ha].
  assert (Hact : ModelDisplayer.currentAction w = Some a).
  { unfold ModelDisplayer.currentAction. by rewrite Hr. }
  destruct (paused a) eqn:Hp; cycle 1.
  { rewrite (model_revert_not_paused w a Hact Hp). by repeat split; left. }
  destruct (time a === 0%float) eqn:Ht.
  { rewrite (model_revert_at_start w a Hact Ht). by repeat split; left. }
  rewrite (model_revert_at_end w r a Hr Ha Hp Ht).
  repeat split. right. by exists r, a.
Qed.

Lemma model_playAnimation_keeps_to (w : World ModelDisplayer.t) (clipName : string) :
  ModelDisplayer.wf w ->
  keeps_to (model_owns (this w))
           (model_owns (this (after (ModelDisplayer.playAnimation clipName) w)))
           (heap w) (heap (after (ModelDisplayer.playAnimation clipName) w)).
Proof.
  intros Hwf.
  destruct (model_playAnimation_shape w clipName Hwf)
    as (_ & [(-> & Hsub) | [(r & a & Ha & Hown & _ & -> & Hsub)
                           | (clip & _ & -> & Hsub)]]).
  - by apply keeps_to_same.
  - by apply (keeps_to_insert _ _ _ r a).
  - by apply keeps_to_alloc.
Qed.

Lemma model_revert_keeps_to (w : World ModelDisplayer.t) :
  ModelDisplayer.wf w ->
  keeps_to (model_owns (this w))
           (model_owns (this (after ModelDisplayer.revertToOriginalPosition w)))
           (heap w) (heap (after ModelDisplayer.revertToOriginalPosition w)).
Proof.
  intros Hwf.
  destruct (model_revert_shape w Hwf) as (_ & -> & [-> | (r & a & Ha & Hr & ->)]).
  - by apply keeps_to_same.
  - apply (keeps_to_insert _ _ _ r a); [done|done|by left|done].
Qed.

(** The scene host never moves an action in time, never takes an action
    from its mixer, and writes no action but the one that is current when
    the call ends: after [playAnimation] and after
    [revertToOriginalPosition] every action is still there, for the same
    clip and at the same time, scheduled if it was, and each action other
    than the current one is as it was.  The console is not written. *)
Theorem model_writes_only_the_current_action (w : World ModelDisplayer.t) :
  ModelDisplayer.wf w ->
  forall w',
    (w' = after ModelDisplayer.revertToOriginalPosition w \/
     exists clipName, w' = after (ModelDisplayer.playAnimation clipName) w) ->
    console w' = console w /\
    (forall r a, heap w !! r = Some a ->
       exists a', heap w' !! r = Some a' /\ _clip a' = _clip a /\
                  time a' = time a /\ (scheduled a = true -> scheduled a' = true)) /\
    (forall r, r < length (heap w) ->
       ModelDisplayer._currentAction (this w') <> Some r ->
       heap w' !! r = heap w !! r).
Proof.
  intros Hwf w' [-> | [clipName ->]].
  - destruct (model_revert_shape w Hwf)
      as (Hcon & Hthis & [Hheap | (r & a & Ha & Hr & Hheap)]);
      rewrite Hheap, Hthis; (split; [done|]); split.
    + intros r a Ha. by exists a.
    + done.
    + intros r' a' Ha'. destruct (decide (r = r')) as [<- | Hne].
      * exists (model_reverted a).
        rewrite list_lookup_insert_eq by (by eapply lookup_lt_Some).
        pose proof (eq_trans (eq_sym Ha) Ha') as [= ->]. done.
      * exists a'. by rewrite list_lookup_insert_ne.
    + intros r' _ Hnot. apply list_lookup_insert_ne. intros <-. by apply Hnot.
  - destruct (model_playAnimation_shape w clipName Hwf)
      as (Hcon & [(Hheap & _) | [(r & a & Ha & _ & Hr & Hheap & _)
                                | (clip & Hr & Hheap & _)]]);
      rewrite Hheap; (split; [done|]); split.
    + intros r a Ha. by exists a.
    + done.
    + intros r' a' Ha'. destruct (decide (r = r')) as [<- | Hne].
      * exists (model_started a).
        rewrite list_lookup_insert_eq by (by eapply lookup_lt_Some).
        pose proof (eq_trans (eq_sym Ha) Ha') as [= ->]. done.
      * exists a'. by rewrite list_lookup_insert_ne.
    + intros r' _ Hnot. apply list_lookup_insert_ne. intros <-. by apply Hnot.
    + intros r a Ha. exists a. split; [|done].
      apply lookup_app_l_Some. exact Ha.
    + intros r Hlt _. by apply lookup_app_l.
Qed.

Lemma model_writes_only_the_current_action_witness :
  (time <$> heap model_two_requests !! 0) = Some 0%float /\
  heap model_two_requests !! 0 =
    heap (after (ModelDisplayer.playAnimation "HEAD") model_loaded) !! 0.
Proof.
  assert (Hwf : ModelDisplayer.wf (after (ModelDisplayer.playAnimation "HEAD") model_loaded)).
  { apply model_wf_playAnimation.
    apply (model_wf_displayModelOnWebpage _ "char_2.glb"
             (Loaded char_2_glb (mkVector3 0 0 0))), model_wf_constructor. }
  destruct (model_writes_only_the_current_action _ Hwf model_two_requests)
    as (_ & Hkeep & Hother); [right; by exists "TOUCH"|].
  split.
  - destruct (Hkeep 0 (model_started (newAction (mkClip "HEAD" 2))) eq_refl)
      as (a' & Ha' & _ & Ht & _). rewrite Ha'. cbn. by rewrite Ht.
  - apply Hother; [vm_compute; lia | discriminate].
Defined.

(** ** The pointer proxy *)

(** The block of [CursorObject.playAnimation] for a name the clips hold no
    clip of. *)
Lemma cursor_start_clip_missing (K : AnimationNameConstants)
    (w : World CursorObject.t) (l : list AnimationClip) (clipName : string) :
  CursorObject._animations (this w) = Some l ->
  findByName l (if clipName === TOUCH K then INDEX_FINGER K else clipName) = None ->
  cursor_start_clip K clipName w = (Throw (TypeError "clip is null"), w).
Proof.
  intros Hclips Hclip. unfold cursor_start_clip, bind at 1, get_this. cbn [this].
  unfold bind at 1, findClip, bind at 1. rewrite Hclips.
  cbn [member]. unfold ret at 1. unfold ret at 1. by rewrite Hclip.
Qed.

(** What the block does to the actions: nothing when it throws, or else it
    writes the action the mixer has for the clip, or makes one. *)
Lemma cursor_start_clip_shape (K : AnimationNameConstants)
    (w : World CursorObject.t) (clipName : string) :
  CursorObject.wf w ->
  let w' := after (cursor_start_clip K clipName) w in
  console w' = console w /\
  (w' = w \/
   (exists r a,
       heap w !! r = Some a /\ cursor_owns (this w) r /\
       CursorObject._currentAction (this w') = Some r /\
       heap w' = <[r := cursor_started a]> (heap w) /\
       forall r', cursor_owns (this w') r' -> cursor_owns (this w) r') \/
   (exists clip,
       CursorObject._currentAction (this w') = Some (length (heap w)) /\
       heap w' = heap w ++ [cursor_started (newAction clip)] /\
       forall r', cursor_owns (this w') r' ->
                  cursor_owns (this w) r' \/ r' = length (heap w))).
Proof.
  intros Hwf. pose proof Hwf as (Hcur & Hmix & Hdur & Hboth). cbn zeta. unfold after.
  destruct (CursorObject._animations (this w)) as [l|] eqn:Hclips; cycle 1.
  { destruct (cursor_start_clip_no_clip K w clipName) as [message ->].
    - intros l Hl. congruence.
    - split; [done|]. by left. }
  destruct (findByName l (if clipName === TOUCH K then INDEX_FINGER K else clipName))
    as [clip|] eqn:Hclip; cycle 1.
  { rewrite (cursor_start_clip_missing K w l clipName Hclips Hclip).
    split; [done|]. by left. }
  destruct Hboth as [m Hmixer]; [by eauto|].
  destruct (_actionsByClip m !! name clip) as [r|] eqn:Hcached.
  - destruct (Hmix m (name clip) r Hmixer Hcached) as (a & l' & Ha & Hl & Hfind).
    rewrite (cursor_start_clip_cached K w l m clipName clip r a
               Hclips Hmixer Hclip Hcached Ha).
    split; [done|]. right. left. exists r, a. cbn.
    assert (Hown : cursor_owns (this w) r) by (right; eauto).
    repeat split; [done..|].
    intros r' [[= <-] | (m' & k & [= <-] & Hk)]; [done|]. right. eauto.
  - rewrite (cursor_start_clip_new K w l m clipName clip
               Hclips Hmixer Hclip Hcached).
    split; [done|]. right. right. exists clip. cbn. repeat split.
    intros r' [[= <-] | (m' & k & [= <-] & Hk)]; [by right|]. cbn in Hk.
    destruct (decide (name clip = k)) as [<- | Hne].
    + rewrite lookup_insert_eq in Hk. right. by simplify_eq.
    + rewrite lookup_insert_ne in Hk by done. left. right. eauto.
Qed.

Lemma cursor_start_clip_keeps_to (K : AnimationNameConstants)
    (w : World CursorObject.t) (clipName : string) :
  CursorObject.wf w ->
  keeps_to (cursor_owns (this w))
           (cursor_owns (this (after (cursor_start_clip K clipName) w)))
           (heap w) (heap (after (cursor_start_clip K clipName) w)).
Proof.
  intros Hwf.
  destruct (cursor_start_clip_shape K w clipName Hwf)
    as (_ & [-> | [(r & a & Ha & Hown & _ & -> & Hsub)
                  | (clip & _ & -> & Hsub)]]).
  - by apply keeps_to_same.
  - by apply (keeps_to_insert _ _ _ r a).
  - by apply keeps_to_alloc.
Qed.

Lemma cursor_playAnimation_keeps_to (K : AnimationNameConstants)
    (w : World CursorObject.t) (clipName : string) :
  CursorObject.wf w ->
  console (after (CursorObject.playAnimation K clipName) w) = console w /\
  keeps_to (cursor_owns (this w))
           (cursor_owns (this (after (CursorObject.playAnimation K clipName) w)))
           (heap w) (heap (after (CursorObject.playAnimation K clipName) w)).
Proof.
  intros Hwf. pose proof Hwf as (Hcur & _).
  destruct (cursor_starts K clipName) eqn:Hname; cycle 1.
  { unfold after. rewrite cursor_playAnimation_other_name by done.
    split; [done|]. by apply keeps_to_same. }
  destruct (CursorObject._currentAction (this w)) as [r|] eqn:Hr; cycle 1.
  { unfold after. rewrite (cursor_playAnimation_null K w clipName Hname Hr).
    split; [by apply cursor_start_clip_shape|].
    by apply cursor_start_clip_keeps_to. }
  destruct (Hcur r eq_refl) as [a Ha].
  destruct (time a === CursorObject._currentClipDuration (this w)) eqn:Ht.
  - unfold after.
    rewrite (cursor_playAnimation_at_end K w clipName r a Hname Hr Ha Ht).
    pose proof (cursor_wf_reset w r a Hwf Hr Ha) as Hwf'.
    split; [by apply (cursor_start_clip_shape K _ clipName Hwf')|].
    eapply keeps_to_trans;
      [|apply (cursor_start_clip_keeps_to K _ clipName Hwf')].
    cbn [this heap].
    apply (keeps_to_insert _ _ _ r a); [done|done|by left|done].
  - unfold after. rewrite (cursor_playAnimation_away_from_end K w a clipName).
    + split; [done|]. by apply keeps_to_same.
    + unfold CursorObject.currentAction. by rewrite Hr.
    + done.
Qed.

(** [setCursorPosition] leaves the playback of the pointer proxy alone. *)
Lemma cursor_setCursorPosition_playback (w : World CursorObject.t)
    (intersectPoint : Vector3) :
  let w' := after (CursorObject.setCursorPosition intersectPoint) w in
  heap w' = heap w /\ console w' = console w /\
  CursorObject._currentAction (this w') = CursorObject._currentAction (this w) /\
  CursorObject._mixer (this w') = CursorObject._mixer (this w) /\
  CursorObject._animations (this w') = CursorObject._animations (this w) /\
  CursorObject._currentClipDuration (this w') =
    CursorObject._currentClipDuration (this w) /\
  CursorObject._trigger_centres (this w') = CursorObject._trigger_centres (this w) /\
  (is_Some (CursorObject._model (this w)) ->
   is_Some (CursorObject._model (this w'))).
Proof.
  cbn zeta. unfold after, CursorObject.setCursorPosition, bind, get_this.
  cbn [this]. by destruct (CursorObject._model (this w)).
Qed.

(** Moving the pointer proxy and asking where it is: with the model
    loaded, [setCursorPosition] ends normally, [getPostion] then answers
    twice the point where the ray through the pointer met the plane,
    whatever the position was before, and the playback (the current action,
    the mixer, the actions) and the console are as they were; before the
    model is loaded it throws a TypeError and changes nothing. *)
Theorem setCursorPosition_then_getPostion (w : World CursorObject.t)
    (intersectPoint : Vector3) :
  let w' := after (CursorObject.setCursorPosition intersectPoint) w in
  (is_Some (CursorObject._model (this w)) ->
   outcome (CursorObject.setCursorPosition intersectPoint) w = Normal tt /\
   CursorObject.getPostion w' =
     (Normal (Some (mkVector3 (x intersectPoint * 2) (y intersectPoint * 2)
                              (z intersectPoint * 2))), w') /\
   heap w' = heap w /\ console w' = console w /\
   forall r, cursor_owns (this w') r <-> cursor_owns (this w) r) /\
  (CursorObject._model (this w) = None ->
   CursorObject.setCursorPosition intersectPoint w =
     (Throw (TypeError "this._model.position is undefined"), w)).
Proof.
  cbn zeta. unfold outcome, after, CursorObject.setCursorPosition, bind, get_this.
  cbn [this]. split.
  - intros [model ->]. cbn. by repeat split.
  - by intros ->.
Qed.

(** A request the pointer proxy lets through, for a name its clips hold no
    clip of, made when the current action is at the end of its clip: the
    call throws a TypeError, but not before the current action has been
    reset to time 0; the component itself is as it was.  So, for a clip of
    a duration other than 0, the failed request has closed the door: every
    further request is then a no-op. *)
Theorem cursor_playAnimation_of_a_missing_clip (K : AnimationNameConstants)
    (w : World CursorObject.t) (r : ActionRef) (a : AnimationAction)
    (l : list AnimationClip) (clipName : string) :
  CursorObject._currentAction (this w) = Some r ->
  heap w !! r = Some a ->
  (time a === CursorObject._currentClipDuration (this w)) = true ->
  cursor_starts K clipName = true ->
  CursorObject._animations (this w) = Some l ->
  findByName l (if clipName === TOUCH K then INDEX_FINGER K else clipName) = None ->
  let w' := after (CursorObject.playAnimation K clipName) w in
  outcome (CursorObject.playAnimation K clipName) w = Throw (TypeError "clip is null") /\
  this w' = this w /\ console w' = console w /\
  heap w' = <[r := reset a]> (heap w) /\
  CursorObject.currentAction w' = Some (reset a) /\
  ((0%float === CursorObject._currentClipDuration (this w)) = false ->
   forall clipName',
     CursorObject.playAnimation K clipName' w' = (Normal tt, w')).
Proof.
  intros Hr Ha Ht Hname Hclips Hclip. cbn zeta. unfold outcome, after.
  rewrite (cursor_playAnimation_at_end K w clipName r a Hname Hr Ha Ht).
  rewrite (cursor_start_clip_missing K
             (mkWorld (this w) (<[r := reset a]> (heap w)) (console w))
             l clipName Hclips Hclip).
  cbn [fst snd this heap console].
  assert (Hact : CursorObject.currentAction
                   (mkWorld (this w) (<[r := reset a]> (heap w)) (console w))
                 = Some (reset a)).
  { unfold CursorObject.currentAction. cbn. rewrite Hr. cbn.
    by rewrite list_lookup_insert_eq by (by eapply lookup_lt_Some). }
  repeat split; [exact Hact|].
  intros Hdur clipName'.
  by apply (cursor_playAnimation_away_from_end K _ (reset a)).
Qed.

Lemma setCursorPosition_then_getPostion_witness :
  CursorObject.getPostion cursor_at_head =
    (Normal (Some (mkVector3 75 65 60)), cursor_at_head).
Proof.
  destruct (setCursorPosition_then_getPostion cursor_loaded (mkVector3 37.5 32.5 30))
    as (Hloaded & _).
  destruct Hloaded as (_ & Hget & _); [by eexists|]. exact Hget.
Defined.

Lemma heap_extends_finished (h : list AnimationAction) :
  heap_extends h (finished <$> h).
Proof.
  intros r a Ha. exists (finished a). by rewrite list_lookup_fmap, Ha.
Qed.

Lemma cursor_playAnimation_of_a_missing_clip_witness :
  outcome (CursorObject.playAnimation names "CLICK") cursor_scrolled_without_click
    = Throw (TypeError "clip is null") /\
  (time <$> CursorObject.currentAction
              (after (CursorObject.playAnimation names "CLICK")
                     cursor_scrolled_without_click)) = Some 0%float /\
  CursorObject.playAnimation names "SCROLL"
    (after (CursorObject.playAnimation names "CLICK") cursor_scrolled_without_click) =
    (Normal tt,
     after (CursorObject.playAnimation names "CLICK") cursor_scrolled_without_click).
Proof.
  destruct (cursor_playAnimation_of_a_missing_clip names
              cursor_scrolled_without_click 0
              (finished (cursor_started (newAction (mkClip "SCROLL" 1))))
              (animations hand_without_click) "CLICK"
              eq_refl eq_refl eq_refl eq_refl eq_refl eq_refl)
    as (Hout & _ & _ & _ & Hact & Hclosed).
  split; [exact Hout|]. split; [by rewrite Hact|].
  by apply Hclosed.
Defined.

(** A request made when the current action is at the end of its clip, for
    a clip the mixer has an action for that is not the current one: the
    call ends normally and that action becomes the current one, but the
    action that is reset to time 0, unpaused and enabled is the one that
    was current; the action the request starts keeps its time and its
    paused and enabled flags.  So it runs only if it was enabled and not
    paused, while the action that was current runs again if it is still
    scheduled. *)
Theorem cursor_playAnimation_resets_the_old_action (K : AnimationNameConstants)
    (w : World CursorObject.t) (r r' : ActionRef) (a a' : AnimationAction)
    (l : list AnimationClip) (m : AnimationMixer) (clip : AnimationClip)
    (clipName : string) :
  CursorObject._currentAction (this w) = Some r ->
  heap w !! r = Some a ->
  (time a === CursorObject._currentClipDuration (this w)) = true ->
  cursor_starts K clipName = true ->
  CursorObject._animations (this w) = Some l ->
  CursorObject._mixer (this w) = Some m ->
  findByName l (if clipName === TOUCH K then INDEX_FINGER K else clipName) = Some clip ->
  _actionsByClip m !! name clip = Some r' ->
  heap w !! r' = Some a' ->
  r' <> r ->
  let w' := after (CursorObject.playAnimation K clipName) w in
  outcome (CursorObject.playAnimation K clipName) w = Normal tt /\
  CursorObject._currentAction (this w') = Some r' /\
  (exists started,
      heap w' !! r' = Some started /\
      time started = time a' /\ paused started = paused a' /\
      enabled started = enabled a' /\
      isRunning started = enabled a' && negb (paused a')) /\
  (exists old,
      heap w' !! r = Some old /\
      time old = 0%float /\ paused old = false /\ enabled old = true /\
      isRunning old = negb (timeScale a === 0%float) && scheduled a).
Proof.
  intros Hr Ha Ht Hname Hclips Hmixer Hclip Hcached Ha' Hne.
  cbn zeta. unfold outcome, after.
  rewrite (cursor_playAnimation_at_end K w clipName r a Hname Hr Ha Ht).
  rewrite (cursor_start_clip_cached K
             (mkWorld (this w) (<[r := reset a]> (heap w)) (console w))
             l m clipName clip r' a' Hclips Hmixer Hclip Hcached);
    [|by cbn; rewrite list_lookup_insert_ne].
  cbn [fst snd this heap console].
  split; [done|]. split; [done|]. split.
  - exists (cursor_started a').
    rewrite list_lookup_insert_eq
      by (rewrite length_insert; by eapply lookup_lt_Some).
    repeat split. unfold isRunning. cbn. by rewrite !andb_true_r.
  - exists (reset a).
    rewrite list_lookup_insert_ne by done.
    rewrite list_lookup_insert_eq by (by eapply lookup_lt_Some).
    by repeat split.
Qed.

Lemma cursor_playAnimation_resets_the_old_action_witness :
  outcome (CursorObject.playAnimation names "CLICK") cursor_after_click_and_scroll
    = Normal tt /\
  (name <$> (_clip <$> CursorObject.currentAction
                         (after (CursorObject.playAnimation names "CLICK")
                                cursor_after_click_and_scroll)))
    = Some "CLICK" /\
  (isRunning <$> CursorObject.currentAction
                   (after (CursorObject.playAnimation names "CLICK")
                          cursor_after_click_and_scroll))
    = Some false.
Proof.
  destruct (cursor_playAnimation_resets_the_old_action names
              cursor_after_click_and_scroll 1 0
              (finished (cursor_started (newAction (mkClip "SCROLL" 1))))
              (finished (reset (finished (cursor_started (newAction (mkClip "CLICK" 1))))))
              (animations hand_glb)
              (mkMixer (<["SCROLL" := 1]> (<["CLICK" := 0]> ∅)))
              (mkClip "CLICK" 1) "CLICK")
    as (Hout & Hcur & (started & Hstarted & _ & _ & _ & Hrun) & _);
    try reflexivity.
  - discriminate.
  - split; [exact Hout|]. unfold CursorObject.currentAction.
    rewrite Hcur. cbn [mbind option_bind]. rewrite Hstarted. cbn.
    split; [|by rewrite Hrun].
    vm_compute in Hstarted. by simplify_eq.
Defined.

(* ================================================================== *)
(** * The page: events and frames *)
(* ================================================================== *)

Section Sequencing.

Context {T : Type}.

(** How a sequence ends, and the world it leaves. *)
Lemma outcome_bind {A B : Type} (m : M T A) (k : A -> M T B) (w : World T) :
  outcome (bind m k) w =
    match outcome m w with
    | Normal a => outcome (k a) (after m w)
    | Throw e => Throw e
    end.
Proof. unfold outcome, after, bind. by destruct (m w) as [[a|e] w']. Qed.

Lemma after_bind {A B : Type} (m : M T A) (k : A -> M T B) (w : World T) :
  after (bind m k) w =
    match outcome m w with
    | Normal a => after (k a) (after m w)
    | Throw e => after m w
    end.
Proof. unfold outcome, after, bind. by destruct (m w) as [[a|e] w']. Qed.

(** A property of worlds that each part of a sequence keeps is kept by the
    sequence, whether it ends normally or throws. *)
Lemma after_bind_keeps {A B : Type} (P : World T -> Prop) (m : M T A)
    (k : A -> M T B) (w : World T) :
  P (after m w) ->
  (forall a, outcome m w = Normal a -> P (after (k a) (after m w))) ->
  P (after (bind m k) w).
Proof.
  intros Hm Hk. rewrite after_bind. destruct (outcome m w) as [a|e] eqn:Hout;
    [by apply Hk | exact Hm].
Qed.

End Sequencing.

(** A world is the three things it holds. *)
Lemma World_eta {T : Type} (w : World T) :
  mkWorld (this w) (heap w) (console w) = w.
Proof. by destruct w. Qed.

(** A call on one of the two objects of the page, seen from the page. *)
Lemma on_cursorObject_cursor_world {A : Type} (m : M CursorObject.t A)
    (w : World Home.Page) :
  Home.cursor_world (after (Home.on_cursorObject m) w) = after m (Home.cursor_world w).
Proof.
  unfold after, Home.on_cursorObject, Home.cursor_world. cbn.
  apply World_eta.
Qed.

Lemma on_modelDisplayer_model_world {A : Type} (m : M ModelDisplayer.t A)
    (w : World Home.Page) :
  Home.model_world (after (Home.on_modelDisplayer m) w) = after m (Home.model_world w).
Proof.
  unfold after, Home.on_modelDisplayer, Home.model_world. cbn.
  apply World_eta.
Qed.

(** A call on the pointer proxy that keeps to the actions of the pointer
    proxy leaves the page well formed, and the character with its actions
    as they were; and the same with the two components exchanged. *)
Lemma page_wf_on_cursorObject {A : Type} (m : M CursorObject.t A)
    (w : World Home.Page) :
  page_wf w ->
  CursorObject.wf (after m (Home.cursor_world w)) ->
  keeps_to (cursor_owns (Home.cursorObject (this w)))
           (cursor_owns (this (after m (Home.cursor_world w))))
           (heap w) (heap (after m (Home.cursor_world w))) ->
  page_wf (after (Home.on_cursorObject m) w) /\
  Home.modelDisplayer (this (after (Home.on_cursorObject m) w)) =
    Home.modelDisplayer (this w) /\
  (forall r, model_owns (Home.modelDisplayer (this w)) r ->
             heap (after (Home.on_cursorObject m) w) !! r = heap w !! r).
Proof.
  intros (Hmodel & Hcursor & Hsep) Hwf' (Hext & Hframe & Hsub).
  split; [split; [|split]|split].
  - apply (model_wf_heap_extends _ (heap w) _ (console w)); [|exact Hext].
    exact Hmodel.
  - by rewrite on_cursorObject_cursor_world.
  - intros r Hm Hc. apply Hsub in Hc as [Hc | Hnew]; [by eapply Hsep|].
    pose proof (model_owns_lt (Home.model_world w) r Hmodel Hm) as Hlt.
    cbn in Hlt. lia.
  - reflexivity.
  - intros r Hm. apply Hframe.
    + apply (model_owns_lt (Home.model_world w) r Hmodel Hm).
    + intros Hc. by eapply Hsep.
Qed.

Lemma page_wf_on_modelDisplayer {A : Type} (m : M ModelDisplayer.t A)
    (w : World Home.Page) :
  page_wf w ->
  ModelDisplayer.wf (after m (Home.model_world w)) ->
  keeps_to (model_owns (Home.modelDisplayer (this w)))
           (model_owns (this (after m (Home.model_world w))))
           (heap w) (heap (after m (Home.model_world w))) ->
  page_wf (after (Home.on_modelDisplayer m) w) /\
  Home.cursorObject (this (after (Home.on_modelDisplayer m) w)) =
    Home.cursorObject (this w) /\
  (forall r, cursor_owns (Home.cursorObject (this w)) r ->
             heap (after (Home.on_modelDisplayer m) w) !! r = heap w !! r).
Proof.
  intros (Hmodel & Hcursor & Hsep) Hwf' (Hext & Hframe & Hsub).
  split; [split; [|split]|split].
  - by rewrite on_modelDisplayer_model_world.
  - apply (cursor_wf_heap_extends _ (heap w) _ (console w)); [|exact Hext].
    exact Hcursor.
  - intros r Hm Hc. apply Hsub in Hm as [Hm | Hnew]; [by eapply Hsep|].
    pose proof (cursor_owns_lt (Home.cursor_world w) r Hcursor Hc) as Hlt.
    cbn in Hlt. lia.
  - reflexivity.
  - intros r Hc. apply Hframe.
    + apply (cursor_owns_lt (Home.cursor_world w) r Hcursor Hc).
    + intros Hm. by eapply Hsep.
Qed.

(** The component after [playAnimation]: as it was, or with a mixer and a
    current action assigned (and, for the pointer proxy, the duration of
    the clip). *)
Lemma model_playAnimation_this (w : World ModelDisplayer.t) (clipName : string) :
  ModelDisplayer.wf w ->
  this (after (ModelDisplayer.playAnimation clipName) w) = this w \/
  exists current m,
    this (after (ModelDisplayer.playAnimation clipName) w) =
      ModelDisplayer.set_currentAction current
        (ModelDisplayer.set_mixer (Some m) (this w)).
Proof.
  intros Hwf. pose proof Hwf as (Hcur & Hmix). unfold after.
  destruct (model_at_start_dec w Hwf) as [Hstart | Hnot]; cycle 1.
  { rewrite (model_playAnimation_not_at_start w clipName Hwf Hnot). by left. }
  rewrite (model_playAnimation_at_start w clipName Hstart).
  destruct (ModelDisplayer._model (this w)) as [gltf|] eqn:Hmodel; cycle 1.
  { destruct (model_start_clip_not_loaded w clipName) as [message ->]; [|by left].
    intros ([? Hsome] & _). congruence. }
  destruct (ModelDisplayer._mixer (this w)) as [m|] eqn:Hmixer; cycle 1.
  { destruct (model_start_clip_not_loaded w clipName) as [message ->]; [|by left].
    intros (_ & [? Hsome]). congruence. }
  destruct (findByName (animations gltf) clipName) as [clip|] eqn:Hclip; cycle 1.
  { rewrite (model_start_clip_missing w gltf m clipName Hmodel Hmixer Hclip).
    right. by eexists _, _. }
  cbn in Hmix.
  destruct (_actionsByClip m !! name clip) as [r|] eqn:Hcached.
  - destruct (Hmix m (name clip) r eq_refl Hcached) as (a & l & Ha & Hl & Hfind).
    rewrite (model_start_clip_cached w gltf m clipName clip r a
               Hmodel Hmixer Hclip Hcached Ha).
    right. by eexists _, _.
  - rewrite (model_start_clip_new w gltf m clipName clip
               Hmodel Hmixer Hclip Hcached).
    right. by eexists _, _.
Qed.

Lemma cursor_start_clip_this (K : AnimationNameConstants)
    (w : World CursorObject.t) (clipName : string) :
  CursorObject.wf w ->
  this (after (cursor_start_clip K clipName) w) = this w \/
  exists current m d,
    this (after (cursor_start_clip K clipName) w) =
      CursorObject.set_currentAction current
        (CursorObject.set_mixer (Some m)
           (CursorObject.set_currentClipDuration d (this w))).
Proof.
  intros Hwf. pose proof Hwf as (Hcur & Hmix & Hdur & Hboth). unfold after.
  destruct (CursorObject._animations (this w)) as [l|] eqn:Hclips; cycle 1.
  { destruct (cursor_start_clip_no_clip K w clipName) as [message ->]; [|by left].
    intros l Hl. congruence. }
  destruct (findByName l (if clipName === TOUCH K then INDEX_FINGER K else clipName))
    as [clip|] eqn:Hclip; cycle 1.
  { rewrite (cursor_start_clip_missing K w l clipName Hclips Hclip). by left. }
  destruct Hboth as [m Hmixer]; [by eauto|].
  destruct (_actionsByClip m !! name clip) as [r|] eqn:Hcached.
  - destruct (Hmix m (name clip) r Hmixer Hcached) as (a & l' & Ha & Hl & Hfind).
    rewrite (cursor_start_clip_cached K w l m clipName clip r a
               Hclips Hmixer Hclip Hcached Ha).
    right. by eexists _, _, _.
  - rewrite (cursor_start_clip_new K w l m clipName clip
               Hclips Hmixer Hclip Hcached).
    right. by eexists _, _, _.
Qed.

Lemma cursor_playAnimation_this (K : AnimationNameConstants)
    (w : World CursorObject.t) (clipName : string) :
  CursorObject.wf w ->
  this (after (CursorObject.playAnimation K clipName) w) = this w \/
  exists current m d,
    this (after (CursorObject.playAnimation K clipName) w) =
      CursorObject.set_currentAction current
        (CursorObject.set_mixer (Some m)
           (CursorObject.set_currentClipDuration d (this w))).
Proof.
  intros Hwf. pose proof Hwf as (Hcur & _).
  destruct (cursor_starts K clipName) eqn:Hname; cycle 1.
  { unfold after. rewrite cursor_playAnimation_other_name by done. by left. }
  destruct (CursorObject._currentAction (this w)) as [r|] eqn:Hr; cycle 1.
  { unfold after. rewrite (cursor_playAnimation_null K w clipName Hname Hr).
    by apply cursor_start_clip_this. }
  destruct (Hcur r eq_refl) as [a Ha].
  destruct (time a === CursorObject._currentClipDuration (this w)) eqn:Ht.
  - unfold after.
    rewrite (cursor_playAnimation_at_end K w clipName r a Hname Hr Ha Ht).
    apply (cursor_start_clip_this K
             (mkWorld (this w) (<[r := reset a]> (heap w)) (console w)) clipName).
    by apply cursor_wf_reset.
  - unfold after. rewrite (cursor_playAnimation_away_from_end K w a clipName);
      [by left| |done].
    unfold CursorObject.currentAction. by rewrite Hr.
Qed.

Section PageInvariant.

Variable K : AnimationNameConstants.
Variables characterClips handClips : list AnimationClip.

Implicit Type w : World Home.Page.

(** Each call of the handlers keeps the page well formed and loaded. *)
Lemma page_keeps_setCursorPosition w (intersectPoint : Vector3) :
  page_wf w /\ page_loaded K characterClips handClips w ->
  page_wf (after (Home.on_cursorObject
                    (CursorObject.setCursorPosition intersectPoint)) w) /\
  page_loaded K characterClips handClips
    (after (Home.on_cursorObject (CursorObject.setCursorPosition intersectPoint)) w).
Proof.
  intros (Hwf & Hm & Hmx & Hc & Hcx & Hclips & Htrig).
  pose proof (cursor_setCursorPosition_playback (Home.cursor_world w) intersectPoint)
    as (Hheap & Hcon & Hcur & Hmixer & Hanim & Hdur & Hcentres & Hmodel).
  split.
  - apply page_wf_on_cursorObject; [done| |].
    + apply cursor_wf_setCursorPosition. by destruct Hwf as (_ & ? & _).
    + rewrite Hheap. apply keeps_to_same. unfold cursor_owns.
      rewrite Hcur, Hmixer. done.
  - unfold page_loaded.
    change (Home.cursorObject (this (after (Home.on_cursorObject
              (CursorObject.setCursorPosition intersectPoint)) w)))
      with (this (after (CursorObject.setCursorPosition intersectPoint)
                        (Home.cursor_world w))).
    rewrite Hmixer, Hanim, Hcentres. repeat split; try done. by apply Hmodel.
Qed.

Lemma page_after_query {A : Type} (m : M CursorObject.t A) w :
  after m (Home.cursor_world w) = Home.cursor_world w ->
  after (Home.on_cursorObject m) w = w.
Proof.
  unfold after, Home.on_cursorObject. cbn. intros ->.
  by destruct w as [[md co] h c].
Qed.

Lemma page_keeps_model_playAnimation w (clipName : string) :
  page_wf w /\ page_loaded K characterClips handClips w ->
  page_wf (after (Home.on_modelDisplayer (ModelDisplayer.playAnimation clipName)) w) /\
  page_loaded K characterClips handClips
    (after (Home.on_modelDisplayer (ModelDisplayer.playAnimation clipName)) w).
Proof.
  intros (Hwf & Hm & Hmx & Hc & Hcx & Hclips & Htrig).
  assert (Hmodel : ModelDisplayer.wf (Home.model_world w)) by (by destruct Hwf).
  split.
  - apply page_wf_on_modelDisplayer; [done| |].
    + by apply model_wf_playAnimation.
    + by apply (model_playAnimation_keeps_to (Home.model_world w)).
  - unfold page_loaded.
    change (Home.cursorObject (this (after (Home.on_modelDisplayer
              (ModelDisplayer.playAnimation clipName)) w)))
      with (Home.cursorObject (this w)).
    change (Home.modelDisplayer (this (after (Home.on_modelDisplayer
              (ModelDisplayer.playAnimation clipName)) w)))
      with (this (after (ModelDisplayer.playAnimation clipName) (Home.model_world w))).
    destruct (model_playAnimation_this (Home.model_world w) clipName Hmodel)
      as [-> | (current & m & ->)]; [done|].
    cbn. repeat split; try done; by eexists.
Qed.

Lemma page_keeps_model_revert w :
  page_wf w /\ page_loaded K characterClips handClips w ->
  page_wf (after (Home.on_modelDisplayer ModelDisplayer.revertToOriginalPosition) w) /\
  page_loaded K characterClips handClips
    (after (Home.on_modelDisplayer ModelDisplayer.revertToOriginalPosition) w).
Proof.
  intros (Hwf & Hloaded).
  assert (Hmodel : ModelDisplayer.wf (Home.model_world w)) by (by destruct Hwf).
  split.
  - apply page_wf_on_modelDisplayer; [done| |].
    + by apply model_wf_revert.
    + by apply (model_revert_keeps_to (Home.model_world w)).
  - unfold page_loaded.
    change (Home.cursorObject (this (after (Home.on_modelDisplayer
              ModelDisplayer.revertToOriginalPosition) w)))
      with (Home.cursorObject (this w)).
    change (Home.modelDisplayer (this (after (Home.on_modelDisplayer
              ModelDisplayer.revertToOriginalPosition) w)))
      with (this (after ModelDisplayer.revertToOriginalPosition (Home.model_world w))).
    destruct (model_revert_shape (Home.model_world w) Hmodel) as (_ & -> & _).
    exact Hloaded.
Qed.

Lemma page_keeps_cursor_playAnimation w (clipName : string) :
  page_wf w /\ page_loaded K characterClips handClips w ->
  page_wf (after (Home.on_cursorObject (CursorObject.playAnimation K clipName)) w) /\
  page_loaded K characterClips handClips
    (after (Home.on_cursorObject (CursorObject.playAnimation K clipName)) w).
Proof.
  intros (Hwf & Hm & Hmx & Hc & Hcx & Hclips & Htrig).
  assert (Hcursor : CursorObject.wf (Home.cursor_world w))
    by (by destruct Hwf as (_ & ? & _)).
  split.
  - apply page_wf_on_cursorObject; [done| |].
    + by apply cursor_wf_playAnimation.
    + by apply (cursor_playAnimation_keeps_to K (Home.cursor_world w)).
  - unfold page_loaded.
    change (Home.modelDisplayer (this (after (Home.on_cursorObject
              (CursorObject.playAnimation K clipName)) w)))
      with (Home.modelDisplayer (this w)).
    change (Home.cursorObject (this (after (Home.on_cursorObject
              (CursorObject.playAnimation K clipName)) w)))
      with (this (after (CursorObject.playAnimation K clipName) (Home.cursor_world w))).
    destruct (cursor_playAnimation_this K (Home.cursor_world w) clipName Hcursor)
      as [-> | (current & m & d & ->)]; [done|].
    cbn. repeat split; try done; by eexists.
Qed.

(** What is written to the console is no part of the invariant. *)
Lemma page_keeps_console_log w (position : option Vector3) :
  page_wf w /\ page_loaded K characterClips handClips w ->
  page_wf (after (console_log position) w) /\
  page_loaded K characterClips handClips (after (console_log position) w).
Proof.
  intros ((Hmodel & Hcursor & Hsep) & Hloaded). split; [|exact Hloaded].
  split; [|split; [|exact Hsep]].
  - apply (model_wf_heap_extends _ (heap w) _ (console w));
      [exact Hmodel | apply heap_extends_refl].
  - apply (cursor_wf_heap_extends _ (heap w) _ (console w));
      [exact Hcursor | apply heap_extends_refl].
Qed.

(** So does each handler, whether it ends normally or throws. *)
Lemma page_keeps_handler w (e : Event) :
  page_wf w /\ page_loaded K characterClips handClips w ->
  page_wf (after (handler K e) w) /\
  page_loaded K characterClips handClips (after (handler K e) w).
Proof.
  intros Hinv. destruct e as [intersectPoint | |]; cbn [handler].
  - unfold Home.mousemove.
    apply (after_bind_keeps
             (fun w => page_wf w /\ page_loaded K characterClips handClips w));
      [by apply page_keeps_setCursorPosition|].
    intros _ _.
    pose proof (page_keeps_setCursorPosition w intersectPoint Hinv) as Hinv1.
    set (w1 := after (Home.on_cursorObject
                        (CursorObject.setCursorPosition intersectPoint)) w) in *.
    assert (Hquery : after (Home.on_cursorObject (CursorObject.getModelAnimation K)) w1
                     = w1).
    { apply page_after_query, getModelAnimation_world_unchanged. }
    apply (after_bind_keeps
             (fun w => page_wf w /\ page_loaded K characterClips handClips w));
      [by rewrite Hquery|].
    intros animation _. rewrite Hquery.
    destruct (animation === NONE K); [by apply page_keeps_model_revert|].
    apply (after_bind_keeps
             (fun w => page_wf w /\ page_loaded K characterClips handClips w));
      [by apply page_keeps_model_playAnimation|].
    intros _ _. by apply page_keeps_cursor_playAnimation, page_keeps_model_playAnimation.
  - unfold Home.click.
    apply (after_bind_keeps
             (fun w => page_wf w /\ page_loaded K characterClips handClips w));
      [by apply page_keeps_cursor_playAnimation|].
    intros _ _.
    pose proof (page_keeps_cursor_playAnimation w (CLICK K) Hinv) as Hinv1.
    set (w1 := after (Home.on_cursorObject
                        (CursorObject.playAnimation K (CLICK K))) w) in *.
    assert (Hquery : after (Home.on_cursorObject CursorObject.getPostion) w1 = w1).
    { by apply page_after_query. }
    apply (after_bind_keeps
             (fun w => page_wf w /\ page_loaded K characterClips handClips w));
      [by rewrite Hquery|].
    intros position _. rewrite Hquery. by apply page_keeps_console_log.
  - by apply page_keeps_cursor_playAnimation.
Qed.

(** And so does each frame. *)
Lemma page_keeps_animate w w' :
  animate w w' ->
  page_wf w /\ page_loaded K characterClips handClips w ->
  page_wf w' /\ page_loaded K characterClips handClips w'.
Proof.
  intros (Hthis & Hcon & Hlen & Hext) ((Hmodel & Hcursor & Hsep) & Hloaded).
  unfold page_wf, page_loaded, Home.model_world, Home.cursor_world.
  rewrite Hthis. split; [|exact Hloaded]. split; [|split; [|exact Hsep]].
  - by apply (model_wf_heap_extends _ (heap w) _ (console w)).
  - by apply (cursor_wf_heap_extends _ (heap w) _ (console w)).
Qed.

End PageInvariant.

(** From the moment the handlers are bound the page is well formed and
    loaded, whatever events and frames follow. *)
Lemma reachable_keeps (K : AnimationNameConstants) (character hand : LoaderOutcome)
    (w : World Home.Page) :
  reachable K character hand w ->
  exists characterAsset characterCentre handAsset handCentre,
    character = Loaded characterAsset characterCentre /\
    hand = Loaded handAsset handCentre /\
    page_wf w /\
    page_loaded K (animations characterAsset) (animations handAsset) w.
Proof.
  induction 1 as [Hready | w e _ IH | w w' _ IH Hframe].
  - destruct character as [cg cc | error]; [|discriminate].
    destruct hand as [hg hc | error]; [|discriminate].
    exists cg, cc, hg, hc. split; [done|]. split; [done|]. split.
    + split; [|split].
      * split; cbn; [intros r [=]|]. intros m k r [= <-]. cbn.
        by rewrite lookup_empty.
      * split; [|split; [|split]]; cbn; [intros r [=]| |intros a [=]|by eauto].
        intros m k r [= <-]. cbn. by rewrite lookup_empty.
      * cbn. intros r [[=] | (m & k & [= <-] & Hk)]. cbn in Hk.
        by rewrite lookup_empty in Hk.
    + cbn. by repeat split.
  - destruct IH as (cg & cc & hg & hc & -> & -> & Hwf & Hloaded).
    exists cg, cc, hg, hc. split; [done|]. split; [done|].
    by apply page_keeps_handler.
  - destruct IH as (cg & cc & hg & hc & -> & -> & Hwf & Hloaded).
    exists cg, cc, hg, hc. split; [done|]. split; [done|].
    by apply (page_keeps_animate K _ _ w w').
Qed.

(** From the moment the handlers are bound, and through every event and
    every frame that follows, the two components stay well formed and
    loaded, with the clips of their assets and the trigger points of the
    constructor, and no action is held by both. *)
Theorem reachable_pages_are_well_formed (K : AnimationNameConstants)
    (character hand : LoaderOutcome) (w : World Home.Page) :
  reachable K character hand w ->
  ModelDisplayer.wf (Home.model_world w) /\
  ModelDisplayer.loaded (Home.model_world w) /\
  CursorObject.wf (Home.cursor_world w) /\
  CursorObject.loaded (Home.cursor_world w) /\
  CursorObject._trigger_centres (Home.cursorObject (this w)) =
    CursorObject._trigger_centres (CursorObject.constructor K) /\
  (forall r, model_owns (Home.modelDisplayer (this w)) r ->
             cursor_owns (Home.cursorObject (this w)) r -> False) /\
  exists characterAsset characterCentre handAsset handCentre,
    character = Loaded characterAsset characterCentre /\
    hand = Loaded handAsset handCentre /\
    animations <$> ModelDisplayer._model (Home.modelDisplayer (this w))
      = Some (animations characterAsset) /\
    CursorObject._animations (Home.cursorObject (this w))
      = Some (animations handAsset).
Proof.
  intros (cg & cc & hg & hc & -> & -> & (Hmodel & Hcursor & Hsep) &
          (Hm & Hmx & Hc & Hcx & Hclips & Htrig))%reachable_keeps.
  split; [done|]. split.
  { split; [|done]. cbn. by destruct (ModelDisplayer._model _). }
  split; [done|]. split.
  { split; [done|]. split; [done|]. cbn. rewrite Hclips. by eexists. }
  split; [done|]. split; [done|].
  by exists cg, cc, hg, hc.
Qed.

Lemma page_on_head_reachable :
  reachable names (Loaded char_2_glb (mkVector3 0 0 0))
            (Loaded hand_glb (mkVector3 0 0 0)) page_on_head.
Proof.
  apply (reachable_event _ _ _ page_ready (Mousemove (mkVector3 37.5 32.5 30))).
  by apply reachable_ready.
Qed.

Lemma reachable_pages_are_well_formed_witness :
  ModelDisplayer.wf (Home.model_world page_on_head) /\
  CursorObject.wf (Home.cursor_world page_on_head).
Proof.
  destruct (reachable_pages_are_well_formed names _ _ page_on_head
              page_on_head_reachable) as (Hmodel & _ & Hcursor & _).
  by split.
Defined.

(** The names the selector of a new pointer proxy can answer. *)
Lemma select_constructor_range (K : AnimationNameConstants) (pos : Vector3) :
  fold_left (select_step pos)
    (entries (CursorObject._trigger_centres (CursorObject.constructor K))) (NONE K)
  ∈ [NONE K; TOUCH K; SHOES K; HEAD K; LA K].
Proof.
  destruct (select_sound pos
              (entries (CursorObject._trigger_centres (CursorObject.constructor K)))
              (NONE K)) as [-> | (centre & Hin & _)]; [apply list_elem_of_here|].
  apply Map_new_elem in Hin. apply list_elem_of_further.
  apply (list_elem_of_fmap_2 fst) in Hin. exact Hin.
Qed.

(** The names [CursorObject.playAnimation] lets through ask for a clip of
    the name LA, SCROLL, CLICK or INDEX_FINGER. *)
Lemma cursor_starts_asks (K : AnimationNameConstants) (clipName : string) :
  cursor_starts K clipName = true ->
  (if clipName === TOUCH K then INDEX_FINGER K else clipName)
  ∈ [LA K; SCROLL K; CLICK K; INDEX_FINGER K].
Proof.
  unfold cursor_starts, strict_eq, string_strict_eq.
  destruct (String.eqb clipName (TOUCH K)) eqn:Htouch.
  { intros _. do 3 apply list_elem_of_further. apply list_elem_of_here. }
  rewrite orb_false_r. intros [[Hla | Hscroll]%orb_true_iff | Hclick]%orb_true_iff.
  - apply String.eqb_eq in Hla as ->. apply list_elem_of_here.
  - apply String.eqb_eq in Hscroll as ->. apply list_elem_of_further, list_elem_of_here.
  - apply String.eqb_eq in Hclick as ->.
    do 2 apply list_elem_of_further. apply list_elem_of_here.
Qed.

(** With complete assets, each handler ends normally in a page that is
    well formed and loaded. *)
Lemma handler_ends (K : AnimationNameConstants)
    (characterClips handClips : list AnimationClip) (w : World Home.Page)
    (e : Event) :
  assets_complete K characterClips handClips ->
  page_wf w -> page_loaded K characterClips handClips w ->
  outcome (handler K e) w = Normal tt.
Proof.
  intros (Hcharacter & Hhand) Hwf Hloaded.
  assert (Hcursor_play : forall w' clipName,
             page_wf w' -> page_loaded K characterClips handClips w' ->
             outcome (Home.on_cursorObject (CursorObject.playAnimation K clipName)) w'
             = Normal tt).
  { intros w' clipName (_ & Hcursor & _) (_ & _ & _ & _ & Hclips & _).
    apply (cursor_playAnimation_ends K (Home.cursor_world w') handClips clipName);
      [done|done|].
    intros Hname. by apply Hhand, cursor_starts_asks. }
  destruct e as [intersectPoint | |]; cbn [handler].
  - unfold Home.mousemove. rewrite outcome_bind.
    pose proof (page_keeps_setCursorPosition K _ _ w intersectPoint
                  (conj Hwf Hloaded)) as (Hwf1 & Hloaded1).
    assert (Hset : outcome (Home.on_cursorObject
                              (CursorObject.setCursorPosition intersectPoint)) w
                   = Normal tt).
    { destruct Hloaded as (_ & _ & [model Hmodel] & _).
      unfold outcome, Home.on_cursorObject, CursorObject.setCursorPosition,
        bind, get_this. cbn. by rewrite Hmodel. }
    rewrite Hset.
    set (w1 := after (Home.on_cursorObject
                        (CursorObject.setCursorPosition intersectPoint)) w) in *.
    rewrite outcome_bind.
    destruct Hloaded1 as (Hm & Hmx & [model Hmodel] & Hcx & Hclips & Htrig).
    pose proof (getModelAnimation_loaded K (position model) (Home.cursor_world w1))
      as Hselect.
    unfold Home.cursor_world in Hselect. cbn [this] in Hselect.
    rewrite Htrig in Hselect.
    assert (Hout : Home.on_cursorObject (CursorObject.getModelAnimation K) w1 =
                   (Normal (fold_left (select_step (position model))
                              (entries (CursorObject._trigger_centres
                                          (CursorObject.constructor K))) (NONE K)), w1)).
    { unfold Home.on_cursorObject, Home.cursor_world.
      rewrite Hselect by (by rewrite Hmodel).
      cbn. by destruct w1 as [[md co] h c]. }
    pose proof (select_constructor_range K (position model)) as Hrange.
    set (animation := fold_left _ _ _) in *.
    assert (Hanswer : outcome (Home.on_cursorObject (CursorObject.getModelAnimation K)) w1
                      = Normal animation) by (unfold outcome; by rewrite Hout).
    assert (Hsame : after (Home.on_cursorObject (CursorObject.getModelAnimation K)) w1
                    = w1) by (unfold after; by rewrite Hout).
    rewrite Hanswer, Hsame.
    destruct (animation === NONE K) eqn:Hnone.
    + apply (model_revert_ends (Home.model_world w1)). by destruct Hwf1.
    + rewrite outcome_bind.
      assert (Hplay : outcome (Home.on_modelDisplayer
                                 (ModelDisplayer.playAnimation animation)) w1
                      = Normal tt).
      { apply fmap_Some in Hm as (gltf & Hgltf & Hanim).
        apply (model_playAnimation_ends (Home.model_world w1) gltf animation).
        - by destruct Hwf1.
        - split; [by eexists|done].
        - done.
        - rewrite <- Hanim. apply Hcharacter.
          apply elem_of_cons in Hrange as [Heq | Hin]; [|done].
          apply String.eqb_neq in Hnone. done. }
      rewrite Hplay.
      pose proof (page_keeps_model_playAnimation K _ _ w1 animation
                    (conj Hwf1 (conj Hm (conj Hmx (conj (ex_intro _ model Hmodel)
                       (conj Hcx (conj Hclips Htrig))))))) as (Hwf2 & Hloaded2).
      by apply Hcursor_play.
  - unfold Home.click. rewrite outcome_bind.
    by rewrite (Hcursor_play w (CLICK K) Hwf Hloaded).
  - by apply Hcursor_play.
Qed.

(** With assets that have a clip for every name the handlers may ask them
    for, no handler ever throws: from the moment the handlers are bound,
    through every event and every frame, each handler ends normally. *)
Theorem handlers_end_normally (K : AnimationNameConstants)
    (characterAsset handAsset : GLTF) (characterCentre handCentre : Vector3)
    (w : World Home.Page) (e : Event) :
  assets_complete K (animations characterAsset) (animations handAsset) ->
  reachable K (Loaded characterAsset characterCentre)
            (Loaded handAsset handCentre) w ->
  outcome (handler K e) w = Normal tt.
Proof.
  intros Hcomplete
    (cg & cc & hg & hc & [= <- <-] & [= <- <-] & Hwf & Hloaded)%reachable_keeps.
  by apply (handler_ends K (animations characterAsset) (animations handAsset)).
Qed.

Lemma names_assets_complete :
  assets_complete names (animations char_2_glb) (animations hand_glb).
Proof.
  split; intros clipName Hin;
    repeat (apply elem_of_cons in Hin as [-> | Hin]; [by eexists|]);
    by apply elem_of_nil in Hin.
Qed.

Lemma handlers_end_normally_witness :
  outcome (handler names Click) page_on_head = Normal tt.
Proof.
  apply (handlers_end_normally names char_2_glb hand_glb
           (mkVector3 0 0 0) (mkVector3 0 0 0) page_on_head Click
           names_assets_complete page_on_head_reachable).
Defined.

(** A click and a scroll leave the character alone: in a well-formed page
    the handlers of [click] and of [scroll] leave the scene host as it
    was, and every action it holds (its current action and the actions of
    its mixer) as it was, whether they end normally or throw. *)
Theorem click_and_scroll_leave_the_character (K : AnimationNameConstants)
    (w : World Home.Page) (e : Event) :
  page_wf w -> e = Click \/ e = Scroll ->
  Home.modelDisplayer (this (after (handler K e) w)) = Home.modelDisplayer (this w) /\
  (forall r, model_owns (Home.modelDisplayer (this w)) r ->
             heap (after (handler K e) w) !! r = heap w !! r) /\
  ModelDisplayer.currentAction (Home.model_world (after (handler K e) w)) =
    ModelDisplayer.currentAction (Home.model_world w).
Proof.
  intros Hwf He.
  assert (Hcursor : CursorObject.wf (Home.cursor_world w))
    by (by destruct Hwf as (_ & ? & _)).
  assert (Hplay : forall clipName,
             Home.modelDisplayer
               (this (after (Home.on_cursorObject
                               (CursorObject.playAnimation K clipName)) w)) =
               Home.modelDisplayer (this w) /\
             forall r, model_owns (Home.modelDisplayer (this w)) r ->
                       heap (after (Home.on_cursorObject
                                      (CursorObject.playAnimation K clipName)) w) !! r
                       = heap w !! r).
  { intros clipName.
    apply (page_wf_on_cursorObject (CursorObject.playAnimation K clipName) w Hwf).
    - by apply cursor_wf_playAnimation.
    - by apply (cursor_playAnimation_keeps_to K (Home.cursor_world w)). }
  assert (Hboth : Home.modelDisplayer (this (after (handler K e) w)) =
                    Home.modelDisplayer (this w) /\
                  forall r, model_owns (Home.modelDisplayer (this w)) r ->
                            heap (after (handler K e) w) !! r = heap w !! r).
  { destruct He as [-> | ->]; cbn [handler]; [|by apply Hplay].
    unfold Home.click.
    apply (after_bind_keeps
             (fun w' => Home.modelDisplayer (this w') = Home.modelDisplayer (this w) /\
                        forall r, model_owns (Home.modelDisplayer (this w)) r ->
                                  heap w' !! r = heap w !! r));
      [by apply Hplay|].
    intros _ _.
    set (w1 := after (Home.on_cursorObject
                        (CursorObject.playAnimation K (CLICK K))) w) in *.
    assert (Hquery : after (Home.on_cursorObject CursorObject.getPostion) w1 = w1).
    { by apply page_after_query. }
    apply (after_bind_keeps
             (fun w' => Home.modelDisplayer (this w') = Home.modelDisplayer (this w) /\
                        forall r, model_owns (Home.modelDisplayer (this w)) r ->
                                  heap w' !! r = heap w !! r));
      [rewrite Hquery; by apply Hplay|].
    intros position _. rewrite Hquery. by apply Hplay. }
  destruct Hboth as (Hthis & Hheap). split; [done|]. split; [done|].
  unfold ModelDisplayer.currentAction, Home.model_world. cbn [this heap].
  rewrite Hthis.
  destruct (ModelDisplayer._currentAction (Home.modelDisplayer (this w)))
    as [r|] eqn:Hr; [|done].
  cbn. apply Hheap. by left.
Qed.

Lemma page_on_head_wf : page_wf page_on_head.
Proof.
  destruct (reachable_keeps _ _ _ _ page_on_head_reachable)
    as (cg & cc & hg & hc & _ & _ & Hwf & _).
  exact Hwf.
Qed.

Lemma click_and_scroll_leave_the_character_witness :
  ModelDisplayer.currentAction (Home.model_world (after (handler names Click) page_on_head))
  = ModelDisplayer.currentAction (Home.model_world page_on_head) /\
  (name <$> (_clip <$> ModelDisplayer.currentAction (Home.model_world page_on_head)))
  = Some "HEAD".
Proof.
  destruct (click_and_scroll_leave_the_character names page_on_head Click
              page_on_head_wf (or_introl eq_refl)) as (_ & _ & Hcur).
  split; [exact Hcur|reflexivity].
Defined.

(** The run of [ModelDisplayer.playAnimation] for a name the asset has no
    clip of, at the boundary. *)
Lemma model_playAnimation_of_a_missing_clip_run (w : World ModelDisplayer.t)
    (gltf : GLTF) (clipName : string) :
  ModelDisplayer._model (this w) = Some gltf ->
  is_Some (ModelDisplayer._mixer (this w)) ->
  model_at_start w ->
  findByName (animations gltf) clipName = None ->
  exists m,
    ModelDisplayer.playAnimation clipName w =
      (Throw (TypeError "this._currentAction is null"),
       mkWorld (ModelDisplayer.set_currentAction None
                  (ModelDisplayer.set_mixer (Some m) (this w)))
               (heap w) (console w)).
Proof.
  intros Hmodel [m Hmixer] Hstart Hclip. exists m.
  rewrite (model_playAnimation_at_start w clipName Hstart).
  by apply model_start_clip_missing with (gltf := gltf).
Qed.

(** A pointer that moves onto a trigger point whose name the asset of the
    character has no clip of, while the character is at the boundary where
    it starts a clip: the handler of [mousemove] throws a TypeError out of
    [modelDisplayer.playAnimation], so the call of
    [cursorObject.playAnimation] that follows it is not made.  The pointer
    proxy has been moved and is otherwise as it was, no action has been
    written, and the character has no current action any more. *)
Theorem mousemove_onto_a_missing_clip (K : AnimationNameConstants)
    (w : World Home.Page) (intersectPoint : Vector3) (gltf : GLTF)
    (animation : string) :
  is_Some (CursorObject._model (Home.cursorObject (this w))) ->
  fold_left (select_step (multiplyScalar 2 intersectPoint))
    (entries (CursorObject._trigger_centres (Home.cursorObject (this w)))) (NONE K)
    = animation ->
  (animation === NONE K) = false ->
  ModelDisplayer._model (Home.modelDisplayer (this w)) = Some gltf ->
  is_Some (ModelDisplayer._mixer (Home.modelDisplayer (this w))) ->
  model_at_start (Home.model_world w) ->
  findByName (animations gltf) animation = None ->
  outcome (Home.mousemove K intersectPoint) w =
    Throw (TypeError "this._currentAction is null") /\
  Home.cursorObject (this (after (Home.mousemove K intersectPoint) w)) =
    CursorObject.set_model (Some (mkObject3D (multiplyScalar 2 intersectPoint)))
      (Home.cursorObject (this w)) /\
  heap (after (Home.mousemove K intersectPoint) w) = heap w /\
  console (after (Home.mousemove K intersectPoint) w) = console w /\
  ModelDisplayer._currentAction
    (Home.modelDisplayer (this (after (Home.mousemove K intersectPoint) w))) = None.
Proof.
  intros [model Hmodel] Hselect Hnone Hgltf Hmixer Hstart Hclip.
  set (w1 := mkWorld
               (Home.mkPage (Home.modelDisplayer (this w))
                  (CursorObject.set_model
                     (Some (mkObject3D (multiplyScalar 2 intersectPoint)))
                     (Home.cursorObject (this w))))
               (heap w) (console w)).
  assert (Hset : Home.on_cursorObject (CursorObject.setCursorPosition intersectPoint) w
                 = (Normal tt, w1)).
  { unfold Home.on_cursorObject, CursorObject.setCursorPosition, bind, get_this.
    cbn. by rewrite Hmodel. }
  assert (Hget : Home.on_cursorObject (CursorObject.getModelAnimation K) w1
                 = (Normal animation, w1)).
  { unfold Home.on_cursorObject.
    rewrite (getModelAnimation_loaded K (multiplyScalar 2 intersectPoint)
               (Home.cursor_world w1) eq_refl).
    cbn. by rewrite Hselect. }
  destruct (model_playAnimation_of_a_missing_clip_run (Home.model_world w1) gltf
              animation Hgltf Hmixer Hstart Hclip) as (m & Hrun).
  unfold outcome, after, Home.mousemove.
  rewrite (bind_Normal _ _ _ _ _ Hset), (bind_Normal _ _ _ _ _ Hget), Hnone.
  unfold bind, Home.on_modelDisplayer. rewrite Hrun. by cbn.
Qed.

Lemma mousemove_onto_a_missing_clip_witness :
  outcome (Home.mousemove names (mkVector3 37.5 32.5 30)) page_without_head =
    Throw (TypeError "this._currentAction is null") /\
  CursorObject._currentAction
    (Home.cursorObject
       (this (after (Home.mousemove names (mkVector3 37.5 32.5 30)) page_without_head)))
    = None.
Proof.
  destruct (mousemove_onto_a_missing_clip names page_without_head
              (mkVector3 37.5 32.5 30)
              (mkGLTF (mkObject3D (mkVector3 0 (-80) 0)) (animations char_without_head))
              "HEAD") as (Hout & Hcursor & _).
  - by eexists.
  - reflexivity.
  - reflexivity.
  - reflexivity.
  - by eexists.
  - by left.
  - reflexivity.
  - split; [exact Hout|]. by rewrite Hcursor.
Defined.

(* ================================================================== *)
(** * The regions of the page *)
(* ================================================================== *)

(** Whatever [Math.pow] computes: a distance is never below zero; the
    top-most point of a region is within the region exactly when the
    radius of the region is a number; and a pointer whose distance to the
    centre is not a number is within no region, as is every pointer when
    the radius is not a number. *)
Theorem isWithinTriggerRegion_at_the_rim (Math_pow : float -> float -> float)
    (region : RegionKeyPoints) :
  (forall p1 p2, (euclidianDistance Math_pow p1 p2 <? 0)%float = false) /\
  isWithinTriggerRegion Math_pow (top region) region =
    negb (PrimFloat.is_nan (euclidianDistance Math_pow (center region) (top region))) /\
  (forall mousePosition,
      PrimFloat.is_nan (euclidianDistance Math_pow (center region) mousePosition) = true \/
      PrimFloat.is_nan (euclidianDistance Math_pow (center region) (top region)) = true ->
      isWithinTriggerRegion Math_pow mousePosition region = false).
Proof.
  split; [intros p1 p2; apply sqrt_not_negative|]. split.
  - unfold isWithinTriggerRegion. apply leb_refl_number.
  - intros mousePosition Hnan. unfold isWithinTriggerRegion. by apply is_nan_leb.
Qed.

Lemma isWithinTriggerRegion_at_the_rim_witness :
  isWithinTriggerRegion (fun base exponent => (base * base)%float)
    (mkPoint 0 10) (mkRegion (mkPoint 0 0) (mkPoint 0 10)) = true.
Proof.
  destruct (isWithinTriggerRegion_at_the_rim
              (fun base exponent => (base * base)%float)
              (mkRegion (mkPoint 0 0) (mkPoint 0 10))) as (_ & Htop & _).
  exact Htop.
Defined.

(* ================================================================== *)
(** * The pointer proxy plays one clip at a time *)
(* ================================================================== *)

(** A request the pointer proxy lets through, made at the boundary (no
    current action, or the current action at the end of its clip), for a
    clip of the asset that its mixer has no action for yet: the call ends
    normally, the current action is a new action of that clip, at time 0
    and running; and, the clip having a duration other than 0, every
    request that follows before an action has moved is a no-op, whatever
    its name. *)
Theorem cursor_new_clip_closes_the_door (K : AnimationNameConstants)
    (w : World CursorObject.t) (l : list AnimationClip) (m : AnimationMixer)
    (clip : AnimationClip) (clipName : string) :
  CursorObject.wf w -> cursor_at_end w ->
  cursor_starts K clipName = true ->
  CursorObject._animations (this w) = Some l ->
  CursorObject._mixer (this w) = Some m ->
  findByName l (if clipName === TOUCH K then INDEX_FINGER K else clipName) = Some clip ->
  _actionsByClip m !! name clip = None ->
  (0%float === duration clip) = false ->
  let w' := after (CursorObject.playAnimation K clipName) w in
  outcome (CursorObject.playAnimation K clipName) w = Normal tt /\
  (exists a, CursorObject.currentAction w' = Some a /\
             _clip a = clip /\ time a = 0%float /\ isRunning a = true) /\
  (forall clipName', CursorObject.playAnimation K clipName' w' = (Normal tt, w')).
Proof.
  intros Hwf Hend Hname Hclips Hmixer Hclip Hnew Hdur. cbn zeta.
  assert (Hrun : exists w0,
             CursorObject._animations (this w0) = Some l /\
             CursorObject._mixer (this w0) = Some m /\
             CursorObject.playAnimation K clipName w = cursor_start_clip K clipName w0).
  { destruct Hend as [Hnull | (a & Hact & Ht)].
    - exists w. by rewrite (cursor_playAnimation_null K w clipName Hname Hnull).
    - destruct (cursor_currentAction_Some w a Hact) as (r & Hr & Ha).
      exists (mkWorld (this w) (<[r := reset a]> (heap w)) (console w)).
      by rewrite (cursor_playAnimation_at_end K w clipName r a Hname Hr Ha Ht). }
  destruct Hrun as (w0 & Hclips0 & Hmixer0 & Hrun).
  unfold outcome, after. rewrite Hrun.
  rewrite (cursor_start_clip_new K w0 l m clipName clip Hclips0 Hmixer0 Hclip Hnew).
  cbn [fst snd].
  set (w' := mkWorld _ (heap w0 ++ [cursor_started (newAction clip)]) (console w0)).
  assert (Hact' : CursorObject.currentAction w' = Some (cursor_started (newAction clip))).
  { unfold CursorObject.currentAction. cbn. by rewrite list_lookup_middle. }
  split; [done|]. split; [by exists (cursor_started (newAction clip))|].
  intros clipName'.
  by apply (cursor_playAnimation_away_from_end K w' (cursor_started (newAction clip))).
Qed.

Lemma cursor_new_clip_closes_the_door_witness :
  outcome (CursorObject.playAnimation names "CLICK") cursor_loaded = Normal tt /\
  CursorObject.playAnimation names "SCROLL" cursor_clicked = (Normal tt, cursor_clicked).
Proof.
  destruct (cursor_new_clip_closes_the_door names cursor_loaded
              (animations hand_glb) newMixer (mkClip "CLICK" 1) "CLICK")
    as (Hout & _ & Hclosed); try reflexivity.
  - apply (cursor_wf_loadCursorObjectToScene _ "hand.glb"
             (Loaded hand_glb (mkVector3 0 0 0))), cursor_wf_constructor.
  - by left.
  - split; [exact Hout|]. apply Hclosed.
Defined.

(* ================================================================== *)
(** * What the pointer proxy writes *)
(* ================================================================== *)

(** In a well-formed world [CursorObject.playAnimation] writes no action
    but the one that was current when it was called and the one that is
    current when it ends, and does not write the console: every action is
    still there afterwards, for the same clip, scheduled if it was, and at
    the time it had or back at time 0; every action other than those two
    is as it was. *)
Theorem cursor_writes_only_the_current_actions (K : AnimationNameConstants)
    (w : World CursorObject.t) (clipName : string) :
  CursorObject.wf w ->
  let w' := after (CursorObject.playAnimation K clipName) w in
  console w' = console w /\
  (forall r a, heap w !! r = Some a ->
     exists a', heap w' !! r = Some a' /\ _clip a' = _clip a /\
                (time a' = time a \/ time a' = 0%float) /\
                (scheduled a = true -> scheduled a' = true)) /\
  (forall r, r < length (heap w) ->
     CursorObject._currentAction (this w) <> Some r ->
     CursorObject._currentAction (this w') <> Some r ->
     heap w' !! r = heap w !! r).
Proof.
  intros Hwf. cbn zeta.
  assert (Hblock : forall w0 : World CursorObject.t,
             CursorObject.wf w0 ->
             console (after (cursor_start_clip K clipName) w0) = console w0 /\
             (forall r a, heap w0 !! r = Some a ->
                exists a', heap (after (cursor_start_clip K clipName) w0) !! r = Some a' /\
                           _clip a' = _clip a /\ time a' = time a /\
                           (scheduled a = true -> scheduled a' = true)) /\
             (forall r, r < length (heap w0) ->
                CursorObject._currentAction
                  (this (after (cursor_start_clip K clipName) w0)) <> Some r ->
                heap (after (cursor_start_clip K clipName) w0) !! r = heap w0 !! r)).
  { intros w0 Hwf0.
    destruct (cursor_start_clip_shape K w0 clipName Hwf0)
      as (Hcon & [Hsame | [(r & a & Ha & _ & Hr & Hheap & _)
                          | (clip & Hr & Hheap & _)]]);
      (split; [done|]).
    - rewrite Hsame. split; [|done]. intros r a Ha. by exists a.
    - rewrite Hheap. split.
      + intros r' a' Ha'. destruct (decide (r = r')) as [<- | Hne].
        * exists (cursor_started a).
          rewrite list_lookup_insert_eq by (by eapply lookup_lt_Some).
          pose proof (eq_trans (eq_sym Ha) Ha') as [= ->]. done.
        * exists a'. by rewrite list_lookup_insert_ne.
      + intros r' _ Hnot. apply list_lookup_insert_ne. intros <-. by apply Hnot.
    - rewrite Hheap. split.
      + intros r a Ha. exists a. split; [|done]. apply lookup_app_l_Some. exact Ha.
      + intros r Hlt _. by apply lookup_app_l. }
  pose proof Hwf as (Hcur & _).
  destruct (cursor_starts K clipName) eqn:Hname; cycle 1.
  { unfold after. rewrite cursor_playAnimation_other_name by done.
    split; [done|]. split; [|done]. intros r a Ha. exists a.
    split; [done|]. split; [done|]. split; [by left|done]. }
  destruct (CursorObject._currentAction (this w)) as [r|] eqn:Hr; cycle 1.
  { unfold after. rewrite (cursor_playAnimation_null K w clipName Hname Hr).
    destruct (Hblock w Hwf) as (Hcon & Hkeep & Hother).
    split; [done|]. split.
    - intros r a Ha. destruct (Hkeep r a Ha) as (a' & Ha' & Hclip & Ht & Hs).
      exists a'. split; [done|]. split; [done|]. split; [by left|done].
    - intros r Hlt _ Hnot. by apply Hother. }
  destruct (Hcur r eq_refl) as [a Ha].
  destruct (time a === CursorObject._currentClipDuration (this w)) eqn:Ht.
  - unfold after.
    rewrite (cursor_playAnimation_at_end K w clipName r a Hname Hr Ha Ht).
    destruct (Hblock _ (cursor_wf_reset w r a Hwf Hr Ha)) as (Hcon & Hkeep & Hother).
    cbn [heap console this] in *.
    split; [done|]. split.
    + intros r' a' Ha'. destruct (decide (r = r')) as [<- | Hne].
      * pose proof (eq_trans (eq_sym Ha) Ha') as [= <-].
        destruct (Hkeep r (reset a)) as (a'' & Ha'' & Hclip & Htime & Hs).
        { by rewrite list_lookup_insert_eq by (by eapply lookup_lt_Some). }
        exists a''. split; [done|]. split; [done|]. split; [by right|done].
      * destruct (Hkeep r' a') as (a'' & Ha'' & Hclip & Htime & Hs).
        { by rewrite list_lookup_insert_ne. }
        exists a''. split; [done|]. split; [done|]. split; [by left|done].
    + intros r' Hlt Hold Hnew.
      rewrite Hother; [|by rewrite length_insert|done].
      apply list_lookup_insert_ne. intros <-. by apply Hold.
  - unfold after. rewrite (cursor_playAnimation_away_from_end K w a clipName).
    + split; [done|]. split; [|done].
      intros r' a' Ha'. exists a'.
      split; [done|]. split; [done|]. split; [by left|done].
    + unfold CursorObject.currentAction. by rewrite Hr.
    + done.
Qed.

Lemma cursor_after_click_and_scroll_wf : CursorObject.wf cursor_after_click_and_scroll.
Proof.
  assert (Hloaded : CursorObject.wf cursor_loaded).
  { apply (cursor_wf_loadCursorObjectToScene _ "hand.glb"
             (Loaded hand_glb (mkVector3 0 0 0))), cursor_wf_constructor. }
  unfold cursor_after_click_and_scroll. cbn zeta.
  set (w1 := after (CursorObject.playAnimation names "CLICK") cursor_loaded).
  assert (Hclick : CursorObject.wf
                     (mkWorld (this w1) (finished <$> heap w1) (console w1))).
  { apply (cursor_wf_heap_extends (this w1) (heap w1) _ (console w1));
      [|apply heap_extends_finished].
    rewrite World_eta. by apply cursor_wf_playAnimation. }
  set (w2 := after (CursorObject.playAnimation names "SCROLL") _).
  apply (cursor_wf_heap_extends (this w2) (heap w2) _ (console w2));
    [|apply heap_extends_finished].
  rewrite World_eta. by apply cursor_wf_playAnimation.
Qed.

Lemma cursor_writes_only_the_current_actions_witness :
  (time <$> heap (after (CursorObject.playAnimation names "CLICK")
                        cursor_after_click_and_scroll) !! 1) = Some 0%float /\
  (time <$> heap (after (CursorObject.playAnimation names "CLICK")
                        cursor_after_click_and_scroll) !! 0) = Some 1%float.
Proof.
  destruct (cursor_writes_only_the_current_actions names
              cursor_after_click_and_scroll "CLICK"
              cursor_after_click_and_scroll_wf) as (_ & Hkeep & _).
  destruct (Hkeep 0 (finished (reset (finished (cursor_started
                       (newAction (mkClip "CLICK" 1)))))) eq_refl)
    as (a' & Ha' & _ & _ & _).
  split; [reflexivity|]. rewrite Ha'. vm_compute in Ha'. by simplify_eq.
Defined.

(* ================================================================== *)
(** * The pointer away from the trigger points *)
(* ================================================================== *)



